(* ===== verification/_CoqProject ===== *)
-Q . S2P
Prelude.v
Runtime.v
RuntimeFacts.v
Vector.v
Access.v
Writable.v
Proxy.v
Named.v
Sequences.v
Lifecycle.v
Iterator.v
Logicals.v
Doubles.v
