(* ===== verification/Prelude.v ===== *)
(** * A verification development for the cpp11 vector specialisations

    The program: the header-only C++ library cpp11 wraps vectors owned by
    the R interpreter (a SEXP) in typed C++ objects.  The two sources under
    [src/inst/include/cpp11/] are the specialisations of the generic
    [cpp11::vector<T>] (read-only) and [cpp11::writable::vector<T>]
    templates for [double] ([doubles.hpp]) and for [Rboolean]
    ([logicals.hpp]).  Each specialisation gives

    - [valid_type]: the element-kind check of the constructor
      ([type_error] when [TYPEOF] is not REALSXP / LGLSXP);
    - [operator[]] and [at]: element reads, dispatching once on
      [is_altrep_] between the materialised buffer [data_p_] and the
      opaque accessor [REAL_ELT] / [LOGICAL_ELT]; [at] throws
      [std::out_of_range] outside [0, length_);
    - [get_p]: the direct pointer ([nullptr] for an ALTREP vector);
    - [const_iterator::fill_buf]: the 64-element block read of the
      buffered iterator ([REAL_GET_REGION] / [LOGICAL_GET_REGION]);
    - [proxy::operator=] and [proxy::operator T]: the write-through slot
      reference of the writable vector;
    - the writable constructors from an [initializer_list] of values and of
      [named_arg]s, [reserve] and [push_back].

    The code calls the R runtime (allocation, [Rf_xlengthgets], the
    ALTREP accessors, the precious list behind [protect_sexp] /
    [release_protect], attributes) and the generic template of
    [vector.hpp] (constructor from a SEXP, the iterator, the destructor,
    the proxy's construction), none of which is under [src/]: those are
    modelled from the specification and marked [spec_modelled] in the
    manifest.

    ** Layout of the development (in the order of [_CoqProject])

    - [Prelude] (this file): the outcome monad shared by every component
      ([Ok], a C++ exception [Throw], an R longjmp [Jump] that C++ handlers
      cannot see, undefined behaviour [Undef], fuel exhaustion [Diverge]),
      [try_catch] (a C++ [catch] that selects exceptions), [jump_to] (what
      [unwind_protect] and [safe[...]] do to a longjmp), its notations in
      [cpp_scope], the run lemmas, the [cpp11_run] rewrite database and the
      bounds of [R_xlen_t].
    - [Runtime]: the host runtime as explicit state: a heap of SEXPs
      ([gmap] from handles to objects with payload, ALTREP flag, names
      attribute and a failing-ALTREP flag), the precious list (protection
      registry, tokens to handles), the allocation limit, a [gctorture]
      switch under which every allocation first collects every object not
      reachable from the registry, and call counters for the ALTREP
      accessors.  The element kinds are a type class [ElemKind] (the
      interface through which the vector template sees REALSXP and LGLSXP
      payloads).  The runtime is the environment of the code: its
      definitions are not mapped to the sources.
    - [RuntimeFacts]: the well-formedness of a runtime state ([rstate_wf])
      and the run lemmas of each primitive.
    - [Vector]: the objects: [vector] (read-only: [data_], [protect_],
      [is_altrep_], [data_p_], [length_]), [wvector] (adds [capacity_]),
      [named_arg], [proxy]; [VM], the monad of a member function (runtime
      and [*this]) with [rt], [this], [set_this] and [construct]; and
      [contents], what a vector holds.
    - [Access]: [valid_type], [get_p], the constructor from a SEXP
      ([vector_from]), [operator[]] ([subscript]) and [at] ([at_]).
    - [Writable]: [reserve], the growth loop [grow] of [push_back] and
      [push_back], with the invariant [wv_ok] (data live, protected under
      [protect_], [length_ <= capacity_ = xlength data_], [data_p_] the
      data pointer) and [healthy] (no ALTREP accessor fails).
    - [Proxy]: the write-through slot reference ([proxy_at],
      [proxy_assign], [proxy_get]).
    - [Named]: the constructor from a list of [named_arg]s ([ctor_named],
      its [unwind_protect] body [named_body] and loop [fill_named]).
    - [Sequences]: a client's loop of [push_back]s from the default
      vector ([push_all]).
    - [Lifecycle]: the events of a vector's life ([op]: [push_back],
      [reserve], a store [v[pos] = x] through the proxy, an allocation by
      other R code), one event ([exec]), when the caller expects it to
      return ([enabled]), the abstract list model ([abs_op], [abs_run]),
      the states reached by enabled events from any start ([steps], by
      rule induction; [runs] from the default vector) and an executable
      runner ([run_from]).
    - [Iterator]: [const_iterator] with its 64-element buffer, [cbegin],
      [operator*] ([deref]), [operator++] ([incr]) and the range-for loop
      ([for_each]); the block read [fill_buf] is the interface
      [BlockRead], whose law the two specialisations discharge.
    - [Logicals]: Module [logicals], the [Rboolean] specialisation of
      [logicals.hpp] (its [static_cast], the literal constructor through
      [SET_LOGICAL_ELT], [fill_buf] without [unwind_protect]).
    - [Doubles]: Module [doubles], the [double] specialisation of
      [doubles.hpp] (the literal constructor through [as_sexp],
      [fill_buf] under [unwind_protect]), and the witnesses of the generic
      theorems at [double].

    ** What the theorems show

    - Growth ([Writable], [Sequences]): [reserve] and [push_back] keep the
      invariant, append, keep the elements, and trade the old protection
      token for exactly one fresh token; the growth loop returns with
      room; a sequence of pushes from the default vector holds the list
      with the doubling policy's capacity.  The error path: a refused
      allocation leaves [capacity_] doubled over the old data, so the
      object breaks its invariant and the next push is undefined; a
      [reserve] below [length_] returns normally with the same effect,
      and [at] then reads past the end.
    - Access ([Access], [Proxy]): [vector(SEXP)] accepts only objects of
      the kind ([type_error] otherwise, [R_NilValue] included); [at] and
      [operator[]] agree in range, [at] throws [std::out_of_range]
      outside it and changes nothing, the proxy round trip returns what
      was written.
    - Constructors ([Doubles], [Logicals], [Named]): the literal
      constructors hold the list; the doubles one leaves its data
      unprotected (collected by the next allocation under [gctorture],
      then a use after free), the logicals one protects it; the named one
      holds the first elements of the values with the argument names as
      its names attribute, and leaks its token when a value has another
      type ([type_error] is not caught by its handler).  A refused
      allocation is [unwind_exception] for the doubles literal (under
      [safe]) but an R longjmp through the C++ frames for the logicals
      one.
    - Life cycle ([Lifecycle]): in every state reachable by enabled
      events, interleaved with foreign allocations that may collect, the
      invariant holds and the precious list is the initial one plus the
      vector's token; the contents refine the abstract list model; every
      enabled event returns (progress); the destructor restores the
      initial precious list.  Composed with the logicals literal
      constructor, the same holds from [writable::logicals{...}], and
      the destructor restores the precious list of before the
      constructor.
    - Iterator ([Iterator]): the range-for loop yields what the loop of
      [operator[]] yields, for both representations, with exactly
      ceil(n/64) region reads on an ALTREP vector; [fill_buf] of doubles
      turns an R error into [unwind_exception], that of logicals lets the
      longjmp through; for any history of [operator*] and [operator++]
      the buffered block holds the vector's elements and contains the
      position read ([window_ok]), one region read per refill.

    Fuel and bounds: the growth loop of [push_back] is a [while] loop, a
    [Fixpoint] on fuel [push_back_fuel] = 65; the theorems prove that two
    turns suffice from any state satisfying the invariant (one doubling
    gives room), so it returns, not only "if it returns".  The iterator
    loops recurse structurally on the element count.  [R_xlen_t] is a
    [Z]: the allocator refuses lengths above [R_XLEN_T_MAX] = 2^52, and
    [capacity_ *= 2] past [PTRDIFF_MAX] is signed overflow ([Undef]).

    ** Not modelled

    Attributes other than names, string encodings ([Rf_mkCharCE] makes a
    fresh CHARSXP), the R-level API ([as_sexp] of other types, coercions),
    the generic template's copy/move constructors and the destructor's
    interaction with the C++ object lifetime beyond [release_protect]: the
    two sources do not define them.  [named_arg] itself (a name and a
    value it keeps protected) is taken from the specification.  The
    writable constructor over an existing object is in [vector.hpp] and
    is not in the specification's list of writable constructors, so no
    modelled constructor makes a writable vector over an ALTREP object:
    the ALTREP branches of [proxy::operator=] and of [push_back] are
    modelled but no theorem claims behaviour that only they reach.
    [static_cast<Rboolean>] is read as the identity on the [int] cell
    (what compilers do); for [NA_LOGICAL], outside the enumeration's
    range, the standard gives an unspecified value (C++11/14) or
    undefined behaviour (C++17), so no theorem is stated about the
    logical members that spell the cast out beyond their agreement with
    the template bodies under that reading. *)

From stdpp Require Export base gmap list strings.
From Stdlib Require Export ZArith Lia.

Declare Scope cpp_scope.
Delimit Scope cpp_scope with cpp.

(** ** Outcomes of a computation against the R runtime *)

Inductive outcome (S E A : Type) : Type :=
| Ok (a : A) (s : S)
| Throw (e : E) (s : S)
| Jump (s : S)
| Undef (why : string)
| Diverge.
Arguments Ok {S E A} a s.
Arguments Throw {S E A} e s.
Arguments Jump {S E A} s.
Arguments Undef {S E A} why.
Arguments Diverge {S E A}.

(** A computation with state [S] and C++ exceptions [E]. *)
Definition M (S E A : Type) : Type := S -> outcome S E A.

Section Monad.
Context {S E : Type}.

Definition ret {A} (a : A) : M S E A := fun s => Ok a s.

Definition bind {A B} (m : M S E A) (k : A -> M S E B) : M S E B :=
  fun s =>
    match m s with
    | Ok a s' => k a s'
    | Throw e s' => Throw e s'
    | Jump s' => Jump s'
    | Undef w => Undef w
    | Diverge => Diverge
    end.

Definition throw {A} (e : E) : M S E A := fun s => Throw e s.
Definition undef {A} (why : string) : M S E A := fun _ => Undef why.
Definition diverge {A} : M S E A := fun _ => Diverge.
Definition get : M S E S := fun s => Ok s s.
Definition put (s : S) : M S E unit := fun _ => Ok tt s.
Definition modify (f : S -> S) : M S E unit := fun s => Ok tt (f s).

(** [try { m } catch (e) { h e }] for the exceptions [handles] selects;
    an R longjmp is not a C++ exception and goes through. *)
Definition try_catch {A} (m : M S E A) (handles : E -> bool)
    (h : E -> M S E A) : M S E A :=
  fun s =>
    match m s with
    | Throw e s' => if handles e then h e s' else Throw e s'
    | r => r
    end.

(** Converting an R longjmp into a C++ exception [e] (what cpp11's
    [unwind_protect] and [safe[...]] do). *)
Definition jump_to {A} (e : E) (m : M S E A) : M S E A :=
  fun s => match m s with Jump s' => Throw e s' | r => r end.

(** The outcome is neither undefined behaviour nor fuel exhaustion. *)
Definition defined {A} (r : outcome S E A) : bool :=
  match r with Undef _ | Diverge => false | _ => true end.
End Monad.

(** Running a computation on a larger state through a lens. *)
Definition focus {S T E A} (prj : S -> T) (upd : T -> S -> S)
    (m : M T E A) : M S E A :=
  fun s =>
    match m (prj s) with
    | Ok a t => Ok a (upd t s)
    | Throw e t => Throw e (upd t s)
    | Jump t => Jump (upd t s)
    | Undef w => Undef w
    | Diverge => Diverge
    end.

Notation "x <- m ;; k" := (bind m (fun x => k))
  (at level 100, m at next level, right associativity) : cpp_scope.
Notation "m ;; k" := (bind m (fun _ => k))
  (at level 100, k at level 200, right associativity) : cpp_scope.

Open Scope cpp_scope.

(** ** Run lemmas *)

Create HintDb cpp11 discriminated.
Create Rewrite HintDb cpp11_run.
#[export] Hint Constants Transparent : cpp11.

Section RunLemmas.
Context {S E : Type}.

Lemma run_ret {A} (a : A) (s : S) : @ret S E A a s = Ok a s.
Proof. reflexivity. Qed.

Lemma run_bind_Ok {A B} (m : M S E A) (k : A -> M S E B) s a s' :
  m s = Ok a s' -> bind m k s = k a s'.
Proof. unfold bind. by intros ->. Qed.

Lemma run_bind_Throw {A B} (m : M S E A) (k : A -> M S E B) s e s' :
  m s = Throw e s' -> bind m k s = Throw e s'.
Proof. unfold bind. by intros ->. Qed.

Lemma run_bind_Jump {A B} (m : M S E A) (k : A -> M S E B) s s' :
  m s = Jump s' -> bind m k s = Jump s'.
Proof. unfold bind. by intros ->. Qed.

Lemma run_bind_Undef {A B} (m : M S E A) (k : A -> M S E B) s why :
  m s = Undef why -> bind m k s = Undef why.
Proof. unfold bind. by intros ->. Qed.

Lemma bind_assoc {A B C} (m : M S E A) (k : A -> M S E B)
    (k' : B -> M S E C) s :
  bind (bind m k) k' s = bind m (fun a => bind (k a) k') s.
Proof. unfold bind. by destruct (m s). Qed.

Lemma bind_ret_r {A} (m : M S E A) s : bind m ret s = m s.
Proof. unfold bind, ret. by destruct (m s). Qed.

(** A bind is defined when its head is and every continuation from a
    state the head can reach is. *)
Lemma defined_bind {A B} (m : M S E A) (k : A -> M S E B) s :
  defined (m s) = true ->
  (forall a s', m s = Ok a s' -> defined (k a s') = true) ->
  defined (bind m k s) = true.
Proof. unfold bind. destruct (m s); naive_solver. Qed.
End RunLemmas.

#[export] Hint Rewrite @run_ret @bind_assoc @bind_ret_r : cpp11_run.

(** ** [R_xlen_t]: R's vector length type, a signed 64-bit [ptrdiff_t] *)

Definition R_xlen_t := Z.
Definition PTRDIFF_MAX : Z := 2 ^ 63 - 1.
(** The largest length R allocates ([R_XLEN_T_MAX] in Rinternals.h). *)
Definition R_XLEN_T_MAX : Z := 2 ^ 52.

Lemma R_XLEN_T_MAX_small : (2 * R_XLEN_T_MAX < PTRDIFF_MAX)%Z.
Proof. unfold R_XLEN_T_MAX, PTRDIFF_MAX. lia. Qed.

(** ** Generic list facts used by the components *)

Lemma take_app_snoc {A} (l : list A) (x : A) (n : nat) :
  n = length l -> take (S n) (l ++ [x]) = l ++ [x].
Proof. intros ->. rewrite take_ge; [done|]. rewrite length_app; simpl; lia. Qed.

Lemma lookup_snoc_last {A} (l : list A) (x : A) :
  (l ++ [x]) !! length l = Some x.
Proof. rewrite lookup_app_r; [|lia]. by rewrite Nat.sub_diag. Qed.

Lemma take_insert_snoc {A} (l : list A) (i : nat) (x : A) :
  i < length l -> take (S i) (<[i := x]> l) = take i l ++ [x].
Proof.
  intros Hi. rewrite (take_S_r _ _ x) by (by apply list_lookup_insert_eq).
  rewrite take_insert. by rewrite decide_False by lia.
Qed.

(** One step of a loop that writes a list into [l] from index [i]. *)
Lemma splice_insert {A} (l xs : list A) (i n : nat) (x : A) :
  i < length l ->
  take (S i) (<[i := x]> l) ++ xs ++ drop (S i + n) (<[i := x]> l) =
  take i l ++ x :: xs ++ drop (i + S n) l.
Proof.
  intros Hi. rewrite take_insert_snoc by done. rewrite <- app_assoc. simpl.
  rewrite drop_insert_lt by lia. by rewrite Nat.add_succ_r.
Qed.

(** The whole of [l] rewritten by such a loop. *)
Lemma splice_whole {A} (l m : list A) (n : nat) :
  length l <= n -> take 0 l ++ m ++ drop n l = m.
Proof. intros Hn. by rewrite take_0, drop_ge, app_nil_r. Qed.

(** Replacing one key of a map by a fresh one leaves the rest of the
    map as it was. *)
Lemma delete_insert_fresh `{Countable K} {A} (m : gmap K A) i j x :
  m !! i = None -> delete i (<[i := x]> (delete j m)) = delete j m.
Proof.
  intros Hi. rewrite delete_insert_eq. apply delete_id.
  destruct (decide (i = j)) as [->|]; [apply lookup_delete_eq|by rewrite lookup_delete_ne].
Qed.

Ltac inv_outcome :=
  repeat match goal with
  | H : Ok _ _ = Ok _ _ |- _ => injection H as <- <-
  | H : Throw _ _ = Throw _ _ |- _ => injection H as <- <-
  | H : Jump _ = Jump _ |- _ => injection H as <-
  | H : Ok _ _ = Throw _ _ |- _ => discriminate H
  | H : Ok _ _ = Jump _ |- _ => discriminate H
  | H : Ok _ _ = Undef _ |- _ => discriminate H
  | H : Ok _ _ = Diverge |- _ => discriminate H
  | H : Throw _ _ = Ok _ _ |- _ => discriminate H
  | H : Jump _ = Ok _ _ |- _ => discriminate H
  | H : Undef _ = Ok _ _ |- _ => discriminate H
  | H : Diverge = Ok _ _ |- _ => discriminate H
  end.
