(* ===== verification/Runtime.v ===== *)
(** * The R runtime as cpp11 sees it

    The collaborator of the vector specialisations: R's heap of SEXPs, the
    allocator ([Rf_allocVector], [Rf_xlengthgets]), the ALTREP accessors
    ([*_ELT], [SET_*_ELT], [*_GET_REGION], [DATAPTR]), attributes, the
    precious list behind cpp11's [protect_sexp] / [release_protect], and
    the collector.  None of this code is in the repository: it is modelled
    from the specification (sections 3, 5, 6 and 7), as explicit state.

    Failure of the runtime is an R error, i.e. a longjmp ([Jump]), which
    C++ code only sees after [safe[...]] or [unwind_protect] turn it into
    the C++ exception [unwind_exception].  Allocation fails exactly when
    the requested length exceeds [max_alloc] (or R's own limit).  When
    [gctorture] is set, every allocation first collects every object not
    reachable from the precious list (and from the arguments R protects
    internally during the call); reading a collected object is [Undef]. *)

From S2P Require Import Prelude.
From Stdlib Require Import PrimFloat.

(** ** Data *)

Inductive SEXPTYPE := NILSXP | LGLSXP | INTSXP | REALSXP | STRSXP.
#[export] Instance SEXPTYPE_eq_dec : EqDecision SEXPTYPE.
Proof. solve_decision. Defined.

(** Handles; [0] is [R_NilValue], which is never in the heap. *)
Abbreviation SEXP := N.
Definition R_NilValue : SEXP := 0%N.

(** Vector payloads; a [STRSXP] element [None] is [NA_STRING]. *)
Inductive payload :=
| LglData (xs : list Z)
| IntData (xs : list Z)
| RealData (xs : list float)
| StrData (xs : list (option string)).

Definition payload_type (p : payload) : SEXPTYPE :=
  match p with
  | LglData _ => LGLSXP | IntData _ => INTSXP
  | RealData _ => REALSXP | StrData _ => STRSXP
  end.

Definition payload_length (p : payload) : nat :=
  match p with
  | LglData xs | IntData xs => length xs
  | RealData xs => length xs | StrData xs => length xs
  end.

(** R's missing values.  [NA_REAL] is a NaN; Rocq's primitive floats have a
    single NaN, so NA and NaN are not told apart here. *)
Definition NA_REAL : float := PrimFloat.nan.
Definition NA_LOGICAL : Z := (- 2 ^ 31)%Z.
Definition NA_INTEGER : Z := (- 2 ^ 31)%Z.

Record sexprec := mk_sexprec {
  sx_data : payload;
  sx_altrep : bool;          (** [ALTREP(x)] *)
  sx_altrep_fails : bool;    (** its ALTREP methods signal an R error *)
  sx_names : SEXP            (** the names attribute, or [R_NilValue] *)
}.

Record rstate := mk_rstate {
  heap : gmap N sexprec;
  precious : gmap N SEXP;    (** protection registry: token -> object *)
  next_sexp : N;             (** next fresh handle or token *)
  max_alloc : Z;             (** largest length the allocator satisfies *)
  gctorture : bool;
  junk_real : float;         (** contents of fresh, uninitialised memory *)
  junk_int : Z;
  elt_calls : nat;           (** number of single-element ALTREP reads *)
  region_calls : nat         (** number of block reads *)
}.

Definition set_heap (h : gmap N sexprec) (s : rstate) : rstate :=
  mk_rstate h (precious s) (next_sexp s) (max_alloc s) (gctorture s)
    (junk_real s) (junk_int s) (elt_calls s) (region_calls s).
Definition set_precious (p : gmap N SEXP) (s : rstate) : rstate :=
  mk_rstate (heap s) p (next_sexp s) (max_alloc s) (gctorture s)
    (junk_real s) (junk_int s) (elt_calls s) (region_calls s).
Definition set_next (n : N) (s : rstate) : rstate :=
  mk_rstate (heap s) (precious s) n (max_alloc s) (gctorture s)
    (junk_real s) (junk_int s) (elt_calls s) (region_calls s).
Definition tick_elt (s : rstate) : rstate :=
  mk_rstate (heap s) (precious s) (next_sexp s) (max_alloc s) (gctorture s)
    (junk_real s) (junk_int s) (S (elt_calls s)) (region_calls s).
Definition tick_region (s : rstate) : rstate :=
  mk_rstate (heap s) (precious s) (next_sexp s) (max_alloc s) (gctorture s)
    (junk_real s) (junk_int s) (elt_calls s) (S (region_calls s)).

(** The C++ exceptions of cpp11 ([type_error], [std::out_of_range] with its
    message, [unwind_exception]). *)
Inductive exn :=
| type_error (expected actual : SEXPTYPE)
| out_of_range (what : string)
| unwind_exception.

Definition is_unwind (e : exn) : bool :=
  match e with unwind_exception => true | _ => false end.

(** Computations against the runtime. *)
Abbreviation RM := (M rstate exn).

(** [safe[f](...)] and [unwind_protect]: an R error becomes
    [unwind_exception]. *)
Definition safe {A} (m : RM A) : RM A := jump_to unwind_exception m.
Definition unwind_protect {A S} (m : M S exn A) : M S exn A :=
  jump_to unwind_exception m.

(** An R error. *)
Definition Rf_error {A} : RM A := fun s => Jump s.

(** ** The collector *)

(** Objects reachable from the precious list and from [extra] (arguments
    R protects during the call), with their names attributes. *)
Definition live_set (extra : list SEXP) (s : rstate) : gset N :=
  let rs := extra ++ (map_to_list (precious s)).*2 in
  list_to_set rs ∪ list_to_set (omap (fun r => sx_names <$> heap s !! r) rs).

Definition collect (extra : list SEXP) (s : rstate) : rstate :=
  if gctorture s
  then set_heap (filter (fun kv => kv.1 ∈ live_set extra s) (heap s)) s
  else s.

(** ** Reading objects *)

Definition deref (h : SEXP) : RM sexprec :=
  fun s =>
    match heap s !! h with
    | Some o => Ok o s
    | None => Undef "access to a collected or invalid SEXP"
    end.

Definition TYPEOF (h : SEXP) : RM SEXPTYPE :=
  if decide (h = R_NilValue) then ret NILSXP
  else o <- deref h;; ret (payload_type (sx_data o)).

Definition ALTREP (h : SEXP) : RM bool :=
  if decide (h = R_NilValue) then ret false
  else o <- deref h;; ret (sx_altrep o).

Definition Rf_xlength (h : SEXP) : RM R_xlen_t :=
  if decide (h = R_NilValue) then ret 0%Z
  else o <- deref h;; ret (Z.of_nat (payload_length (sx_data o))).

(** An ALTREP method that signals an error. *)
Definition altrep_fails (o : sexprec) : bool := sx_altrep o && sx_altrep_fails o.

Definition set_object (h : SEXP) (o : sexprec) : RM unit :=
  fun s =>
    match heap s !! h with
    | Some _ => Ok tt (set_heap (<[h := o]> (heap s)) s)
    | None => Undef "write to a collected or invalid SEXP"
    end.

(** Indexing by an [R_xlen_t]. *)
Definition zlookup {A} (xs : list A) (i : Z) : option A :=
  if (i <? 0)%Z then None else xs !! Z.to_nat i.

Definition zupdate {A} (xs : list A) (i : Z) (v : A) : option (list A) :=
  if (i <? 0)%Z || (Z.of_nat (length xs) <=? i)%Z then None
  else Some (<[Z.to_nat i := v]> xs).

(** ** Allocation *)

Definition init_payload (t : SEXPTYPE) (n : nat) (s : rstate) : option payload :=
  match t with
  | LGLSXP => Some (LglData (replicate n (junk_int s)))
  | INTSXP => Some (IntData (replicate n (junk_int s)))
  | REALSXP => Some (RealData (replicate n (junk_real s)))
  | STRSXP => Some (StrData (replicate n (Some "")))
  | NILSXP => None
  end.

(** A fresh object, after a collection that spares [extra]. *)
Definition alloc_object (p : payload) (extra : list SEXP) : RM SEXP :=
  fun s =>
    let s1 := collect extra s in
    let h := next_sexp s1 in
    Ok h (set_next (h + 1)
            (set_heap (<[h := mk_sexprec p false false R_NilValue]> (heap s1)) s1)).

Definition alloc_fails (n : R_xlen_t) (s : rstate) : bool :=
  (n <? 0)%Z || (R_XLEN_T_MAX <? n)%Z || (max_alloc s <? n)%Z.

Definition Rf_allocVector (t : SEXPTYPE) (n : R_xlen_t) : RM SEXP :=
  fun s =>
    if alloc_fails n s then Rf_error s
    else match init_payload t (Z.to_nat n) s with
         | Some p => alloc_object p [] s
         | None => Rf_error s
         end.

(** [xlengthgets]: copies the first [n] elements into a fresh vector,
    padding with NA (names with [""]); returns [x] itself when the length
    is already [n]. *)
Definition resize_payload (p : payload) (n : nat) : payload :=
  match p with
  | LglData xs => LglData (take n xs ++ replicate (n - length xs) NA_LOGICAL)
  | IntData xs => IntData (take n xs ++ replicate (n - length xs) NA_INTEGER)
  | RealData xs => RealData (take n xs ++ replicate (n - length xs) NA_REAL)
  | StrData xs => StrData (take n xs ++ replicate (n - length xs) None)
  end.

Definition resize_names (p : payload) (n : nat) : payload :=
  match p with
  | StrData xs => StrData (take n xs ++ replicate (n - length xs) (Some ""))
  | p => p
  end.

Definition Rf_xlengthgets (x : SEXP) (n : R_xlen_t) : RM SEXP :=
  o <- deref x;;
  if (n <? 0)%Z then Rf_error
  else if decide (Z.of_nat (payload_length (sx_data o)) = n) then ret x
  else
    h <- Rf_allocVector (payload_type (sx_data o)) n;;
    o' <- deref x;;
    if altrep_fails o' then Rf_error
    else
      nms <- (if decide (sx_names o' = R_NilValue) then ret R_NilValue
              else nm <- deref (sx_names o');;
                   alloc_object (resize_names (sx_data nm) (Z.to_nat n))
                     [h; sx_names o']);;
      set_object h (mk_sexprec (resize_payload (sx_data o') (Z.to_nat n))
                      false false nms);;
      ret h.

(** ** The precious list *)

Definition protect_sexp (h : SEXP) : RM SEXP :=
  fun s =>
    if decide (h = R_NilValue) then Ok R_NilValue s
    else
      let s1 := collect [h] s in
      let tok := next_sexp s1 in
      Ok tok (set_next (tok + 1) (set_precious (<[tok := h]> (precious s1)) s1)).

Definition release_protect (tok : SEXP) : RM unit :=
  fun s =>
    if decide (tok = R_NilValue) then Ok tt s
    else match precious s !! tok with
         | Some _ => Ok tt (set_precious (delete tok (precious s)) s)
         | None => Undef "release of a token that is not in the precious list"
         end.

(** ** Attributes and strings *)

Definition Rf_setAttrib_names (x nm : SEXP) : RM unit :=
  modify (collect [x; nm]);;
  o <- deref x;;
  set_object x (mk_sexprec (sx_data o) (sx_altrep o) (sx_altrep_fails o) nm).

Definition Rf_getAttrib_names (x : SEXP) : RM SEXP :=
  o <- deref x;; ret (sx_names o).

Definition Rf_mkCharCE (str : string) : RM string :=
  modify (collect []);; ret str.

Definition SET_STRING_ELT (x : SEXP) (i : R_xlen_t) (v : option string) : RM unit :=
  o <- deref x;;
  match sx_data o with
  | StrData xs =>
      match zupdate xs i v with
      | Some xs' => set_object x (mk_sexprec (StrData xs') (sx_altrep o)
                                    (sx_altrep_fails o) (sx_names o))
      | None => undef "string write out of bounds"
      end
  | _ => Rf_error
  end.

(** ** Element kinds: the interface between the runtime and the template

    A C++ element type [T] of [cpp11::vector<T>] is stored in R as a
    payload of one [SEXPTYPE]; [ek_unpack] reads such a payload and
    [ek_pack] builds one.  The laws are what the vector template relies
    on; the instances for [double] and [Rboolean] discharge them. *)
Class ElemKind (T : Type) := {
  ek_sexptype : SEXPTYPE;
  ek_unpack : payload -> option (list T);
  ek_pack : list T -> payload;
  ek_NA : T;
  ek_unpack_pack xs : ek_unpack (ek_pack xs) = Some xs;
  ek_pack_unpack p xs : ek_unpack p = Some xs -> p = ek_pack xs;
  ek_type_pack xs : payload_type (ek_pack xs) = ek_sexptype;
  ek_unpack_type p : payload_type p = ek_sexptype -> is_Some (ek_unpack p);
  ek_length_pack xs : payload_length (ek_pack xs) = length xs;
  ek_resize_pack xs n :
    resize_payload (ek_pack xs) n = ek_pack (take n xs ++ replicate (n - length xs) ek_NA)
}.

Section Accessors.
Context `{ElemKind T}.

(** The elements of an object of kind [T]; applied to another type, R's
    accessors signal an error. *)
Definition elts (o : sexprec) : RM (list T) :=
  match ek_unpack (sx_data o) with Some xs => ret xs | None => Rf_error end.

Definition write_elts (h : SEXP) (o : sexprec) (xs : list T) : RM unit :=
  set_object h (mk_sexprec (ek_pack xs) (sx_altrep o) (sx_altrep_fails o) (sx_names o)).

(** [REAL_ELT] / [LOGICAL_ELT]. *)
Definition ELT (h : SEXP) (i : R_xlen_t) : RM T :=
  o <- deref h;;
  if altrep_fails o then Rf_error
  else
    xs <- elts o;;
    modify tick_elt;;
    match zlookup xs i with
    | Some v => ret v
    | None => undef "element read out of bounds"
    end.

(** [SET_REAL_ELT] / [SET_LOGICAL_ELT]. *)
Definition SET_ELT (h : SEXP) (i : R_xlen_t) (v : T) : RM unit :=
  o <- deref h;;
  if altrep_fails o then Rf_error
  else
    xs <- elts o;;
    match zupdate xs i v with
    | Some xs' => write_elts h o xs'
    | None => undef "element write out of bounds"
    end.

(** [REAL_GET_REGION] / [LOGICAL_GET_REGION]: copies up to [n] elements
    from [i] into the caller's buffer. *)
Definition GET_REGION (h : SEXP) (i n : R_xlen_t) : RM (list T) :=
  o <- deref h;;
  if altrep_fails o then Rf_error
  else
    xs <- elts o;;
    modify tick_region;;
    ret (take (Z.to_nat n) (drop (Z.to_nat i) xs)).

(** Raw pointers into a vector's data: a handle and an offset;
    [None] is [nullptr]. *)
Definition DATAPTR (h : SEXP) : RM (option (SEXP * R_xlen_t)) :=
  o <- deref h;;
  if altrep_fails o then Rf_error
  else _ <- elts o;; ret (Some (h, 0%Z)).

Definition ptr_read (p : option (SEXP * R_xlen_t)) (i : R_xlen_t) : RM T :=
  match p with
  | None => undef "null pointer dereference"
  | Some (h, off) =>
      o <- deref h;;
      match ek_unpack (sx_data o) with
      | Some xs =>
          match zlookup xs (off + i) with
          | Some v => ret v
          | None => undef "read out of bounds"
          end
      | None => undef "read through a pointer of another type"
      end
  end.

Definition ptr_write (p : option (SEXP * R_xlen_t)) (i : R_xlen_t) (v : T) : RM unit :=
  match p with
  | None => undef "null pointer dereference"
  | Some (h, off) =>
      o <- deref h;;
      match ek_unpack (sx_data o) with
      | Some xs =>
          match zupdate xs (off + i) v with
          | Some xs' => write_elts h o xs'
          | None => undef "write out of bounds"
          end
      | None => undef "write through a pointer of another type"
      end
  end.
End Accessors.

(** A runtime with an empty heap and registry. *)
Definition initial_rstate (max : Z) (torture : bool) : rstate :=
  mk_rstate ∅ ∅ 1%N max torture PrimFloat.zero 0%Z 0 0.
