(* ===== verification/RuntimeFacts.v ===== *)
(** * Facts about the runtime model

    Well-formedness of the runtime state (fresh handles and tokens are
    unused, [R_NilValue] is neither an object nor a token), what the
    collector keeps, and run lemmas for the primitives the vector template
    calls.  These are the lemmas the component proofs are built from. *)

From S2P Require Import Prelude Runtime.

Record rstate_wf (s : rstate) : Prop := {
  wf_next_pos : (0 < next_sexp s)%N;
  wf_heap_fresh k : (next_sexp s <= k)%N -> heap s !! k = None;
  wf_prec_fresh k : (next_sexp s <= k)%N -> precious s !! k = None;
  wf_heap_nil : heap s !! R_NilValue = None;
  wf_prec_nil : precious s !! R_NilValue = None
}.

(** ** The fields the collector and the setters leave alone *)

Section Fields.
Context (ex : list SEXP) (s : rstate).

Lemma precious_collect : precious (collect ex s) = precious s.
Proof. unfold collect. destruct (gctorture s) eqn:?; simpl; congruence. Qed.
Lemma next_collect : next_sexp (collect ex s) = next_sexp s.
Proof. unfold collect. destruct (gctorture s) eqn:?; simpl; congruence. Qed.
Lemma max_alloc_collect : max_alloc (collect ex s) = max_alloc s.
Proof. unfold collect. destruct (gctorture s) eqn:?; simpl; congruence. Qed.
Lemma gctorture_collect : gctorture (collect ex s) = gctorture s.
Proof. unfold collect. destruct (gctorture s) eqn:?; simpl; congruence. Qed.
Lemma region_calls_collect : region_calls (collect ex s) = region_calls s.
Proof. unfold collect. destruct (gctorture s) eqn:?; simpl; congruence. Qed.
Lemma elt_calls_collect : elt_calls (collect ex s) = elt_calls s.
Proof. unfold collect. destruct (gctorture s) eqn:?; simpl; congruence. Qed.
End Fields.

#[export] Hint Rewrite precious_collect next_collect max_alloc_collect
  gctorture_collect region_calls_collect elt_calls_collect : cpp11_run.

(** Closing a goal with a field of a well-formedness hypothesis. *)
Ltac wf_from H :=
  first [ exact (wf_next_pos _ H) | exact (wf_heap_nil _ H)
        | exact (wf_prec_nil _ H) | apply (wf_heap_fresh _ H)
        | apply (wf_prec_fresh _ H) ].

(** ** What the collector keeps *)

Lemma collect_lookup_live ex s k :
  k ∈ live_set ex s -> heap (collect ex s) !! k = heap s !! k.
Proof.
  intros Hk. unfold collect. destruct (gctorture s); [|done]. simpl.
  destruct (heap s !! k) eqn:E.
  - by apply map_lookup_filter_Some_2.
  - apply map_lookup_filter_None. by left.
Qed.

Lemma collect_lookup_sub ex s k o :
  heap (collect ex s) !! k = Some o -> heap s !! k = Some o.
Proof.
  unfold collect. destruct (gctorture s); [|done].
  simpl. apply map_lookup_filter_Some_1_1.
Qed.

(** Under [gctorture], an object nothing roots is freed. *)
Lemma collect_frees ex s k :
  gctorture s = true -> k ∉ live_set ex s -> heap (collect ex s) !! k = None.
Proof.
  intros Ht Hk. unfold collect. rewrite Ht. simpl.
  apply map_lookup_filter_None. right. by intros x _.
Qed.

(** With no roots at all, nothing is live. *)
Lemma live_set_unrooted s : precious s = ∅ -> live_set [] s = ∅.
Proof. intros Hp. unfold live_set. rewrite Hp, map_to_list_empty. set_solver. Qed.

Lemma live_set_extra ex s k : k ∈ ex -> k ∈ live_set ex s.
Proof.
  intros Hk. unfold live_set. apply elem_of_union_l, elem_of_list_to_set.
  set_solver.
Qed.

Lemma live_set_precious ex s t k : precious s !! t = Some k -> k ∈ live_set ex s.
Proof.
  intros Ht. unfold live_set. apply elem_of_union_l, elem_of_list_to_set.
  apply elem_of_app. right. apply list_elem_of_fmap.
  exists (t, k). split; [done|]. by apply elem_of_map_to_list.
Qed.

Lemma live_set_names ex s k o :
  k ∈ ex ++ (map_to_list (precious s)).*2 -> heap s !! k = Some o ->
  sx_names o ∈ live_set ex s.
Proof.
  intros Hk Ho. unfold live_set. apply elem_of_union_r, elem_of_list_to_set.
  apply list_elem_of_omap. exists k. by rewrite Ho.
Qed.

Lemma root_precious s t k :
  precious s !! t = Some k -> forall ex, k ∈ ex ++ (map_to_list (precious s)).*2.
Proof.
  intros Ht ex. apply elem_of_app. right. apply list_elem_of_fmap.
  exists (t, k). split; [done|]. by apply elem_of_map_to_list.
Qed.

(** A protected object, and the names of a protected object, survive a
    collection. *)
Lemma collect_keeps_protected ex s t k :
  precious s !! t = Some k -> heap (collect ex s) !! k = heap s !! k.
Proof. intros Ht. apply collect_lookup_live. by eapply live_set_precious. Qed.

Lemma collect_keeps_extra ex s k :
  k ∈ ex -> heap (collect ex s) !! k = heap s !! k.
Proof. intros Hk. by apply collect_lookup_live, live_set_extra. Qed.

Lemma collect_keeps_names ex s k o :
  k ∈ ex ++ (map_to_list (precious s)).*2 -> heap s !! k = Some o ->
  heap (collect ex s) !! sx_names o = heap s !! sx_names o.
Proof. intros Hk Ho. apply collect_lookup_live. by eapply live_set_names. Qed.

Lemma wf_collect ex s : rstate_wf s -> rstate_wf (collect ex s).
Proof.
  intros [Hpos Hh Hp Hn Hpn].
  split; autorewrite with cpp11_run; auto.
  - intros k Hk. destruct (heap (collect ex s) !! k) eqn:E; [|done].
    apply collect_lookup_sub in E. rewrite Hh in E; [done|lia].
  - destruct (heap (collect ex s) !! R_NilValue) eqn:E; [|done].
    apply collect_lookup_sub in E. congruence.
Qed.

(** Keys in use are below [next_sexp]. *)
Lemma wf_heap_lt s k o : rstate_wf s -> heap s !! k = Some o -> (k < next_sexp s)%N.
Proof.
  intros Hwf Hk. destruct (N.lt_ge_cases k (next_sexp s)) as [|Hge]; [done|].
  by rewrite (wf_heap_fresh _ Hwf k Hge) in Hk.
Qed.

Lemma wf_prec_lt s t k : rstate_wf s -> precious s !! t = Some k -> (t < next_sexp s)%N.
Proof.
  intros Hwf Ht. destruct (N.lt_ge_cases t (next_sexp s)) as [|Hge]; [done|].
  by rewrite (wf_prec_fresh _ Hwf t Hge) in Ht.
Qed.

Lemma wf_heap_not_nil s k o : rstate_wf s -> heap s !! k = Some o -> k <> R_NilValue.
Proof. intros Hwf Hk ->. by rewrite (wf_heap_nil _ Hwf) in Hk. Qed.

Lemma wf_prec_not_nil s t k : rstate_wf s -> precious s !! t = Some k -> t <> R_NilValue.
Proof. intros Hwf Ht ->. by rewrite (wf_prec_nil _ Hwf) in Ht. Qed.

#[export] Hint Resolve wf_collect wf_heap_lt wf_prec_lt wf_heap_not_nil
  wf_prec_not_nil : cpp11.

(** The configuration of the runtime, which no primitive changes. *)
Definition cfg (s : rstate) : Z * bool := (max_alloc s, gctorture s).

Lemma cfg_collect ex s : cfg (collect ex s) = cfg s.
Proof. unfold cfg. by autorewrite with cpp11_run. Qed.
#[export] Hint Rewrite cfg_collect : cpp11_run.

Section CfgSetters.
Context (s : rstate).
Lemma cfg_set_heap h : cfg (set_heap h s) = cfg s.
Proof. reflexivity. Qed.
Lemma cfg_set_precious p : cfg (set_precious p s) = cfg s.
Proof. reflexivity. Qed.
Lemma cfg_set_next n : cfg (set_next n s) = cfg s.
Proof. reflexivity. Qed.
Lemma cfg_tick_elt : cfg (tick_elt s) = cfg s.
Proof. reflexivity. Qed.
Lemma cfg_tick_region : cfg (tick_region s) = cfg s.
Proof. reflexivity. Qed.
End CfgSetters.
#[export] Hint Rewrite cfg_set_heap cfg_set_precious cfg_set_next cfg_tick_elt
  cfg_tick_region : cpp11_run.

Lemma alloc_fails_cfg n s s' : cfg s' = cfg s -> alloc_fails n s' = alloc_fails n s.
Proof. unfold cfg, alloc_fails. by intros [= -> _]. Qed.

Lemma alloc_fails_false n s :
  (0 <= n)%Z -> (n <= R_XLEN_T_MAX)%Z -> (n <= max_alloc s)%Z -> alloc_fails n s = false.
Proof. intros. unfold alloc_fails. repeat apply orb_false_intro; apply Z.ltb_ge; lia. Qed.

Lemma cfg_eq s s' : cfg s' = cfg s -> max_alloc s' = max_alloc s /\ gctorture s' = gctorture s.
Proof. unfold cfg. by intros [= -> ->]. Qed.

(** ** Run lemmas *)

Lemma deref_run s h o : heap s !! h = Some o -> deref h s = Ok o s.
Proof. unfold deref. by intros ->. Qed.

Lemma set_object_run s h o o' :
  heap s !! h = Some o -> set_object h o' s = Ok tt (set_heap (<[h := o']> (heap s)) s).
Proof. unfold set_object. by intros ->. Qed.

(** A step that only changes the live object [h] keeps the state
    well-formed. *)
Lemma wf_heap_frame s s' h o :
  rstate_wf s -> heap s !! h = Some o ->
  (forall k, k <> h -> heap s' !! k = heap s !! k) ->
  precious s' = precious s -> next_sexp s' = next_sexp s -> rstate_wf s'.
Proof.
  intros Hwf Hh Hk Hp Hn. pose proof (wf_heap_lt _ _ _ Hwf Hh).
  pose proof (wf_heap_not_nil _ _ _ Hwf Hh).
  split; rewrite ?Hn, ?Hp; try wf_from Hwf.
  - intros k Hk'. rewrite Hk by lia. wf_from Hwf. lia.
  - rewrite Hk by done. wf_from Hwf.
Qed.

Lemma wf_set_object s h o o' :
  rstate_wf s -> heap s !! h = Some o -> rstate_wf (set_heap (<[h := o']> (heap s)) s).
Proof.
  intros Hwf Hh. pose proof (wf_heap_lt _ _ _ Hwf Hh).
  pose proof (wf_heap_not_nil _ _ _ Hwf Hh).
  split; simpl; try wf_from Hwf.
  - intros k Hk. rewrite lookup_insert_ne; [by wf_from Hwf|lia].
  - rewrite lookup_insert_ne; [wf_from Hwf|done].
Qed.

(** A fresh object gets the next handle; everything the collection
    spares is unchanged. *)
Lemma alloc_object_spec p ex s :
  rstate_wf s ->
  exists s', alloc_object p ex s = Ok (next_sexp s) s' /\ rstate_wf s' /\
    heap s' !! next_sexp s = Some (mk_sexprec p false false R_NilValue) /\
    (forall k, k ∈ live_set ex s -> k <> next_sexp s -> heap s' !! k = heap s !! k) /\
    precious s' = precious s /\ cfg s' = cfg s /\
    next_sexp s' = (next_sexp s + 1)%N /\ region_calls s' = region_calls s.
Proof.
  intros Hwf. pose proof (wf_collect ex _ Hwf) as Hwf'.
  eexists. unfold alloc_object. rewrite next_collect. split; [reflexivity|].
  split_and!; simpl; autorewrite with cpp11_run; try done.
  - split; simpl; autorewrite with cpp11_run; try lia.
    + intros k Hk. rewrite lookup_insert_ne; [wf_from Hwf'|]; rewrite ?next_collect; lia.
    + intros k Hk. wf_from Hwf. lia.
    + rewrite lookup_insert_ne; [wf_from Hwf'|]. pose proof (wf_next_pos _ Hwf).
      unfold R_NilValue. lia.
    + wf_from Hwf.
  - by rewrite lookup_insert_eq.
  - intros k Hk Hne. rewrite lookup_insert_ne; [|done]. by apply collect_lookup_live.
Qed.

(** Protection registers a fresh token; the collection it may trigger
    spares the object being protected. *)
Lemma protect_sexp_spec h s :
  rstate_wf s -> h <> R_NilValue ->
  exists s', protect_sexp h s = Ok (next_sexp s) s' /\ rstate_wf s' /\
    precious s' = <[next_sexp s := h]> (precious s) /\
    heap s' = heap (collect [h] s) /\ cfg s' = cfg s /\
    precious s !! next_sexp s = None /\ region_calls s' = region_calls s /\
    next_sexp s' = (next_sexp s + 1)%N.
Proof.
  intros Hwf Hnil. pose proof (wf_collect [h] _ Hwf) as Hwf'.
  eexists. unfold protect_sexp. rewrite decide_False by done.
  rewrite next_collect. split; [reflexivity|].
  split_and!; simpl; autorewrite with cpp11_run; try done.
  - split; simpl; autorewrite with cpp11_run; try lia; try wf_from Hwf'.
    + intros k Hk. wf_from Hwf'. rewrite next_collect. lia.
    + intros k Hk. rewrite lookup_insert_ne; [wf_from Hwf|]; lia.
    + rewrite lookup_insert_ne; [wf_from Hwf|]. pose proof (wf_next_pos _ Hwf).
      unfold R_NilValue. lia.
  - wf_from Hwf. lia.
Qed.

Lemma release_protect_spec t k s :
  rstate_wf s -> precious s !! t = Some k ->
  release_protect t s = Ok tt (set_precious (delete t (precious s)) s) /\
  rstate_wf (set_precious (delete t (precious s)) s).
Proof.
  intros Hwf Ht. pose proof (wf_prec_not_nil _ _ _ Hwf Ht).
  unfold release_protect. rewrite decide_False by done. rewrite Ht.
  split; [done|]. split; simpl; try wf_from Hwf.
  - intros j Hj. rewrite lookup_delete_None. right. by wf_from Hwf.
  - rewrite lookup_delete_None. right. wf_from Hwf.
Qed.

Lemma release_protect_nil s : release_protect R_NilValue s = Ok tt s.
Proof. reflexivity. Qed.

(** The names attribute of an object is absent or points to an object. *)
Definition names_ok (s : rstate) (o : sexprec) : Prop :=
  sx_names o = R_NilValue \/ is_Some (heap s !! sx_names o).

Section KindFacts.
Context `{ElemKind T}.

Lemma ek_unpack_length p xs : ek_unpack p = Some xs -> payload_length p = length xs.
Proof. intros Hp. rewrite (ek_pack_unpack _ _ Hp). apply ek_length_pack. Qed.

Lemma ek_unpack_sexptype p xs : ek_unpack p = Some xs -> payload_type p = ek_sexptype.
Proof. intros Hp. rewrite (ek_pack_unpack _ _ Hp). apply ek_type_pack. Qed.

Lemma ek_sexptype_not_nil : ek_sexptype <> NILSXP.
Proof. rewrite <- (ek_type_pack []). by destruct (ek_pack []). Qed.

Lemma init_payload_kind n s :
  exists p xs, init_payload ek_sexptype n s = Some p /\ ek_unpack p = Some xs /\
               length xs = n.
Proof.
  pose proof ek_sexptype_not_nil as Hnn.
  destruct ek_sexptype eqn:Et; simpl; try done;
    match goal with
    | |- exists p _, Some ?q = Some p /\ _ =>
        exists q; destruct (ek_unpack_type q) as [xs Hxs]; [by rewrite Et|]
    end;
    exists xs; split_and!; try done;
    rewrite <- (ek_unpack_length _ _ Hxs); simpl; by rewrite length_replicate.
Qed.

Lemma elts_run o xs s : ek_unpack (sx_data o) = Some xs -> elts o s = Ok xs s.
Proof. unfold elts. by intros ->. Qed.

(** [Rf_allocVector] of the kind's type when the allocator can satisfy
    the request. *)
Lemma Rf_allocVector_spec n s :
  rstate_wf s -> alloc_fails n s = false ->
  exists s' o xs, Rf_allocVector ek_sexptype n s = Ok (next_sexp s) s' /\
    rstate_wf s' /\ heap s' !! next_sexp s = Some o /\
    ek_unpack (sx_data o) = Some xs /\ length xs = Z.to_nat n /\
    sx_altrep o = false /\ sx_names o = R_NilValue /\
    (forall k, k ∈ live_set [] s -> k <> next_sexp s -> heap s' !! k = heap s !! k) /\
    precious s' = precious s /\ cfg s' = cfg s /\ next_sexp s' = (next_sexp s + 1)%N.
Proof.
  intros Hwf Hf. unfold Rf_allocVector. rewrite Hf.
  destruct (init_payload_kind (Z.to_nat n) s) as (p & xs & -> & Hp & Hl).
  destruct (alloc_object_spec p [] s Hwf) as (s' & -> & Hwf' & Hh & Hk & Hpr & Hc & Hn & _).
  eexists s', _, xs. split_and!; eauto.
Qed.

(** [Rf_xlengthgets] on a protected, healthy vector of the kind: the
    result holds the first [n] elements padded with NA, its names (if
    any) are live, and the registry is untouched. *)
Lemma Rf_xlengthgets_spec s t x o xs n :
  rstate_wf s -> precious s !! t = Some x -> heap s !! x = Some o ->
  ek_unpack (sx_data o) = Some xs -> altrep_fails o = false -> names_ok s o ->
  (0 <= n)%Z -> alloc_fails n s = false ->
  exists h s' o', Rf_xlengthgets x n s = Ok h s' /\ rstate_wf s' /\
    precious s' = precious s /\ cfg s' = cfg s /\ heap s' !! h = Some o' /\
    ek_unpack (sx_data o') =
      Some (take (Z.to_nat n) xs ++ replicate (Z.to_nat n - length xs) ek_NA) /\
    altrep_fails o' = false /\ (sx_altrep o' = true -> sx_altrep o = true) /\
    names_ok s' o'.
Proof.
  intros Hwf Ht Hx Hxs Hfail Hnames Hn Halloc.
  pose proof (wf_heap_lt _ _ _ Hwf Hx) as Hxlt.
  unfold Rf_xlengthgets. erewrite run_bind_Ok by (by apply deref_run).
  destruct (Z.ltb_spec n 0) as [|_]; [lia|].
  rewrite (ek_unpack_length _ _ Hxs).
  destruct (decide (Z.of_nat (length xs) = n)) as [Heq|Hne].
  { exists x, s, o. split_and!; try done.
    rewrite Hxs. subst n. rewrite Nat2Z.id, take_ge, Nat.sub_diag, app_nil_r by lia.
    done. }
  rewrite (ek_unpack_sexptype _ _ Hxs).
  destruct (Rf_allocVector_spec n s Hwf Halloc)
    as (s1 & o1 & xs1 & Hrun1 & Hwf1 & Hh1 & Hxs1 & _ & _ & _ & Hk1 & Hp1 & Hc1 & Hn1).
  erewrite run_bind_Ok by exact Hrun1.
  assert (Hx1 : heap s1 !! x = Some o).
  { rewrite Hk1; [done| |lia]. by eapply live_set_precious. }
  erewrite run_bind_Ok by (by apply deref_run). rewrite Hfail.
  destruct (decide (sx_names o = R_NilValue)) as [Hnil|Hnn].
  - rewrite run_bind_Ok with (a := R_NilValue) (s' := s1) by done.
    rewrite (run_bind_Ok _ _ _ tt _ (set_object_run _ _ _ _ Hh1)).
    eexists _, _, _. split_and!; [reflexivity| |done|done| | | | |].
    + by eapply wf_set_object.
    + simpl. by rewrite lookup_insert_eq.
    + simpl. by rewrite (ek_pack_unpack _ _ Hxs), ek_resize_pack, ek_unpack_pack.
    + done.
    + done.
    + by left.
  - destruct Hnames as [|[nm Hnm]]; [done|].
    assert (Hnm1 : heap s1 !! sx_names o = Some nm).
    { rewrite Hk1; [done| |].
      - eapply live_set_names; [|exact Hx]. by eapply root_precious.
      - pose proof (wf_heap_lt _ _ _ Hwf Hnm). lia. }
    destruct (alloc_object_spec (resize_names (sx_data nm) (Z.to_nat n))
                [next_sexp s; sx_names o] s1 Hwf1)
      as (s2 & Hrun2 & Hwf2 & Hh2 & Hk2 & Hp2 & Hc2 & Hn2 & _).
    assert (Hh12 : heap s2 !! next_sexp s = Some o1).
    { rewrite Hk2; [done|apply live_set_extra; set_solver|lia]. }
    eexists _, _, _. rewrite bind_assoc.
    erewrite (run_bind_Ok (deref (sx_names o))) by (by apply deref_run).
    erewrite run_bind_Ok by exact Hrun2.
    rewrite (run_bind_Ok _ _ _ tt _ (set_object_run _ _ _ _ Hh12)).
    split_and!; [reflexivity| | | | | | | |].
    + by eapply wf_set_object.
    + simpl. by rewrite Hp2, Hp1.
    + by rewrite cfg_set_heap, Hc2, Hc1.
    + simpl. by rewrite lookup_insert_eq.
    + simpl. by rewrite (ek_pack_unpack _ _ Hxs), ek_resize_pack, ek_unpack_pack.
    + done.
    + done.
    + right. simpl. rewrite lookup_insert_ne by lia. rewrite Hh2. by eexists.
Qed.
End KindFacts.

Lemma names_ok_set_object s h o0 o o' :
  heap s !! h = Some o0 -> names_ok s o -> names_ok (set_heap (<[h := o']> (heap s)) s) o.
Proof.
  intros Hh [Hn|[nm Hnm]]; [by left|right]. simpl.
  destruct (decide (sx_names o = h)) as [->|Hne].
  - rewrite lookup_insert_eq. by eexists.
  - rewrite lookup_insert_ne by done. by eexists.
Qed.

(** ** Run lemmas for the accessors on a live object *)

Section AccessorRuns.
Context (s : rstate) (h : SEXP) (o : sexprec).
Hypothesis Hwf : rstate_wf s.
Hypothesis Hh : heap s !! h = Some o.

Lemma TYPEOF_run : TYPEOF h s = Ok (payload_type (sx_data o)) s.
Proof.
  unfold TYPEOF. rewrite decide_False by eauto with cpp11.
  by erewrite run_bind_Ok by (by apply deref_run).
Qed.

Lemma ALTREP_run : ALTREP h s = Ok (sx_altrep o) s.
Proof.
  unfold ALTREP. rewrite decide_False by eauto with cpp11.
  by erewrite run_bind_Ok by (by apply deref_run).
Qed.

Lemma Rf_xlength_run : Rf_xlength h s = Ok (Z.of_nat (payload_length (sx_data o))) s.
Proof.
  unfold Rf_xlength. rewrite decide_False by eauto with cpp11.
  by erewrite run_bind_Ok by (by apply deref_run).
Qed.

Lemma DATAPTR_run `{ElemKind T} (xs : list T) :
  ek_unpack (sx_data o) = Some xs -> altrep_fails o = false ->
  DATAPTR (T := T) h s = Ok (Some (h, 0%Z)) s.
Proof.
  intros Hxs Hf. unfold DATAPTR. erewrite run_bind_Ok by (by apply deref_run).
  rewrite Hf. by erewrite run_bind_Ok by (by apply elts_run).
Qed.

(** The object after writing [v] at [i] of its elements [xs]. *)
Definition stored `{ElemKind T} (xs : list T) (i : R_xlen_t) (v : T) : sexprec :=
  mk_sexprec (ek_pack (<[Z.to_nat i := v]> xs)) (sx_altrep o) (sx_altrep_fails o) (sx_names o).

Lemma zupdate_in {A} (xs : list A) i v :
  (0 <= i < Z.of_nat (length xs))%Z -> zupdate xs i v = Some (<[Z.to_nat i := v]> xs).
Proof.
  intros Hi. unfold zupdate. by rewrite (proj2 (Z.ltb_ge _ _)), (proj2 (Z.leb_gt _ _)) by lia.
Qed.

Lemma SET_ELT_run `{ElemKind T} (xs : list T) i v :
  ek_unpack (sx_data o) = Some xs -> altrep_fails o = false ->
  (0 <= i < Z.of_nat (length xs))%Z ->
  SET_ELT h i v s = Ok tt (set_heap (<[h := stored xs i v]> (heap s)) s).
Proof.
  intros Hxs Hf Hi. unfold SET_ELT. erewrite run_bind_Ok by (by apply deref_run).
  rewrite Hf. erewrite run_bind_Ok by (by apply elts_run).
  rewrite zupdate_in by done. exact (set_object_run _ _ _ _ Hh).
Qed.

Lemma ptr_write_run `{ElemKind T} (xs : list T) off i v :
  ek_unpack (sx_data o) = Some xs -> (0 <= off + i < Z.of_nat (length xs))%Z ->
  ptr_write (Some (h, off)) i v s =
    Ok tt (set_heap (<[h := stored xs (off + i)%Z v]> (heap s)) s).
Proof.
  intros Hxs Hi. unfold ptr_write. erewrite run_bind_Ok by (by apply deref_run).
  rewrite Hxs, zupdate_in by done. exact (set_object_run _ _ _ _ Hh).
Qed.

Lemma zlookup_Some {A} (xs : list A) i x :
  (0 <= i)%Z -> xs !! Z.to_nat i = Some x -> zlookup xs i = Some x.
Proof. intros Hi Hx. unfold zlookup. by rewrite (proj2 (Z.ltb_ge _ _)) by lia. Qed.

Lemma ptr_read_run `{ElemKind T} (xs : list T) off i x :
  ek_unpack (sx_data o) = Some xs -> (0 <= off + i)%Z -> xs !! Z.to_nat (off + i)%Z = Some x ->
  ptr_read (Some (h, off)) i s = Ok x s.
Proof.
  intros Hxs Hi Hx. unfold ptr_read. erewrite run_bind_Ok by (by apply deref_run).
  by rewrite Hxs, (zlookup_Some _ _ _ Hi Hx).
Qed.

Lemma ELT_run `{ElemKind T} (xs : list T) i x :
  ek_unpack (sx_data o) = Some xs -> altrep_fails o = false ->
  (0 <= i)%Z -> xs !! Z.to_nat i = Some x ->
  ELT h i s = Ok x (tick_elt s).
Proof.
  intros Hxs Hf Hi Hx. unfold ELT. erewrite run_bind_Ok by (by apply deref_run).
  rewrite Hf. erewrite run_bind_Ok by (by apply elts_run).
  unfold modify. cbn [bind]. by rewrite (zlookup_Some _ _ _ Hi Hx).
Qed.
Lemma deref_freed s' h' : heap s' !! h' = None ->
  deref h' s' = Undef "access to a collected or invalid SEXP".
Proof. unfold deref. by intros ->. Qed.

(** A region read whose ALTREP method signals an R error. *)
Lemma GET_REGION_error `{ElemKind T} i n :
  altrep_fails o = true -> GET_REGION (T := T) h i n s = Jump s.
Proof. intros Hf. unfold GET_REGION. erewrite run_bind_Ok by (by apply deref_run). by rewrite Hf. Qed.

(** Stores one past the end of the data. *)
Lemma zupdate_out {A} (xs : list A) v : zupdate xs (Z.of_nat (length xs)) v = None.
Proof. unfold zupdate. by rewrite Z.leb_refl, orb_true_r. Qed.

Lemma SET_ELT_end `{ElemKind T} (xs : list T) v :
  ek_unpack (sx_data o) = Some xs -> altrep_fails o = false ->
  SET_ELT h (Z.of_nat (length xs)) v s = Undef "element write out of bounds".
Proof.
  intros Hxs Hf. unfold SET_ELT. erewrite run_bind_Ok by (by apply deref_run).
  rewrite Hf. erewrite run_bind_Ok by (by apply elts_run). by rewrite zupdate_out.
Qed.

Lemma ptr_write_end `{ElemKind T} (xs : list T) v :
  ek_unpack (sx_data o) = Some xs ->
  ptr_write (Some (h, 0%Z)) (Z.of_nat (length xs)) v s = Undef "write out of bounds".
Proof.
  intros Hxs. unfold ptr_write. erewrite run_bind_Ok by (by apply deref_run).
  by rewrite Hxs, Z.add_0_l, zupdate_out.
Qed.

(** [Rf_xlengthgets] to a new length the allocator refuses: an R error,
    nothing changed. *)
Lemma Rf_xlengthgets_fails n :
  (0 <= n)%Z -> Z.of_nat (payload_length (sx_data o)) <> n -> alloc_fails n s = true ->
  Rf_xlengthgets h n s = Jump s.
Proof.
  intros Hn Hl Hf. unfold Rf_xlengthgets. erewrite run_bind_Ok by (by apply deref_run).
  rewrite (proj2 (Z.ltb_ge _ _)) by lia. rewrite decide_False by done.
  apply run_bind_Jump. unfold Rf_allocVector. by rewrite Hf.
Qed.

Lemma GET_REGION_run `{ElemKind T} (xs : list T) i n :
  ek_unpack (sx_data o) = Some xs -> altrep_fails o = false ->
  GET_REGION h i n s = Ok (take (Z.to_nat n) (drop (Z.to_nat i) xs)) (tick_region s).
Proof.
  intros Hxs Hf. unfold GET_REGION. erewrite run_bind_Ok by (by apply deref_run).
  rewrite Hf. by erewrite run_bind_Ok by (by apply elts_run).
Qed.
End AccessorRuns.

(** The state a successful allocation leaves: a collection sparing
    nothing but the roots, then the fresh object. *)
(** A refused allocation is an R error. *)
Lemma Rf_allocVector_fails t n s : alloc_fails n s = true -> Rf_allocVector t n s = Jump s.
Proof. intros Hf. unfold Rf_allocVector. by rewrite Hf. Qed.

Lemma Rf_allocVector_run t n s p :
  alloc_fails n s = false -> init_payload t (Z.to_nat n) s = Some p ->
  Rf_allocVector t n s = Ok (next_sexp s)
    (set_next (next_sexp s + 1)
       (set_heap (<[next_sexp s := mk_sexprec p false false R_NilValue]> (heap (collect [] s)))
          (collect [] s))).
Proof. intros Hf Hp. unfold Rf_allocVector, alloc_object. rewrite Hf, Hp. by rewrite next_collect. Qed.

Lemma TYPEOF_live s h o :
  h <> R_NilValue -> heap s !! h = Some o -> TYPEOF h s = Ok (payload_type (sx_data o)) s.
Proof.
  intros Hnil Hh. unfold TYPEOF. rewrite decide_False by done.
  by erewrite run_bind_Ok by (by apply deref_run).
Qed.

(** [Rf_setAttrib(x, R_NamesSymbol, nm)]: a collection sparing [x] and
    [nm], then [x] gets the names. *)
Lemma Rf_setAttrib_names_run s x nm o :
  heap s !! x = Some o ->
  Rf_setAttrib_names x nm s =
    Ok tt (set_heap (<[x := mk_sexprec (sx_data o) (sx_altrep o) (sx_altrep_fails o) nm]>
                      (heap (collect [x; nm] s))) (collect [x; nm] s)).
Proof.
  intros Hx. assert (Hx' : heap (collect [x; nm] s) !! x = Some o).
  { rewrite collect_keeps_extra; [done|set_solver]. }
  unfold Rf_setAttrib_names, modify. cbn [bind].
  erewrite run_bind_Ok by (by apply deref_run). exact (set_object_run _ _ _ _ Hx').
Qed.

Lemma Rf_getAttrib_names_run s x o :
  heap s !! x = Some o -> Rf_getAttrib_names x s = Ok (sx_names o) s.
Proof. intros Hx. unfold Rf_getAttrib_names. by erewrite run_bind_Ok by (by apply deref_run). Qed.

(** [Rf_mkCharCE]: a collection; the CHARSXP is the string itself. *)
Lemma Rf_mkCharCE_run s str : Rf_mkCharCE str s = Ok str (collect [] s).
Proof. done. Qed.

(** [SET_STRING_ELT] in range on a live character vector. *)
Lemma SET_STRING_ELT_run s x o ns i v :
  heap s !! x = Some o -> sx_data o = StrData ns -> (0 <= i < Z.of_nat (length ns))%Z ->
  SET_STRING_ELT x i v s =
    Ok tt (set_heap (<[x := mk_sexprec (StrData (<[Z.to_nat i := v]> ns)) (sx_altrep o)
                                         (sx_altrep_fails o) (sx_names o)]> (heap s)) s).
Proof.
  intros Ho Hd Hi. unfold SET_STRING_ELT. rewrite (run_bind_Ok _ _ _ _ _ (deref_run _ _ _ Ho)).
  rewrite Hd, zupdate_in by done. exact (set_object_run _ _ _ _ Ho).
Qed.

(** ** Filling an object element by element

    The loops of the literal-list constructors write [xs] from index [i]
    through a writer [wr] (a raw-pointer store or [SET_*_ELT]) that,
    in range, stores one element of the live object [h]. *)

Section FillLoop.
Context `{ElemKind T} (wr : R_xlen_t -> T -> RM unit) (h : SEXP).
Hypothesis Hwr : forall s o (ys : list T) i v,
  heap s !! h = Some o -> ek_unpack (sx_data o) = Some ys -> altrep_fails o = false ->
  (0 <= i < Z.of_nat (length ys))%Z ->
  wr i v s = Ok tt (set_heap (<[h := stored o ys i v]> (heap s)) s).

Fixpoint fill_from (i : R_xlen_t) (xs : list T) : RM unit :=
  match xs with
  | [] => ret tt
  | x :: xs' => wr i x;; fill_from (i + 1)%Z xs'
  end.

Lemma fill_from_spec xs : forall i ys s o,
  heap s !! h = Some o -> ek_unpack (sx_data o) = Some ys -> altrep_fails o = false ->
  (0 <= i)%Z -> Z.to_nat i + length xs <= length ys ->
  exists s', fill_from i xs s = Ok tt s' /\
    heap s' !! h = Some (mk_sexprec
      (ek_pack (take (Z.to_nat i) ys ++ xs ++ drop (Z.to_nat i + length xs) ys))
      (sx_altrep o) (sx_altrep_fails o) (sx_names o)) /\
    (forall k, k <> h -> heap s' !! k = heap s !! k) /\
    precious s' = precious s /\ next_sexp s' = next_sexp s /\ cfg s' = cfg s.
Proof.
  induction xs as [|x xs IH]; intros i ys s o Hh Hys Hf Hi Hlen.
  - exists s. split_and!; try done. rewrite Hh. f_equal.
    destruct o as [d a af nm]; simpl in *.
    rewrite Nat.add_0_r, take_drop. by rewrite <- (ek_pack_unpack _ _ Hys).
  - simpl in Hlen.
    destruct (IH (i + 1)%Z (<[Z.to_nat i := x]> ys) (set_heap (<[h := stored o ys i x]> (heap s)) s) (stored o ys i x))
      as (s' & Hrun & Hh' & Hk & Hp & Hn & Hc);
      [simpl; by rewrite lookup_insert_eq|apply ek_unpack_pack|done|lia|
       rewrite length_insert; lia|].
    exists s'. simpl. rewrite (run_bind_Ok _ _ _ _ _ (Hwr s o ys i x Hh Hys Hf ltac:(lia))).
    split_and!; try done.
    + rewrite Hh'. simpl. do 2 f_equal.
      replace (Z.to_nat (i + 1)) with (S (Z.to_nat i)) by lia.
      by rewrite splice_insert by lia.
    + intros k Hne. rewrite Hk by done. simpl. by rewrite lookup_insert_ne.
Qed.
End FillLoop.

Lemma initial_rstate_wf m b : rstate_wf (initial_rstate m b).
Proof. split; simpl; try done; lia. Qed.
