(* ===== verification/Vector.v ===== *)
(** * The vector template's objects: [cpp11::vector<T>] and [writable::vector<T>]

    The fields of the two classes ([vector.hpp]), the slot proxy, the
    [named_arg], and the method monad: methods of a writable vector run
    in [VM], the runtime state paired with the object itself ([this]),
    so that an exception leaves the object observable in the state it
    was in.  The operations, written once over an element kind [T]
    ([ElemKind]) and instantiated by [Doubles] and [Logicals], are in
    [Access] (reading), [Writable] (growth) and [Named] (the named-list
    constructor). *)

From S2P Require Import Prelude Runtime.

Abbreviation ptr := (option (SEXP * R_xlen_t)).

Definition ptr_add (p : ptr) (i : R_xlen_t) : ptr :=
  match p with None => None | Some (h, off) => Some (h, (off + i)%Z) end.

(** The fields of [cpp11::vector<T>] ([vector.hpp]). *)
Record vector := mk_vector {
  data_ : SEXP;
  protect_ : SEXP;
  is_altrep_ : bool;
  data_p_ : ptr;
  length_ : R_xlen_t
}.

(** [writable::vector<T>] adds its allocated size. *)
Record wvector := mk_wvector {
  wbase :> vector;
  capacity_ : R_xlen_t
}.

Definition w_set_data (d : SEXP) (w : wvector) : wvector :=
  mk_wvector (mk_vector d (protect_ w) (is_altrep_ w) (data_p_ w) (length_ w)) (capacity_ w).
Definition w_set_protect (t : SEXP) (w : wvector) : wvector :=
  mk_wvector (mk_vector (data_ w) t (is_altrep_ w) (data_p_ w) (length_ w)) (capacity_ w).
Definition w_set_ptr (p : ptr) (w : wvector) : wvector :=
  mk_wvector (mk_vector (data_ w) (protect_ w) (is_altrep_ w) p (length_ w)) (capacity_ w).
Definition w_set_length (n : R_xlen_t) (w : wvector) : wvector :=
  mk_wvector (mk_vector (data_ w) (protect_ w) (is_altrep_ w) (data_p_ w) n) (capacity_ w).
Definition w_set_capacity (c : R_xlen_t) (w : wvector) : wvector :=
  mk_wvector (wbase w) c.

(** The default-constructed writable vector: no data, nothing protected. *)
Definition empty_wvector : wvector :=
  mk_wvector (mk_vector R_NilValue R_NilValue false None 0%Z) 0%Z.

(** Methods of a writable vector. *)
Abbreviation VM := (M (rstate * wvector) exn).

Definition rt {A} (m : RM A) : VM A := focus fst (fun s st => (s, st.2)) m.
Definition this : VM wvector := fun st => Ok st.2 st.
Definition set_this (w : wvector) : VM unit := fun st => Ok tt (st.1, w).

(** A constructor body runs on the partly constructed object [w]; the
    constructed object is the result. *)
Definition construct (w : wvector) (body : VM unit) : RM wvector :=
  fun s =>
    match body (s, w) with
    | Ok _ (s', w') => Ok w' s'
    | Throw e (s', _) => Throw e s'
    | Jump (s', _) => Jump s'
    | Undef m => Undef m
    | Diverge => Diverge
    end.

(** [named_arg] ([named_arg.hpp]): a name and a value the argument keeps
    protected. *)
Record named_arg := mk_named_arg { na_name : string; na_value : SEXP }.

(** The write-through slot reference ([vector.hpp]). *)
Record proxy := mk_proxy {
  px_data_ : SEXP;
  px_index_ : R_xlen_t;
  px_p_ : ptr;
  px_is_altrep_ : bool
}.

Section Observation.
Context `{ElemKind T}.

(** The elements a vector shows in a runtime state. *)
Definition contents (s : rstate) (v : vector) : option (list T) :=
  if decide (data_ v = R_NilValue) then Some []
  else o ← heap s !! data_ v;
       xs ← ek_unpack (sx_data o);
       Some (take (Z.to_nat (length_ v)) xs).
End Observation.
