(* ===== verification/Access.v ===== *)
(** * Reading a vector: [vector(SEXP)], [operator[]] and [at]

    The read-only operations of [cpp11::vector<T>], over an element
    kind [T].

    [readable s v o xs]: the vector's data is the live object [o] of the
    kind with elements [xs], [length_] is within [xs], the direct pointer
    is the start of the data when the vector is not ALTREP, and the
    object's ALTREP methods do not fail.  In range, [at] and [operator[]]
    both return the element (ALTREP reads count one [ELT] call); out of
    range [at] throws [std::out_of_range] and changes nothing. *)

From S2P Require Import Prelude Runtime RuntimeFacts Vector.

Section Reading.
Context `{ElemKind T}.

(** [valid_type]: the constructor's kind check. *)
Definition valid_type (data : SEXP) : RM SEXP :=
  t <- TYPEOF data;;
  if decide (t = ek_sexptype) then ret data
  else throw (type_error ek_sexptype t).

(** [get_p]: the direct pointer, [nullptr] for an ALTREP vector. *)
Definition get_p (is_altrep : bool) (data : SEXP) : RM ptr :=
  if is_altrep then ret None else DATAPTR data.

(** [vector(SEXP)]: the representation is classified once. *)
Definition vector_from (data : SEXP) : RM vector :=
  d <- valid_type data;;
  alt <- ALTREP d;;
  p <- get_p alt d;;
  n <- Rf_xlength d;;
  ret (mk_vector d R_NilValue alt p n).

(** [operator[]]: unchecked. *)
Definition subscript (v : vector) (pos : R_xlen_t) : RM T :=
  if is_altrep_ v then ELT (data_ v) pos else ptr_read (data_p_ v) pos.

(** [at] (a keyword of Rocq, hence [at_]): checked; [what] is the message
    of [std::out_of_range]. *)
Definition at_ (what : string) (v : vector) (pos : R_xlen_t) : RM T :=
  if (pos <? 0)%Z || (length_ v <=? pos)%Z then throw (out_of_range what)
  else if is_altrep_ v then ELT (data_ v) pos else ptr_read (data_p_ v) pos.

End Reading.

Record readable `{ElemKind T} (s : rstate) (v : vector) (o : sexprec) (xs : list T)
  : Prop := {
  rd_obj : heap s !! data_ v = Some o;
  rd_elts : ek_unpack (sx_data o) = Some xs;
  rd_len : (0 <= length_ v <= Z.of_nat (length xs))%Z;
  rd_ptr : is_altrep_ v = false -> data_p_ v = Some (data_ v, 0%Z);
  rd_ok : altrep_fails o = false
}.

(** The state after a read: ALTREP reads go through [ELT]. *)
Definition after_read (alt : bool) (s : rstate) : rstate :=
  if alt then tick_elt s else s.

(** A read changes no object, token or allocation setting. *)
Lemma heap_after_read b s : heap (after_read b s) = heap s.
Proof. by destruct b. Qed.
Lemma precious_after_read b s : precious (after_read b s) = precious s.
Proof. by destruct b. Qed.
Lemma cfg_after_read b s : cfg (after_read b s) = cfg s.
Proof. by destruct b. Qed.
Lemma wf_after_read b s : rstate_wf s -> rstate_wf (after_read b s).
Proof. destruct b; [|done]. intros []. by split. Qed.

#[export] Hint Rewrite heap_after_read precious_after_read cfg_after_read : cpp11_run.
#[export] Hint Resolve wf_after_read : cpp11.

Section Access.
Context `{ElemKind T}.

(** The read both [operator[]] and [at] perform once the index is
    known to be in range. *)
Lemma read_elt_spec s (v : vector) o (xs : list T) pos :
  readable s v o xs -> (0 <= pos < length_ v)%Z ->
  exists x, xs !! Z.to_nat pos = Some x /\
    (if is_altrep_ v then ELT (data_ v) pos else ptr_read (data_p_ v) pos) s =
    Ok x (after_read (is_altrep_ v) s).
Proof.
  intros Hr Hp. pose proof (rd_len _ _ _ _ Hr). pose proof (rd_obj _ _ _ _ Hr) as Ho.
  destruct (lookup_lt_is_Some_2 xs (Z.to_nat pos)) as [x Hx]; [lia|].
  exists x. split; [done|]. unfold after_read.
  destruct (is_altrep_ v) eqn:Ha.
  - apply (ELT_run _ _ _ Ho xs); [apply Hr|apply Hr|lia|done].
  - rewrite (rd_ptr _ _ _ _ Hr Ha). apply (ptr_read_run _ _ _ Ho xs); [apply Hr|lia|done].
Qed.

(** C29: In range, [at] and [operator[]] are the same computation. *)
Theorem at_subscript_agree what (v : vector) pos :
  (0 <= pos < length_ v)%Z -> at_ what v pos = subscript (T := T) v pos.
Proof.
  intros Hp. unfold at_, subscript.
  by rewrite (proj2 (Z.ltb_ge _ _)), (proj2 (Z.leb_gt _ _)) by lia.
Qed.

(** C19: In range, [at] returns the element at [pos], through either
    representation. *)
Theorem at_spec what s (v : vector) o (xs : list T) pos :
  readable s v o xs -> (0 <= pos < length_ v)%Z ->
  exists x, xs !! Z.to_nat pos = Some x /\
    at_ what v pos s = Ok x (after_read (is_altrep_ v) s).
Proof.
  intros Hr Hp. unfold at_.
  rewrite (proj2 (Z.ltb_ge _ _)), (proj2 (Z.leb_gt _ _)) by lia.
  exact (read_elt_spec s v o xs pos Hr Hp).
Qed.

(** C20: Out of range (including every index of an empty vector) [at] throws
    [std::out_of_range] and leaves the state as it was. *)
Theorem at_out_of_range what s (v : vector) pos :
  (pos < 0 \/ length_ v <= pos)%Z -> at_ (T := T) what v pos s = Throw (out_of_range what) s.
Proof.
  intros Hp. unfold at_.
  destruct (Z.ltb_spec pos 0), (Z.leb_spec (length_ v) pos); simpl; try done; lia.
Qed.

(** [vector(SEXP)] on an object of the kind (shared by the constructors). *)
Lemma vector_from_run s d o (xs : list T) :
  rstate_wf s -> heap s !! d = Some o -> ek_unpack (sx_data o) = Some xs ->
  altrep_fails o = false ->
  vector_from (T := T) d s =
    Ok (mk_vector d R_NilValue (sx_altrep o)
          (if sx_altrep o then None else Some (d, 0%Z)) (Z.of_nat (length xs))) s.
Proof.
  intros Hwf Hh Hxs Hf. unfold vector_from, valid_type.
  rewrite bind_assoc, (run_bind_Ok _ _ _ _ _ (TYPEOF_run _ _ _ Hwf Hh)).
  rewrite (ek_unpack_sexptype _ _ Hxs), decide_True by done. cbn [bind ret].
  rewrite (run_bind_Ok _ _ _ _ _ (ALTREP_run _ _ _ Hwf Hh)).
  unfold get_p. destruct (sx_altrep o) eqn:Ha.
  - cbn [bind ret]. rewrite (run_bind_Ok _ _ _ _ _ (Rf_xlength_run _ _ _ Hwf Hh)).
    by rewrite (ek_unpack_length _ _ Hxs).
  - rewrite (run_bind_Ok _ _ _ _ _ (DATAPTR_run _ _ _ Hh xs Hxs Hf)).
    rewrite (run_bind_Ok _ _ _ _ _ (Rf_xlength_run _ _ _ Hwf Hh)).
    by rewrite (ek_unpack_length _ _ Hxs).
Qed.

(** C30: [vector(SEXP)] on an object of the kind: the representation is
    read once, the pointer is taken when it is not ALTREP, and nothing
    is protected. *)
Theorem vector_from_spec s d o (xs : list T) :
  rstate_wf s -> heap s !! d = Some o -> ek_unpack (sx_data o) = Some xs ->
  altrep_fails o = false ->
  vector_from (T := T) d s =
    Ok (mk_vector d R_NilValue (sx_altrep o)
          (if sx_altrep o then None else Some (d, 0%Z)) (Z.of_nat (length xs))) s.
Proof. intros; eapply vector_from_run; eassumption. Qed.

(** [valid_type] throws before any other runtime call when the type is
    not the kind's. *)
Lemma vector_from_type_error s d t :
  TYPEOF d s = Ok t s -> t <> ek_sexptype ->
  vector_from (T := T) d s = Throw (type_error ek_sexptype t) s.
Proof.
  intros Ht Hne. unfold vector_from, valid_type.
  rewrite bind_assoc, (run_bind_Ok _ _ _ _ _ Ht). by rewrite decide_False.
Qed.

(** C21: [vector(SEXP)] accepts only the kind: on [R_NilValue] it throws
    [type_error] with NILSXP, on a live object of another type it throws
    [type_error] with that type, in both cases with the state
    unchanged. *)
Theorem vector_from_type_check s d :
  rstate_wf s ->
  (d = R_NilValue -> vector_from (T := T) d s = Throw (type_error ek_sexptype NILSXP) s) /\
  (forall o, heap s !! d = Some o -> payload_type (sx_data o) <> ek_sexptype ->
     vector_from (T := T) d s = Throw (type_error ek_sexptype (payload_type (sx_data o))) s).
Proof.
  intros Hwf. split.
  - intros ->. apply vector_from_type_error; [unfold TYPEOF; by rewrite decide_True|].
    intros Heq. by apply ek_sexptype_not_nil.
  - intros o Ho Hne. apply vector_from_type_error; [exact (TYPEOF_run _ _ _ Hwf Ho)|done].
Qed.

End Access.
