(* ===== verification/Writable.v ===== *)
(** * The writable vector: [reserve], [push_back] and their invariant

    The growth operations of [writable::vector<T>] (the destructor too),
    then the invariant and their theorems.

    The invariant [wv_ok] of a [writable::vector<T>] in a runtime state:
    either the vector has no data ([R_NilValue], capacity 0, nothing
    protected), or its data is a live object of the kind whose length is
    [capacity_], registered under [protect_] in the precious list, with a
    direct pointer when the vector is not ALTREP; and
    [0 <= length_ <= capacity_ <= R_XLEN_T_MAX].  The theorems show that
    [reserve] and [push_back] preserve it, what they compute, and what
    they do to the registry, and that an element pushed is read back by
    [at] at the last index; and what happens off the contract: a refused
    growth, and a [reserve] below the length ([reserve_core] covers every
    [0 <= n]). *)

From S2P Require Import Prelude Runtime RuntimeFacts Vector Access.

Section Growth.
Context `{ElemKind T}.

(** [reserve]: allocate or resize, protect the new handle, then release
    the old token, refresh the pointer and the capacity. *)
Definition reserve (new_capacity : R_xlen_t) : VM unit :=
  w <- this;;
  d <- rt (if decide (data_ w = R_NilValue)
           then safe (Rf_allocVector ek_sexptype new_capacity)
           else safe (Rf_xlengthgets (data_ w) new_capacity));;
  set_this (w_set_data d w);;
  tok <- rt (protect_sexp d);;
  set_this (w_set_protect tok (w_set_data d w));;
  rt (release_protect (protect_ w));;
  p <- rt (DATAPTR d);;
  set_this (w_set_capacity new_capacity
              (w_set_ptr p (w_set_protect tok (w_set_data d w)))).

(** [capacity_ *= 2] on a signed 64-bit [R_xlen_t]. *)
Definition xlen_mul2 (c : R_xlen_t) : VM R_xlen_t :=
  if (PTRDIFF_MAX <? 2 * c)%Z then undef "signed overflow in capacity_ *= 2"
  else ret (2 * c)%Z.

(** [while (length_ >= capacity_) reserve(capacity_ == 0 ? 1 : capacity_ *= 2);] *)
Fixpoint grow (fuel : nat) : VM unit :=
  match fuel with
  | O => diverge
  | S fuel' =>
      w <- this;;
      if (length_ w <? capacity_ w)%Z then ret tt
      else
        nc <- (if decide (capacity_ w = 0%Z) then ret 1%Z
               else c2 <- xlen_mul2 (capacity_ w);;
                    set_this (w_set_capacity c2 w);;
                    ret c2);;
        reserve nc;;
        grow fuel'
  end.

(** The loop runs at most once per bit of [R_xlen_t]. *)
Definition push_back_fuel : nat := 65.

(** [push_back]. *)
Definition push_back (value : T) : VM unit :=
  grow push_back_fuel;;
  w <- this;;
  (if is_altrep_ w then rt (SET_ELT (data_ w) (length_ w) value)
   else rt (ptr_write (data_p_ w) (length_ w) value));;
  w' <- this;;
  set_this (w_set_length (length_ w' + 1)%Z w').

(** The destructor releases the object's token. *)
Definition destroy : VM unit :=
  w <- this;; rt (release_protect (protect_ w)).
End Growth.


Record wv_live `{ElemKind T} (s : rstate) (w : wvector) (o : sexprec) (xs : list T)
  : Prop := {
  wl_obj : heap s !! data_ w = Some o;
  wl_elts : ek_unpack (sx_data o) = Some xs;
  wl_cap : Z.of_nat (length xs) = capacity_ w;
  wl_prot : precious s !! protect_ w = Some (data_ w);
  wl_names : names_ok s o;
  wl_altrep : sx_altrep o = true -> is_altrep_ w = true;
  wl_ptr : is_altrep_ w = false -> data_p_ w = Some (data_ w, 0%Z)
}.

Definition wv_ok `{ElemKind T} (s : rstate) (w : wvector) : Prop :=
  rstate_wf s /\ (0 <= length_ w <= capacity_ w)%Z /\ (capacity_ w <= R_XLEN_T_MAX)%Z /\
  ((data_ w = R_NilValue /\ capacity_ w = 0%Z /\ protect_ w = R_NilValue) \/
   exists o (xs : list T), wv_live s w o xs).

(** The data's ALTREP methods (if any) do not signal errors. *)
Definition healthy (s : rstate) (w : wvector) : Prop :=
  forall o, heap s !! data_ w = Some o -> altrep_fails o = false.

(** ** Running methods *)

(** Doubling a length R can allocate cannot overflow [R_xlen_t]. *)
Lemma xlen_mul2_no_overflow c : (c <= R_XLEN_T_MAX)%Z -> (PTRDIFF_MAX <? 2 * c)%Z = false.
Proof. intros Hc. apply Z.ltb_ge. pose proof R_XLEN_T_MAX_small. lia. Qed.

Lemma rt_Ok {A} (m : RM A) s w a s' : m s = Ok a s' -> rt m (s, w) = Ok a (s', w).
Proof. unfold rt, focus. simpl. by intros ->. Qed.

Lemma bind_rt_Ok {A B} (m : RM A) (k : A -> VM B) s w a s' :
  m s = Ok a s' -> bind (rt m) k (s, w) = k a (s', w).
Proof. intros Hm. apply run_bind_Ok. by apply rt_Ok. Qed.

Lemma bind_this {B} (k : wvector -> VM B) s w : bind this k (s, w) = k w (s, w).
Proof. reflexivity. Qed.

Lemma bind_set_this {B} (k : unit -> VM B) s w w' :
  bind (set_this w') k (s, w) = k tt (s, w').
Proof. reflexivity. Qed.

Lemma run_set_this s w w' : set_this w' (s, w) = Ok tt (s, w').
Proof. reflexivity. Qed.

#[export] Hint Rewrite @bind_this @bind_set_this run_set_this : cpp11_run.

Lemma construct_Ok (w : wvector) (body : VM unit) s s' w' :
  body (s, w) = Ok tt (s', w') -> construct w body s = Ok w' s'.
Proof. unfold construct. by intros ->. Qed.

Lemma safe_Ok {A} (m : RM A) s a s' : m s = Ok a s' -> safe m s = Ok a s'.
Proof. unfold safe, jump_to. by intros ->. Qed.

Lemma unwind_protect_Ok {A} (m : RM A) s a s' : m s = Ok a s' -> unwind_protect m s = Ok a s'.
Proof. unfold unwind_protect, jump_to. by intros ->. Qed.

Lemma safe_Jump {A} (m : RM A) s s' : m s = Jump s' -> safe m s = Throw unwind_exception s'.
Proof. unfold safe, jump_to. by intros ->. Qed.

Lemma rt_Throw {A} (m : RM A) s w e s' : m s = Throw e s' -> rt m (s, w) = Throw e (s', w).
Proof. unfold rt, focus. simpl. by intros ->. Qed.

Lemma rt_Jump {A} (m : RM A) s w s' : m s = Jump s' -> rt m (s, w) = Jump (s', w).
Proof. unfold rt, focus. simpl. by intros ->. Qed.

Lemma rt_Undef {A} (m : RM A) s w why : m s = Undef why -> rt m (s, w) = Undef why.
Proof. unfold rt, focus. simpl. by intros ->. Qed.

(** The first [m] elements survive a resize to at least [m]. *)
Lemma take_resize {A} (xs : list A) (pad : A) (m n : nat) :
  m <= n -> m <= length xs ->
  take m (take n xs ++ replicate (n - length xs) pad) = take m xs.
Proof.
  intros Hmn Hmx. rewrite take_app_le by (rewrite length_take; lia).
  by rewrite take_take, Nat.min_l by lia.
Qed.

Lemma length_resize {A} (xs : list A) (pad : A) (n : nat) :
  length (take n xs ++ replicate (n - length xs) pad) = n.
Proof. rewrite length_app, length_take, length_replicate. lia. Qed.

Section Reserve.
Context `{ElemKind T}.

(** After the allocation or resize step, [reserve] protects the new
    handle, releases the old token and refreshes the pointer. *)
Lemma reserve_run s (w : wvector) n h s1 o' (ys : list T) :
  (if decide (data_ w = R_NilValue)
   then safe (Rf_allocVector ek_sexptype n)
   else safe (Rf_xlengthgets (data_ w) n)) s = Ok h s1 ->
  rstate_wf s1 -> heap s1 !! h = Some o' -> ek_unpack (sx_data o') = Some ys ->
  altrep_fails o' = false -> names_ok s1 o' ->
  (protect_ w = R_NilValue \/ precious s1 !! protect_ w = Some (data_ w)) ->
  exists s3, reserve n (s, w) =
    Ok tt (s3, w_set_capacity n (w_set_ptr (Some (h, 0%Z))
               (w_set_protect (next_sexp s1) (w_set_data h w)))) /\
    rstate_wf s3 /\ heap s3 !! h = Some o' /\ names_ok s3 o' /\
    precious s3 = <[next_sexp s1 := h]> (delete (protect_ w) (precious s1)) /\
    precious s1 !! next_sexp s1 = None /\ cfg s3 = cfg s1.
Proof.
  intros Hhead Hwf1 Hh1 Hys Hfail Hnm Hprev.
  pose proof (wf_heap_not_nil _ _ _ Hwf1 Hh1) as Hhnil.
  destruct (protect_sexp_spec h s1 Hwf1 Hhnil)
    as (s2 & Hrun2 & Hwf2 & Hp2 & Hheap2 & Hc2 & Hfresh & _).
  assert (Hh2 : heap s2 !! h = Some o').
  { rewrite Hheap2, collect_keeps_extra; [done|set_solver]. }
  assert (Hnm2 : names_ok s2 o').
  { destruct Hnm as [|[nm Hnm]]; [by left|right].
    rewrite Hheap2, (collect_keeps_names _ _ h o'); [by eexists|set_solver|done]. }
  assert (Hptr : forall s', heap s' !! h = Some o' ->
            DATAPTR h s' = Ok (Some (h, 0%Z)) s').
  { intros s' Hs'. unfold DATAPTR. erewrite run_bind_Ok by (by apply deref_run).
    rewrite Hfail. by erewrite run_bind_Ok by (by apply elts_run). }
  destruct Hprev as [Hnil|Hprev].
  - exists s2. unfold reserve. autorewrite with cpp11_run.
    rewrite (bind_rt_Ok _ _ _ _ _ _ Hhead). autorewrite with cpp11_run.
    rewrite (bind_rt_Ok _ _ _ _ _ _ Hrun2). autorewrite with cpp11_run.
    rewrite Hnil, (bind_rt_Ok _ _ _ _ _ _ (release_protect_nil s2)).
    rewrite (bind_rt_Ok _ _ _ _ _ _ (Hptr _ Hh2)), run_set_this.
    split_and!; try done. rewrite Hp2, delete_id; [done|].
    apply (wf_prec_nil _ Hwf1).
  - assert (Hne : protect_ w <> next_sexp s1).
    { pose proof (wf_prec_lt _ _ _ Hwf1 Hprev). lia. }
    assert (Hprev2 : precious s2 !! protect_ w = Some (data_ w)).
    { by rewrite Hp2, lookup_insert_ne. }
    destruct (release_protect_spec _ _ _ Hwf2 Hprev2) as [Hrun3 Hwf3].
    exists (set_precious (delete (protect_ w) (precious s2)) s2).
    unfold reserve. autorewrite with cpp11_run.
    rewrite (bind_rt_Ok _ _ _ _ _ _ Hhead). autorewrite with cpp11_run.
    rewrite (bind_rt_Ok _ _ _ _ _ _ Hrun2). autorewrite with cpp11_run.
    rewrite (bind_rt_Ok _ _ _ _ _ _ Hrun3).
    rewrite (bind_rt_Ok _ _ _ _ _ _ (Hptr (set_precious _ s2) Hh2)), run_set_this.
    split_and!; try done.
    simpl. rewrite Hp2. by rewrite delete_insert_ne.
Qed.
End Reserve.

Section ReserveSpec.
Context `{ElemKind T}.

Lemma wv_ok_live s (w : wvector) o (xs : list T) :
  rstate_wf s -> (0 <= length_ w <= capacity_ w)%Z -> (capacity_ w <= R_XLEN_T_MAX)%Z ->
  wv_live s w o xs -> wv_ok s w.
Proof. intros Hwf Hb Hc Hl. split; [done|]. split; [done|]. split; [done|]. right. eauto. Qed.

(** The object [reserve] leaves behind. *)
Definition reserved (w : wvector) (n : R_xlen_t) (h tok : SEXP) : wvector :=
  w_set_capacity n (w_set_ptr (Some (h, 0%Z)) (w_set_protect tok (w_set_data h w))).

Lemma reserved_live s (w : wvector) n h tok o (ys : list T) :
  heap s !! h = Some o -> ek_unpack (sx_data o) = Some ys ->
  length ys = Z.to_nat n -> (0 <= n)%Z -> precious s !! tok = Some h ->
  names_ok s o -> (sx_altrep o = true -> is_altrep_ w = true) ->
  wv_live s (reserved w n h tok) o ys.
Proof. intros Hh Hys Hl Hn Ht Hnm Halt. split; simpl; try done; lia. Qed.

Lemma contents_live s (v : vector) o (xs : list T) :
  heap s !! data_ v = Some o -> ek_unpack (sx_data o) = Some xs -> data_ v <> R_NilValue ->
  contents s v = Some (take (Z.to_nat (length_ v)) xs).
Proof.
  intros Hh Hys Hnil. unfold contents. rewrite decide_False by done.
  by rewrite Hh; simpl; rewrite Hys.
Qed.

Lemma contents_nil s (v : vector) : data_ v = R_NilValue -> contents (T := T) s v = Some [].
Proof. intros Hnil. unfold contents. by rewrite decide_True. Qed.

(** [reserve n] for any [0 <= n] the allocator can satisfy: the object
    points at a live, protected, healthy vector of [n] elements, which
    are the old elements cut or padded with NA to [n] (junk for a fresh
    allocation); [length_] and the representation are unchanged, the
    capacity is [n], and the registry has traded the old token for one
    fresh token.  [reserve] does not read [capacity_]: the form holds for
    an object whose [capacity_] field was changed before the call. *)
Lemma reserve_core s (w : wvector) c n :
  wv_ok s w -> healthy s w -> (0 <= n <= R_XLEN_T_MAX)%Z -> (n <= max_alloc s)%Z ->
  exists s' w' o' (ys : list T), reserve n (s, w_set_capacity c w) = Ok tt (s', w') /\
    rstate_wf s' /\ wv_live s' w' o' ys /\ healthy s' w' /\ capacity_ w' = n /\
    length_ w' = length_ w /\ is_altrep_ w' = is_altrep_ w /\
    (data_ w = R_NilValue \/ exists o xs, heap s !! data_ w = Some o /\
       ek_unpack (sx_data o) = Some xs /\
       ys = take (Z.to_nat n) xs ++ replicate (Z.to_nat n - length xs) ek_NA) /\
    cfg s' = cfg s /\ precious s !! protect_ w' = None /\
    precious s' = <[protect_ w' := data_ w']> (delete (protect_ w) (precious s)).
Proof.
  intros (Hwf & Hb & Hcap & Hdata) Hhl Hn Hmax.
  assert (Hfails : alloc_fails n s = false).
  { unfold alloc_fails. repeat (apply orb_false_intro); apply Z.ltb_ge; lia. }
  destruct Hdata as [(Hnil & Hc0 & Hp0)|(o & xs & Hl)].
  - destruct (Rf_allocVector_spec n s Hwf Hfails)
      as (s1 & o & xs1 & Hrun & Hwf1 & Hh1 & Hxs1 & Hlen1 & Halt & Hnm & _ & Hp1 & Hc1 & _).
    assert (Hfo : altrep_fails o = false) by (unfold altrep_fails; by rewrite Halt).
    destruct (reserve_run s (w_set_capacity c w) n (next_sexp s) s1 o xs1) as (s3 & Hrun3 & Hwf3 & Hh3 & Hnm3 & Hp3 & Hfr & Hc3);
      try done; [by simpl; rewrite Hnil, decide_True, (safe_Ok _ _ _ _ Hrun)|by left|by left; simpl|].
    eexists _, _, o, xs1. split; [exact Hrun3|]. simpl.
    split_and!; try done; try lia.
    + apply reserved_live; try done; try lia.
      * rewrite Hp3. by rewrite lookup_insert_eq.
      * by rewrite Halt.
    + intros o'' Ho. simpl in Ho. rewrite Hh3 in Ho. by injection Ho as <-.
    + by rewrite Hc3, Hc1.
    + by rewrite <- Hp1.
    + by rewrite Hp3, Hp1.
  - pose proof (wl_obj _ _ _ _ Hl) as Ho. pose proof (wl_elts _ _ _ _ Hl) as Hxs.
    pose proof (wl_prot _ _ _ _ Hl) as Hpr.
    destruct (Rf_xlengthgets_spec s (protect_ w) (data_ w) o xs n)
      as (h & s1 & o' & Hrun & Hwf1 & Hp1 & Hc1 & Hh1 & Hys & Hfo & Halt & Hnm1);
      try done; [by apply Hhl|apply Hl|lia|].
    destruct (reserve_run s (w_set_capacity c w) n h s1 o' (take (Z.to_nat n) xs ++ replicate (Z.to_nat n - length xs) ek_NA)) as (s3 & Hrun3 & Hwf3 & Hh3 & Hnm3 & Hp3 & Hfr & Hc3);
      try done; [by simpl; rewrite decide_False, (safe_Ok _ _ _ _ Hrun) by eauto with cpp11|by right; simpl; rewrite Hp1|].
    eexists _, _, o', _. split; [exact Hrun3|]. simpl.
    split_and!; try done; try lia.
    + apply reserved_live; try done.
      * apply length_resize.
      * lia.
      * rewrite Hp3. by rewrite lookup_insert_eq.
      * intros Ha. by apply (wl_altrep _ _ _ _ Hl), Halt.
    + intros o'' Ho''. simpl in Ho''. rewrite Hh3 in Ho''. by injection Ho'' as <-.
    + right. by exists o, xs.
    + by rewrite Hc3, Hc1.
    + by rewrite <- Hp1.
    + by rewrite Hp3, Hp1.
Qed.

(** [reserve n] with [length_ <= n], when the allocator can satisfy
    [n]: the invariant holds afterwards, the capacity is [n], length,
    representation and elements are unchanged, and the registry has
    traded the old token for one fresh token protecting the new data. *)
Lemma reserve_spec_gen s (w : wvector) c n :
  wv_ok s w -> healthy s w ->
  (length_ w <= n <= R_XLEN_T_MAX)%Z -> (n <= max_alloc s)%Z ->
  exists s' w', reserve n (s, w_set_capacity c w) = Ok tt (s', w') /\ wv_ok s' w' /\
    healthy s' w' /\ capacity_ w' = n /\ length_ w' = length_ w /\
    is_altrep_ w' = is_altrep_ w /\ contents s' w' = contents s w /\
    cfg s' = cfg s /\ precious s !! protect_ w' = None /\
    precious s' = <[protect_ w' := data_ w']> (delete (protect_ w) (precious s)).
Proof.
  intros Hok Hhl Hn Hmax. pose proof Hok as (Hwf & Hb & Hcap & Hdata).
  destruct (reserve_core s w c n Hok Hhl ltac:(lia) Hmax)
    as (s' & w' & o' & ys & Hrun & Hwf' & Hl' & Hh' & Hc & Hlen & Halt & Hys & Hcf & Hfr & Hp).
  exists s', w'. split_and!; try done.
  - apply (wv_ok_live _ _ o' ys); [done|lia|lia|done].
  - rewrite (contents_live _ _ _ _ (wl_obj _ _ _ _ Hl') (wl_elts _ _ _ _ Hl'))
      by (eapply wf_heap_not_nil; [exact Hwf'|apply Hl']).
    destruct Hys as [Hnil|(o & xs & Ho & Hxs & ->)].
    + rewrite contents_nil by done. destruct Hdata as [(_ & Hc0 & _)|(o & xs & Hl)].
      * by replace (length_ w') with 0%Z by lia.
      * pose proof (wl_obj _ _ _ _ Hl) as Ho. rewrite Hnil in Ho. by rewrite (wf_heap_nil _ Hwf) in Ho.
    + rewrite (contents_live _ _ _ _ Ho Hxs) by (eapply wf_heap_not_nil; [exact Hwf|exact Ho]).
      destruct Hdata as [(Hnil & _)|(o1 & xs1 & Hl)]; [by rewrite Hnil, (wf_heap_nil _ Hwf) in Ho|].
      rewrite (wl_obj _ _ _ _ Hl) in Ho. injection Ho as <-. rewrite (wl_elts _ _ _ _ Hl) in Hxs.
      injection Hxs as <-. pose proof (wl_cap _ _ _ _ Hl).
      rewrite Hlen. f_equal. apply take_resize; lia.
Qed.

Lemma w_set_capacity_id (w : wvector) : w_set_capacity (capacity_ w) w = w.
Proof. by destruct w. Qed.

(** [reserve] on a vector satisfying the invariant, within the allocator's limit (shared by the growth loop). *)
Lemma reserve_correct s (w : wvector) n :
  wv_ok s w -> healthy s w ->
  (length_ w <= n <= R_XLEN_T_MAX)%Z -> (n <= max_alloc s)%Z ->
  exists s' w', reserve n (s, w) = Ok tt (s', w') /\ wv_ok s' w' /\
    healthy s' w' /\ capacity_ w' = n /\ length_ w' = length_ w /\
    is_altrep_ w' = is_altrep_ w /\ contents s' w' = contents s w /\
    cfg s' = cfg s /\ precious s !! protect_ w' = None /\
    precious s' = <[protect_ w' := data_ w']> (delete (protect_ w) (precious s)).
Proof.
  intros Hok Hh Hn Hm.
  pose proof (reserve_spec_gen s w (capacity_ w) n Hok Hh Hn Hm) as Hg.
  by rewrite w_set_capacity_id in Hg.
Qed.

(** C2: [reserve n], for [length_ <= n] within the allocator's limit, returns
    with the invariant kept and every element in place, [capacity_ = n],
    and the old protection token replaced by one fresh token for the new
    data in the precious list. *)
Theorem reserve_spec s (w : wvector) n :
  wv_ok s w -> healthy s w ->
  (length_ w <= n <= R_XLEN_T_MAX)%Z -> (n <= max_alloc s)%Z ->
  exists s' w', reserve n (s, w) = Ok tt (s', w') /\ wv_ok s' w' /\
    healthy s' w' /\ capacity_ w' = n /\ length_ w' = length_ w /\
    is_altrep_ w' = is_altrep_ w /\ contents s' w' = contents s w /\
    cfg s' = cfg s /\ precious s !! protect_ w' = None /\
    precious s' = <[protect_ w' := data_ w']> (delete (protect_ w) (precious s)).
Proof. intros; eapply reserve_correct; eassumption. Qed.
End ReserveSpec.

Section PushBack.
Context `{ElemKind T}.

(** The capacity requested by one turn of the growth loop. *)
Definition growth_cap (c : R_xlen_t) : R_xlen_t :=
  if decide (c = 0%Z) then 1%Z else (2 * c)%Z.

(** The allocator can satisfy the growth [push_back] needs. *)
Definition can_grow (s : rstate) (w : wvector) : Prop :=
  (length_ w < capacity_ w)%Z \/
  (growth_cap (capacity_ w) <= max_alloc s /\ growth_cap (capacity_ w) <= R_XLEN_T_MAX)%Z.

Lemma grow_exit f s (w : wvector) :
  (length_ w < capacity_ w)%Z -> grow (S f) (s, w) = Ok tt (s, w).
Proof.
  intros Hlt. cbn [grow]. unfold bind at 1. cbn [this fst snd].
  by rewrite (proj2 (Z.ltb_lt _ _) Hlt).
Qed.

(** The growth loop returns within two turns (shared by [push_back]). *)
Lemma grow_correct fuel s (w : wvector) :
  (2 <= fuel)%nat -> wv_ok s w -> healthy s w -> can_grow s w ->
  exists s' w', grow fuel (s, w) = Ok tt (s', w') /\ wv_ok s' w' /\ healthy s' w' /\
    (length_ w' < capacity_ w')%Z /\ length_ w' = length_ w /\
    is_altrep_ w' = is_altrep_ w /\ contents s' w' = contents s w /\ cfg s' = cfg s /\
    capacity_ w' = (if (length_ w <? capacity_ w)%Z then capacity_ w
                    else growth_cap (capacity_ w)) /\
    delete (protect_ w') (precious s') = delete (protect_ w) (precious s).
Proof.
  intros Hf Hok Hhl Hcg. destruct fuel as [|[|f]]; [lia|lia|].
  pose proof Hok as (Hwf & Hb & Hcap & _).
  destruct (Z.ltb_spec (length_ w) (capacity_ w)) as [Hlt|Hge].
  { exists s, w. rewrite grow_exit by done. split_and!; done. }
  assert (Hfull : length_ w = capacity_ w) by lia.
  destruct Hcg as [|[Hcg Hcg']]; [lia|].
  pose proof R_XLEN_T_MAX_small. unfold growth_cap in *.
  destruct (decide (capacity_ w = 0%Z)) as [Hc0|Hc0].
  - destruct (reserve_correct s w 1%Z) as (s1 & w1 & Hrun & Hok1 & Hhl1 & Hc1 & Hl1 & Ha1 & Hct1 & Hcf1 & Hfr & Hpr);
      try done; [unfold R_XLEN_T_MAX in *; lia|].
    exists s1, w1. cbn [grow]. unfold bind at 1. cbn [this fst snd].
    rewrite (proj2 (Z.ltb_ge _ _) Hge), decide_True by done.
    unfold bind at 1. cbn [ret]. rewrite (run_bind_Ok _ _ _ _ _ Hrun).
    split; [apply grow_exit; lia|].
    split_and!; try done; try lia. rewrite Hpr. by apply delete_insert_fresh.
  - destruct (reserve_spec_gen s w (2 * capacity_ w)%Z (2 * capacity_ w)%Z)
      as (s1 & w1 & Hrun & Hok1 & Hhl1 & Hc1 & Hl1 & Ha1 & Hct1 & Hcf1 & Hfr & Hpr);
      try done; [unfold R_XLEN_T_MAX in *; lia|].
    exists s1, w1. cbn [grow]. unfold bind at 1. cbn [this fst snd].
    rewrite (proj2 (Z.ltb_ge _ _) Hge), decide_False by done.
    unfold xlen_mul2. rewrite xlen_mul2_no_overflow by lia.
    unfold bind at 1. cbn [ret set_this bind].
    rewrite (run_bind_Ok _ _ _ _ _ Hrun).
    split; [apply grow_exit; lia|].
    split_and!; try done; try lia. rewrite Hpr. by apply delete_insert_fresh.
Qed.

(** C18: The growth loop: with fuel for two turns it returns, and afterwards
    [length_ < capacity_]; the capacity is doubled (or set to 1) exactly
    when the vector was full. *)
Theorem grow_spec fuel s (w : wvector) :
  (2 <= fuel)%nat -> wv_ok s w -> healthy s w -> can_grow s w ->
  exists s' w', grow fuel (s, w) = Ok tt (s', w') /\ wv_ok s' w' /\ healthy s' w' /\
    (length_ w' < capacity_ w')%Z /\ length_ w' = length_ w /\
    is_altrep_ w' = is_altrep_ w /\ contents s' w' = contents s w /\ cfg s' = cfg s /\
    capacity_ w' = (if (length_ w <? capacity_ w)%Z then capacity_ w
                    else growth_cap (capacity_ w)) /\
    delete (protect_ w') (precious s') = delete (protect_ w) (precious s).
Proof. intros; eapply grow_correct; eassumption. Qed.

(** The slot write of [push_back], through either representation. *)
Lemma write_slot_spec s (w : wvector) o (xs : list T) v :
  wv_live s w o xs -> altrep_fails o = false -> (0 <= length_ w < capacity_ w)%Z ->
  (if is_altrep_ w then rt (SET_ELT (data_ w) (length_ w) v)
   else rt (ptr_write (data_p_ w) (length_ w) v)) (s, w) =
  Ok tt (set_heap (<[data_ w := stored o xs (length_ w) v]> (heap s)) s, w).
Proof.
  intros Hl Hfail Hb. pose proof (wl_cap _ _ _ _ Hl) as Hc.
  destruct (is_altrep_ w) eqn:Ha; apply rt_Ok.
  - apply SET_ELT_run; [apply Hl|apply Hl|done|lia].
  - rewrite (wl_ptr _ _ _ _ Hl Ha). apply ptr_write_run; [apply Hl|apply Hl|lia].
Qed.

(** Storing one element of the data keeps the vector live, whatever its
    length field becomes. *)
Lemma wv_live_store s (w : wvector) o (xs : list T) i v n :
  wv_live s w o xs ->
  wv_live (set_heap (<[data_ w := stored o xs i v]> (heap s)) s) (w_set_length n w)
    (stored o xs i v) (<[Z.to_nat i := v]> xs).
Proof.
  intros Hl. pose proof (wl_obj _ _ _ _ Hl) as Ho.
  split; simpl; try apply Hl.
  - by rewrite lookup_insert_eq.
  - apply ek_unpack_pack.
  - rewrite length_insert. apply Hl.
  - eapply names_ok_set_object; [exact Ho|apply Hl].
Qed.

Lemma healthy_store s (w : wvector) o (xs : list T) i v n :
  altrep_fails o = false ->
  healthy (set_heap (<[data_ w := stored o xs i v]> (heap s)) s) (w_set_length n w).
Proof. intros Hf o' Ho'. simpl in Ho'. rewrite lookup_insert_eq in Ho'. by injection Ho' as <-. Qed.

Lemma w_set_length_id (w : wvector) : w_set_length (length_ w) w = w.
Proof. by destruct w as [[] ?]. Qed.

Lemma contents_ok s (w : wvector) :
  wv_ok s w -> exists l : list T, contents s w = Some l.
Proof.
  intros (Hwf & _ & _ & [(Hnil & _)|(o & xs & Hl)]).
  - exists []. by apply contents_nil.
  - eexists. eapply contents_live; [apply Hl|apply Hl|].
    eapply wf_heap_not_nil; [exact Hwf|apply Hl].
Qed.

(** [push_back] on a vector satisfying the invariant (shared by the sequence theorems). *)
Lemma push_back_correct s (w : wvector) v :
  wv_ok s w -> healthy s w -> can_grow s w ->
  exists s' w', push_back v (s, w) = Ok tt (s', w') /\ wv_ok s' w' /\ healthy s' w' /\
    length_ w' = (length_ w + 1)%Z /\ is_altrep_ w' = is_altrep_ w /\ cfg s' = cfg s /\
    contents s' w' = (fun l => l ++ [v]) <$> contents s w /\
    capacity_ w' = (if (length_ w <? capacity_ w)%Z then capacity_ w
                    else growth_cap (capacity_ w)) /\
    delete (protect_ w') (precious s') = delete (protect_ w) (precious s).
Proof.
  intros Hok Hhl Hcg.
  destruct (grow_correct push_back_fuel s w) as (s1 & w1 & Hrun1 & Hok1 & Hhl1 & Hlt1 & Hl1 & Ha1 & Hct1 & Hcf1 & Hcw1 & Hfr1);
    try done; [unfold push_back_fuel; lia|].
  pose proof Hok1 as (Hwf1 & Hb1 & Hcap1 & [(_ & Hc0 & _)|(o & xs & Hlv)]); [lia|].
  assert (Hfo : altrep_fails o = false) by (apply Hhl1, Hlv).
  unfold push_back. rewrite (run_bind_Ok _ _ _ _ _ Hrun1), bind_this.
  rewrite (run_bind_Ok _ _ _ _ _ (write_slot_spec _ _ _ _ v Hlv Hfo ltac:(lia))).
  rewrite bind_this, run_set_this.
  pose proof (wl_obj _ _ _ _ Hlv) as Ho. pose proof (wl_cap _ _ _ _ Hlv) as Hc.
  eexists _, _. split; [reflexivity|].
  split_and!; simpl; try done; try lia.
  - eapply wv_ok_live; [by eapply wf_set_object|simpl; lia|done|by apply wv_live_store].
  - by apply healthy_store.
  - rewrite <- Hct1.
    erewrite contents_live; [|simpl; by rewrite lookup_insert_eq|simpl; apply ek_unpack_pack|
                             eapply wf_heap_not_nil; [exact Hwf1|exact Ho]].
    erewrite contents_live; [|exact Ho|apply Hlv|eapply wf_heap_not_nil; [exact Hwf1|exact Ho]].
    simpl. f_equal. replace (Z.to_nat (length_ w1 + 1)) with (S (Z.to_nat (length_ w1))) by lia.
    apply take_insert_snoc. lia.
Qed.

(** C1: [push_back v] on a vector satisfying the invariant, when the growth
    it may need can be allocated: it returns, the invariant holds, the
    length grows by one and the elements are the old ones followed by
    [v], through either representation. *)
Theorem push_back_spec s (w : wvector) v :
  wv_ok s w -> healthy s w -> can_grow s w ->
  exists s' w', push_back v (s, w) = Ok tt (s', w') /\ wv_ok s' w' /\ healthy s' w' /\
    length_ w' = (length_ w + 1)%Z /\ is_altrep_ w' = is_altrep_ w /\ cfg s' = cfg s /\
    contents s' w' = (fun l => l ++ [v]) <$> contents s w /\
    capacity_ w' = (if (length_ w <? capacity_ w)%Z then capacity_ w
                    else growth_cap (capacity_ w)) /\
    delete (protect_ w') (precious s') = delete (protect_ w) (precious s).
Proof. intros; eapply push_back_correct; eassumption. Qed.
End PushBack.

(** The default-constructed vector in any well-formed runtime. *)
Lemma empty_wvector_ok `{ElemKind T} s : rstate_wf s -> wv_ok (T := T) s empty_wvector.
Proof. intros Hwf. split; [done|]. split; [simpl; lia|]. split; [simpl; unfold R_XLEN_T_MAX; lia|]. by left. Qed.

Lemma empty_wvector_healthy s : rstate_wf s -> healthy s empty_wvector.
Proof. intros Hwf o Ho. simpl in Ho. by rewrite (wf_heap_nil _ Hwf) in Ho. Qed.

Section Readable.
Context `{ElemKind T}.

(** A writable vector satisfying its invariant is readable. *)
Lemma wv_live_readable s (w : wvector) o (xs : list T) :
  (0 <= length_ w <= capacity_ w)%Z -> wv_live s w o xs -> altrep_fails o = false ->
  readable s w o xs.
Proof.
  intros Hb Hl Hf. pose proof (wl_cap _ _ _ _ Hl).
  split; try apply Hl; try done. lia.
Qed.
End Readable.

(** ** Reading back what was pushed *)

Section ReadBack.
Context `{ElemKind T}.

(** Reading back: on a vector satisfying the invariant, [at] returns the
    element its contents show at [pos]. *)
Lemma at_contents what s (w : wvector) (l : list T) pos :
  wv_ok s w -> healthy s w -> contents s w = Some l -> (0 <= pos < length_ w)%Z ->
  exists x, l !! Z.to_nat pos = Some x /\
    at_ what w pos s = Ok x (after_read (is_altrep_ w) s).
Proof.
  intros (Hwf & Hb & _ & [(_ & Hc0 & _)|(o & xs & Hl)]) Hh Hc Hp; [lia|].
  pose proof (wv_live_readable s w o xs Hb Hl (Hh _ (wl_obj _ _ _ _ Hl))) as Hr.
  destruct (read_elt_spec s w o xs pos Hr Hp) as (x & Hx & Hrun).
  exists x. split.
  - rewrite (contents_live _ _ _ _ (wl_obj _ _ _ _ Hl) (wl_elts _ _ _ _ Hl)) in Hc
      by (eapply wf_heap_not_nil; [exact Hwf|apply Hl]).
    injection Hc as <-. by rewrite lookup_take_lt by lia.
  - unfold at_. by rewrite (proj2 (Z.ltb_ge _ _)), (proj2 (Z.leb_gt _ _)) by lia.
Qed.

(** The contents of a vector satisfying the invariant are as long as it. *)
Lemma contents_length s (w : wvector) (l : list T) :
  wv_ok s w -> contents s w = Some l -> length l = Z.to_nat (length_ w).
Proof.
  intros (Hwf & Hb & _ & [(Hnil & Hc0 & _)|(o & xs & Hl)]) Hc.
  - rewrite contents_nil in Hc by done. injection Hc as <-. simpl. lia.
  - rewrite (contents_live _ _ _ _ (wl_obj _ _ _ _ Hl) (wl_elts _ _ _ _ Hl)) in Hc
      by (eapply wf_heap_not_nil; [exact Hwf|apply Hl]).
    injection Hc as <-. rewrite length_take. pose proof (wl_cap _ _ _ _ Hl). lia.
Qed.

(** [push_back] then [at] of the new last index (shared by the specialisations). *)
Lemma push_back_read_back what s (w : wvector) (v : T) :
  wv_ok s w -> healthy s w -> can_grow s w ->
  exists s' w', push_back v (s, w) = Ok tt (s', w') /\
    length_ w' = (length_ w + 1)%Z /\
    at_ what w' (length_ w' - 1)%Z s' = Ok v (after_read (is_altrep_ w') s').
Proof.
  intros Hok Hh Hcg.
  destruct (push_back_correct s w v Hok Hh Hcg)
    as (s' & w' & Hrun & Hok' & Hh' & Hl' & _ & _ & Hc' & _).
  destruct (contents_ok s w Hok) as (l & Hl).
  rewrite Hl in Hc'. simpl in Hc'.
  pose proof (contents_length _ _ _ Hok Hl) as Hlen.
  pose proof Hok as (_ & Hb & _).
  destruct (at_contents what s' w' _ (length_ w' - 1)%Z Hok' Hh' Hc') as (x & Hx & Hat); [lia|].
  exists s', w'. split_and!; try done.
  replace (Z.to_nat (length_ w' - 1)%Z) with (length l) in Hx by lia.
  rewrite lookup_snoc_last in Hx. by injection Hx as <-.
Qed.

(** C22: [push_back(v)] followed by [at(length - 1)] returns [v], through
    either representation, whenever the growth the push needs can be
    allocated. *)
Theorem push_back_then_at what s (w : wvector) (v : T) :
  wv_ok s w -> healthy s w -> can_grow s w ->
  exists s' w', push_back v (s, w) = Ok tt (s', w') /\
    length_ w' = (length_ w + 1)%Z /\
    at_ what w' (length_ w' - 1)%Z s' = Ok v (after_read (is_altrep_ w') s').
Proof. intros; eapply push_back_read_back; eassumption. Qed.
End ReadBack.

(** ** A growth the allocator refuses

    [push_back] doubles [capacity_] ([capacity_ *= 2]) before [reserve]
    tries to allocate.  When the allocation fails, [safe] turns the R
    error into [unwind_exception], which leaves the object with the
    doubled capacity over the old data. *)

Section FailedGrowth.
Context `{ElemKind T}.

Lemma reserve_refused s (w : wvector) o (xs : list T) n :
  rstate_wf s -> heap s !! data_ w = Some o -> ek_unpack (sx_data o) = Some xs ->
  (0 <= n)%Z -> Z.of_nat (length xs) <> n -> alloc_fails n s = true ->
  reserve n (s, w) = Throw unwind_exception (s, w).
Proof.
  intros Hwf Ho Hxs Hn Hl Hf. unfold reserve. rewrite bind_this.
  rewrite decide_False by (eapply wf_heap_not_nil; [exact Hwf|exact Ho]).
  apply run_bind_Throw, rt_Throw, safe_Jump, (Rf_xlengthgets_fails _ _ _ Ho); [done| |done].
  by rewrite (ek_unpack_length _ _ Hxs).
Qed.

(** C3: when a full vector's growth is refused by the allocator,
    [push_back] throws [unwind_exception] with [capacity_] already doubled
    over the old data: the object no longer satisfies the invariant, and
    the next [push_back], finding [length_ < capacity_], writes one past
    the end of the data (undefined behaviour), through either
    representation. *)
Theorem push_back_failed_growth s (w : wvector) (v v' : T) :
  wv_ok s w -> healthy s w -> (0 < capacity_ w)%Z -> length_ w = capacity_ w ->
  (max_alloc s < 2 * capacity_ w)%Z ->
  push_back v (s, w) = Throw unwind_exception (s, w_set_capacity (2 * capacity_ w)%Z w) /\
  ~ wv_ok (T := T) s (w_set_capacity (2 * capacity_ w)%Z w) /\
  exists why, push_back v' (s, w_set_capacity (2 * capacity_ w)%Z w) = Undef why.
Proof.
  intros Hok Hh Hc Hfull Hmax.
  destruct Hok as (Hwf & Hb & Hcap & [(_ & Hc0 & _)|(o & xs & Hl)]); [lia|].
  pose proof (wl_obj _ _ _ _ Hl) as Ho. pose proof (wl_elts _ _ _ _ Hl) as Hxs.
  pose proof (wl_cap _ _ _ _ Hl) as Hlen. pose proof (Hh _ Ho) as Hf.
  assert (Hgrow : grow push_back_fuel (s, w) =
                  Throw unwind_exception (s, w_set_capacity (2 * capacity_ w)%Z w)).
  { unfold push_back_fuel. cbn [grow]. unfold bind at 1. cbn [this fst snd].
    rewrite (proj2 (Z.ltb_ge _ _)) by lia. rewrite decide_False by lia.
    unfold xlen_mul2. rewrite xlen_mul2_no_overflow by lia.
    unfold bind at 1. cbn [ret set_this bind].
    apply run_bind_Throw. eapply reserve_refused; [exact Hwf|exact Ho|exact Hxs|lia|lia|].
    unfold alloc_fails. rewrite (proj2 (Z.ltb_lt _ _) Hmax). by rewrite orb_true_r. }
  split; [unfold push_back; by rewrite (run_bind_Throw _ _ _ _ _ Hgrow)|].
  split.
  - intros (_ & _ & _ & [(Hnil & _)|(o' & xs' & Hl')]).
    + apply (wf_heap_not_nil _ _ _ Hwf Ho), Hnil.
    + pose proof (wl_obj _ _ _ _ Hl') as Ho'. cbn in Ho'. rewrite Ho in Ho'. injection Ho' as <-.
      pose proof (wl_elts _ _ _ _ Hl') as Hxs'. rewrite Hxs in Hxs'. injection Hxs' as <-.
      pose proof (wl_cap _ _ _ _ Hl') as Hlen'. cbn in Hlen'. lia.
  - unfold push_back, push_back_fuel.
    rewrite (run_bind_Ok _ _ _ _ _ (grow_exit 64 s (w_set_capacity (2 * capacity_ w)%Z w) ltac:(cbn; lia))), bind_this. cbn.
    replace (length_ w) with (Z.of_nat (length xs)) by lia.
    destruct (is_altrep_ w) eqn:Ha; eexists; apply run_bind_Undef, rt_Undef.
    + exact (SET_ELT_end _ _ _ Ho xs v' Hxs Hf).
    + rewrite (wl_ptr _ _ _ _ Hl Ha). exact (ptr_write_end _ _ _ Ho xs v' Hxs).
Qed.
End FailedGrowth.

(** ** Reserving less than the length

    [reserve] is public and does not compare [new_capacity] with
    [length_]: below the length it cuts the data while [length_] stays. *)

Section Shrink.
Context `{ElemKind T}.

(** C5: [reserve n] with [0 <= n < length_] on a vector with a direct
    pointer returns normally, leaving [capacity_ = n] below an unchanged
    [length_]: the object breaks the invariant, and the checked [at(n)],
    whose bound is [length_], reads past the end of the data. *)
Theorem reserve_below_length what s (w : wvector) n :
  wv_ok (T := T) s w -> healthy s w -> is_altrep_ w = false ->
  (0 <= n < length_ w)%Z -> (n <= max_alloc s)%Z ->
  exists s' w', reserve (T := T) n (s, w) = Ok tt (s', w') /\ capacity_ w' = n /\
    length_ w' = length_ w /\ ~ wv_ok (T := T) s' w' /\
    at_ (T := T) what w' n s' = Undef "read out of bounds".
Proof.
  intros Hok Hh Ha Hn Hm. pose proof Hok as (Hwf & Hb & Hcap & _).
  destruct (reserve_core s w (capacity_ w) n Hok Hh ltac:(lia) Hm)
    as (s' & w' & o' & ys & Hrun & Hwf' & Hl' & _ & Hc & Hlen & Halt & _).
  rewrite w_set_capacity_id in Hrun. exists s', w'. split_and!; try done.
  - intros (_ & Hb' & _). lia.
  - pose proof (wl_cap _ _ _ _ Hl') as Hys.
    unfold at_. rewrite (proj2 (Z.ltb_ge _ _)), (proj2 (Z.leb_gt _ _)) by lia. cbn [orb].
    rewrite Halt, Ha, (wl_ptr _ _ _ _ Hl') by congruence. unfold ptr_read.
    rewrite (run_bind_Ok _ _ _ _ _ (deref_run _ _ _ (wl_obj _ _ _ _ Hl'))), (wl_elts _ _ _ _ Hl').
    unfold zlookup. rewrite (proj2 (Z.ltb_ge _ _)) by lia.
    by rewrite lookup_ge_None_2 by lia.
Qed.

End Shrink.
