(* ===== verification/Proxy.v ===== *)
(** * The element proxy of [writable::vector<T>]

    [writable::vector<T>::operator[]] returns a proxy for one slot: a raw
    pointer to the slot for a vector with a direct pointer, or the handle
    and the index for an ALTREP vector.  [proxy::operator=] stores
    through it, [proxy::operator T] reads through it.  The theorem shows
    that a store followed by a read returns the value stored and keeps
    the writable invariant. *)

From S2P Require Import Prelude Runtime RuntimeFacts Vector Access Writable.

Section Proxy.
Context `{ElemKind T}.

(** [writable::vector::operator[]] builds the proxy of slot [pos]. *)
Definition proxy_at (w : wvector) (pos : R_xlen_t) : proxy :=
  mk_proxy (data_ w) pos
    (if is_altrep_ w then None else ptr_add (data_p_ w) pos) (is_altrep_ w).

(** [proxy::operator=]. *)
Definition proxy_assign (p : proxy) (rhs : T) : RM unit :=
  if px_is_altrep_ p then SET_ELT (px_data_ p) (px_index_ p) rhs
  else ptr_write (px_p_ p) 0%Z rhs.

(** [proxy::operator T]. *)
Definition proxy_get (p : proxy) : RM T :=
  match px_p_ p with
  | None => ELT (px_data_ p) (px_index_ p)
  | Some _ => ptr_read (px_p_ p) 0%Z
  end.

(** The store [proxy::operator=] performs, through either representation. *)
Lemma proxy_assign_run s (w : wvector) o (xs : list T) pos v :
  wv_live s w o xs -> altrep_fails o = false -> (0 <= pos < Z.of_nat (length xs))%Z ->
  proxy_assign (proxy_at w pos) v s =
    Ok tt (set_heap (<[data_ w := stored o xs pos v]> (heap s)) s).
Proof.
  intros Hl Hf Hp. pose proof (wl_obj _ _ _ _ Hl) as Ho.
  unfold proxy_assign, proxy_at. simpl. destruct (is_altrep_ w) eqn:Ha.
  - apply SET_ELT_run; [exact Ho|apply Hl|done|lia].
  - rewrite (wl_ptr _ _ _ _ Hl Ha). simpl.
    replace (stored o xs pos v) with (stored o xs (0 + pos + 0)%Z v) by (f_equal; lia).
    apply ptr_write_run; [exact Ho|apply Hl|lia].
Qed.

(** The store through the proxy of an in-range slot keeps the invariant
    and changes exactly that slot; afterwards the data holds [v] there. *)
Lemma proxy_assign_correct s (w : wvector) pos (v : T) :
  wv_ok s w -> healthy s w -> (0 <= pos < length_ w)%Z ->
  exists s', proxy_assign (proxy_at w pos) v s = Ok tt s' /\ wv_ok s' w /\ healthy s' w /\
    contents s' w = (fun l => <[Z.to_nat pos := v]> l) <$> contents s w /\
    cfg s' = cfg s /\ precious s' = precious s /\
    exists o' xs', wv_live s' w o' xs' /\ altrep_fails o' = false /\ xs' !! Z.to_nat pos = Some v.
Proof.
  intros (Hwf & Hb & Hc & [(_ & Hc0 & _)|(o & xs & Hl)]) Hh Hp; [lia|].
  pose proof (wl_obj _ _ _ _ Hl) as Ho. pose proof (Hh _ Ho) as Hf.
  pose proof (wl_cap _ _ _ _ Hl) as Hcap.
  pose proof (wf_heap_not_nil _ _ _ Hwf Ho) as Hnil.
  pose proof (wv_live_store s w o xs pos v (length_ w) Hl) as Hl'.
  pose proof (healthy_store s w o xs pos v (length_ w) Hf) as Hh'.
  rewrite w_set_length_id in Hl', Hh'.
  pose proof (wl_obj _ _ _ _ Hl') as Ho'.
  eexists. split; [apply proxy_assign_run; [done|done|lia]|].
  split_and!; try done.
  - eapply wv_ok_live; [by eapply wf_set_object|done|done|exact Hl'].
  - erewrite (contents_live _ _ _ _ Ho'), (contents_live _ _ _ _ Ho); try done; [|apply Hl|apply Hl'].
    simpl. f_equal. apply take_insert_lt. lia.
  - exists (stored o xs pos v), (<[Z.to_nat pos := v]> xs). split_and!; [exact Hl'|apply Hh', Ho'|].
    apply list_lookup_insert_eq. lia.
Qed.

(** C23: assigning [v] through the proxy of slot [pos] and converting the
    proxy back: the store keeps the invariant, changes exactly that slot
    of the contents, and the read returns [v], through either
    representation. *)
Theorem proxy_roundtrip s (w : wvector) pos (v : T) :
  wv_ok s w -> healthy s w -> (0 <= pos < length_ w)%Z ->
  exists s', proxy_assign (proxy_at w pos) v s = Ok tt s' /\ wv_ok s' w /\ healthy s' w /\
    contents s' w = (fun l => <[Z.to_nat pos := v]> l) <$> contents s w /\
    proxy_get (proxy_at w pos) s' = Ok v (after_read (is_altrep_ w) s').
Proof.
  intros Hok Hh Hp.
  destruct (proxy_assign_correct s w pos v Hok Hh Hp)
    as (s' & Hrun & Hok' & Hh' & Hc & _ & _ & o' & xs' & Hl' & Hf' & Hx).
  exists s'. split_and!; try done.
  pose proof (wl_obj _ _ _ _ Hl') as Ho'.
  unfold proxy_get, proxy_at, after_read. simpl. destruct (is_altrep_ w) eqn:Ha.
  - apply (ELT_run _ _ _ Ho' xs'); [apply Hl'|done|lia|exact Hx].
  - rewrite (wl_ptr _ _ _ _ Hl' Ha). simpl.
    apply (ptr_read_run _ _ _ Ho' xs'); [apply Hl'|lia|]. by rewrite Z.add_0_r, Z.add_0_l.
Qed.
End Proxy.
