(* ===== verification/Named.v ===== *)
(** * The named-list constructor of [writable::vector<T>]

    [writable::vector<T>(std::initializer_list<named_arg>)]: the data is
    allocated, then, under [unwind_protect], protected, given a names
    attribute and filled with the first element of each argument's value
    and its name; an [unwind_exception] releases the token and is
    rethrown.  On values of the kind the constructor returns the vector of
    first elements with the names attached ([ctor_named_spec], through the
    loop lemma [fill_named_run] and [ctor_named_prefix], the steps before
    the loop); on a value of another type it throws [type_error] past the
    handler and leaks the token ([ctor_named_type_error_leak]). *)

From S2P Require Import Prelude Runtime RuntimeFacts Vector Access Writable.

Section NamedCtor.
Context `{ElemKind T}.

(** The loop of the named-list constructor:
    [data_p_[i] = vector<T>(it->value())[0];
     SET_STRING_ELT(names, i, Rf_mkCharCE(it->name(), CE_UTF8));] *)
Fixpoint fill_named (il : list named_arg) (i : R_xlen_t) (names : SEXP) : VM unit :=
  match il with
  | [] => ret tt
  | a :: il' =>
      x <- rt (v <- vector_from (na_value a);; subscript v 0%Z);;
      w <- this;;
      rt (ptr_write (data_p_ w) i x);;
      str <- rt (Rf_mkCharCE (na_name a));;
      rt (SET_STRING_ELT names i (Some str));;
      fill_named il' (i + 1)%Z names
  end.

(** The body of [unwind_protect] in the named-list constructor. *)
Definition named_body (il : list named_arg) : VM unit :=
  w <- this;;
  tok <- rt (protect_sexp (data_ w));;
  set_this (w_set_protect tok w);;
  nm <- rt (Rf_allocVector STRSXP (capacity_ w));;
  rt (Rf_setAttrib_names (data_ w) nm);;
  names <- rt (Rf_getAttrib_names (data_ w));;
  fill_named il 0%Z names.

(** [catch (const unwind_exception& e) { release_protect(protect_); throw e; }] *)
Definition named_handler (e : exn) : VM unit :=
  w <- this;; rt (release_protect (protect_ w));; throw e.

(** [writable::vector<T>(std::initializer_list<named_arg>)]: allocate,
    then protect and fill under [unwind_protect]; on [unwind_exception]
    release the token and rethrow. *)
Definition ctor_named (il : list named_arg) : RM wvector :=
  d <- safe (Rf_allocVector ek_sexptype (Z.of_nat (length il)));;
  v <- vector_from d;;
  construct (mk_wvector v (Z.of_nat (length il)))
    (try_catch (unwind_protect (named_body il)) is_unwind named_handler).
End NamedCtor.

(** ** Filling the data and the names

    [arg_ok s d nm a x]: the value of the argument [a] is a live,
    protected object of the kind whose first element is [x], whose ALTREP
    methods do not fail, and which is neither the new data [d] nor its
    names [nm].  The loop writes the first elements into the data and the
    names into the names attribute, and changes no other protected
    object. *)

Section NamedFill.
Context `{ElemKind T}.

Definition value_ok (s : rstate) (a : named_arg) (x : T) : Prop :=
  exists t oa ys, precious s !! t = Some (na_value a) /\ heap s !! na_value a = Some oa /\
    ek_unpack (sx_data oa) = Some (x :: ys) /\ altrep_fails oa = false.

Definition arg_ok (s : rstate) (d nm : SEXP) (a : named_arg) (x : T) : Prop :=
  value_ok s a x /\ na_value a <> d /\ na_value a <> nm.

Lemma arg_ok_frame s s' d nm a x :
  precious s' = precious s ->
  (forall k t, k <> d -> k <> nm -> precious s !! t = Some k -> heap s' !! k = heap s !! k) ->
  arg_ok s d nm a x -> arg_ok s' d nm a x.
Proof.
  intros Hp Hk ((t & oa & ys & Ht & Ho & Hys & Hf) & Hd & Hn).
  split; [|done]. exists t, oa, ys. rewrite Hp, (Hk _ t) by done. by split_and!.
Qed.

(** [vector<T>(it->value())[0]] on a value of the kind. *)
Lemma first_value_run s a oa x ys :
  rstate_wf s -> heap s !! na_value a = Some oa -> ek_unpack (sx_data oa) = Some (x :: ys) ->
  altrep_fails oa = false ->
  (v <- vector_from (T := T) (na_value a);; subscript v 0%Z) s =
    Ok x (after_read (sx_altrep oa) s).
Proof.
  intros Hwf Ho Hys Hf. rewrite (run_bind_Ok _ _ _ _ _ (vector_from_run _ _ _ _ Hwf Ho Hys Hf)).
  destruct (read_elt_spec s (mk_vector (na_value a) R_NilValue (sx_altrep oa)
             (if sx_altrep oa then None else Some (na_value a, 0%Z)) (Z.of_nat (length (x :: ys))))
             oa (x :: ys) 0%Z) as (x' & Hx' & Hrun); [|simpl; lia|].
  - split; simpl; try done; try lia; by intros ->.
  - simpl in Hx'. injection Hx' as <-. exact Hrun.
Qed.

(** The loop, from index [i], over a data object [od] with elements [ys]
    and a names object [onm] with strings [ns]. *)
Lemma fill_named_run nm il : forall (xs : list T) i s (w : wvector) od (ys : list T) onm ns,
  rstate_wf s -> Forall2 (arg_ok s (data_ w) nm) il xs ->
  precious s !! protect_ w = Some (data_ w) -> data_p_ w = Some (data_ w, 0%Z) ->
  heap s !! data_ w = Some od -> ek_unpack (sx_data od) = Some ys -> sx_names od = nm ->
  nm <> data_ w -> heap s !! nm = Some onm -> sx_data onm = StrData ns ->
  (0 <= i)%Z -> Z.to_nat i + length il <= length ys -> Z.to_nat i + length il <= length ns ->
  exists s', fill_named il i nm (s, w) = Ok tt (s', w) /\ rstate_wf s' /\
    precious s' = precious s /\ cfg s' = cfg s /\
    heap s' !! data_ w = Some (mk_sexprec
      (ek_pack (take (Z.to_nat i) ys ++ xs ++ drop (Z.to_nat i + length il) ys))
      (sx_altrep od) (sx_altrep_fails od) nm) /\
    heap s' !! nm = Some (mk_sexprec
      (StrData (take (Z.to_nat i) ns ++ map (fun a => Some (na_name a)) il ++
                drop (Z.to_nat i + length il) ns))
      (sx_altrep onm) (sx_altrep_fails onm) (sx_names onm)) /\
    (forall k t, k <> data_ w -> k <> nm -> precious s !! t = Some k -> heap s' !! k = heap s !! k).
Proof.
  induction il as [|a il IH];
    intros xs i s w od ys onm ns Hwf Hargs Hp Hptr Hd Hys Hnm Hne Ho Hns Hi Hl1 Hl2.
  { inversion Hargs; subst. exists s. simpl. rewrite !Nat.add_0_r, !take_drop.
    split_and!; try done.
    - rewrite Hd, <- (ek_pack_unpack _ _ Hys). by destruct od.
    - rewrite Ho, <- Hns. by destruct onm. }
  inversion Hargs as [|? x ? xs' Ha Hargs']; subst.
  destruct Ha as ((t & oa & zs & Ht & Hoa & Hzs & Hfa) & Had & Han). simpl length in Hl1, Hl2.
  set (od1 := stored od ys (0 + i)%Z x).
  set (s1 := after_read (sx_altrep oa) s).
  set (s2 := set_heap (<[data_ w := od1]> (heap s1)) s1).
  set (s3 := collect [] s2).
  set (onm1 := mk_sexprec (StrData (<[Z.to_nat i := Some (na_name a)]> ns)) (sx_altrep onm)
                 (sx_altrep_fails onm) (sx_names onm)).
  set (s4 := set_heap (<[sx_names od := onm1]> (heap s3)) s3).
  assert (Hp2 : precious s2 = precious s) by (subst s2 s1; simpl; by autorewrite with cpp11_run).
  assert (Hd2 : heap s2 !! data_ w = Some od1) by (subst s2; simpl; apply lookup_insert_eq).
  assert (Hk3 : forall k t', precious s !! t' = Some k -> heap s3 !! k = heap s2 !! k).
  { intros k t' Hk. subst s3. rewrite <- Hp2 in Hk. exact (collect_keeps_protected _ _ _ _ Hk). }
  assert (Ho3 : heap s3 !! sx_names od = Some onm).
  { subst s3. rewrite <- Hp2 in Hp. change (sx_names od) with (sx_names od1). rewrite (collect_keeps_names _ _ _ _ (root_precious _ _ _ Hp []) Hd2).
    subst s2 s1. simpl. rewrite lookup_insert_ne by done. by rewrite heap_after_read. }
  assert (Hwf4 : rstate_wf s4).
  { apply wf_set_object with onm; [apply wf_collect|exact Ho3].
    apply wf_set_object with od; [by apply wf_after_read|unfold s1; by rewrite heap_after_read]. }
  assert (Hfr4 : forall k t', k <> data_ w -> k <> sx_names od -> precious s !! t' = Some k ->
                   heap s4 !! k = heap s !! k).
  { intros k t' Hk1 Hk2 Hk. subst s4. simpl. rewrite lookup_insert_ne by done.
    rewrite (Hk3 _ _ Hk). subst s2 s1. simpl. rewrite lookup_insert_ne by done.
    by rewrite heap_after_read. }
  destruct (IH xs' (i + 1)%Z s4 w od1 (<[Z.to_nat i := x]> ys) onm1 (<[Z.to_nat i := Some (na_name a)]> ns))
    as (s' & Hrun & Hwf' & Hp' & Hc' & Hd' & Ho' & Hfr');
    [done| | |done|subst s4; simpl; rewrite lookup_insert_ne by done; by rewrite (Hk3 _ _ Hp)| |done|done
     |subst s4; simpl; apply lookup_insert_eq|done|lia|rewrite length_insert; lia|rewrite length_insert; lia|].
  { eapply Forall2_impl; [exact Hargs'|]. intros a' x' Ha'.
    apply (arg_ok_frame s); [|exact Hfr4|exact Ha']. subst s4 s3. simpl. by rewrite precious_collect. }
  { subst s4 s3. simpl. rewrite precious_collect, Hp2. exact Hp. }
  { subst od1. simpl. apply ek_unpack_pack. }
  exists s'. cbn [fill_named].
  rewrite (bind_rt_Ok _ _ _ _ _ _ (first_value_run _ _ _ _ _ Hwf Hoa Hzs Hfa)).
  autorewrite with cpp11_run. rewrite Hptr.
  rewrite (bind_rt_Ok _ _ _ _ _ _ (ptr_write_run s1 _ od ltac:(unfold s1; by rewrite heap_after_read) ys 0%Z i x Hys ltac:(lia))).
  rewrite (bind_rt_Ok _ _ _ _ _ _ (Rf_mkCharCE_run _ _)).
  rewrite (bind_rt_Ok _ _ _ _ _ _ (SET_STRING_ELT_run s3 _ _ _ i (Some (na_name a)) Ho3 Hns ltac:(lia))).
  fold onm1. fold s4. rewrite Hrun.
  split_and!; try done.
  - rewrite Hp', <- Hp2. subst s4 s3. simpl. by rewrite precious_collect.
  - rewrite Hc'. subst s4 s3 s2 s1. by autorewrite with cpp11_run.
  - rewrite Hd'. replace (Z.to_nat (i + 1)) with (S (Z.to_nat i)) by lia.
    by rewrite splice_insert by lia.
  - rewrite Ho'. replace (Z.to_nat (i + 1)) with (S (Z.to_nat i)) by lia.
    rewrite splice_insert by lia. reflexivity.
  - intros k t' Hk1 Hk2 Hk. rewrite (Hfr' k t'); [by apply (Hfr4 _ t')|done|done|].
    subst s4 s3. simpl. rewrite precious_collect, Hp2. exact Hk.
Qed.

(** Everything before the loop: the data is allocated at the next
    handle, then, in the body, registered under the next token and given
    a fresh names vector of empty strings at the handle after it; the
    objects the caller protected are untouched. *)
Lemma ctor_named_prefix s (il : list named_arg) :
  rstate_wf s -> (Z.of_nat (length il) <= max_alloc s)%Z ->
  (Z.of_nat (length il) <= R_XLEN_T_MAX)%Z ->
  exists s1 s4 (v : vector) od (ys : list T),
    ctor_named il s = construct (mk_wvector v (Z.of_nat (length il)))
      (try_catch (unwind_protect (named_body il)) is_unwind named_handler) s1 /\
    named_body il (s1, mk_wvector v (Z.of_nat (length il))) =
      fill_named il 0%Z (next_sexp s + 2)%N
        (s4, w_set_protect (next_sexp s + 1)%N (mk_wvector v (Z.of_nat (length il)))) /\
    data_ v = next_sexp s /\ data_p_ v = Some (next_sexp s, 0%Z) /\ is_altrep_ v = false /\
    length_ v = Z.of_nat (length il) /\
    rstate_wf s4 /\ cfg s4 = cfg s /\ precious s !! (next_sexp s + 1)%N = None /\
    precious s4 = <[(next_sexp s + 1)%N := next_sexp s]> (precious s) /\
    heap s4 !! next_sexp s = Some od /\ ek_unpack (sx_data od) = Some ys /\
    length ys = length il /\ sx_altrep od = false /\ sx_names od = (next_sexp s + 2)%N /\
    heap s4 !! (next_sexp s + 2)%N =
      Some (mk_sexprec (StrData (replicate (length il) (Some ""))) false false R_NilValue) /\
    (forall t k o, precious s !! t = Some k -> heap s !! k = Some o -> heap s4 !! k = Some o).
Proof.
  intros Hwf Hmax Hlim.
  set (n := Z.of_nat (length il)).
  destruct (Rf_allocVector_spec (T := T) n s Hwf (alloc_fails_false n s ltac:(lia) Hlim Hmax))
    as (s1 & o & xs & Hrun1 & Hwf1 & Hh1 & Hxs & Hlen & Halt & Hnm & Hkeep1 & Hp1 & Hc1 & Hn1).
  assert (Hfo : altrep_fails o = false) by (unfold altrep_fails; by rewrite Halt).
  pose proof (wf_heap_not_nil _ _ _ Hwf1 Hh1) as Hnil1.
  destruct (protect_sexp_spec _ s1 Hwf1 Hnil1) as (s2 & Hrun2 & Hwf2 & Hp2 & Hheap2 & Hc2 & Hfresh & _ & Hn2).
  assert (Hnext2 : next_sexp s2 = (next_sexp s + 2)%N) by (rewrite Hn2, Hn1; lia).
  assert (Ht2 : forall t k, precious s !! t = Some k -> precious s2 !! t = Some k).
  { intros t k Ht. rewrite Hp2, lookup_insert_ne; [by rewrite Hp1|].
    intros <-. rewrite Hp1 in Hfresh. by rewrite Hfresh in Ht. }
  assert (Hd2 : precious s2 !! next_sexp s1 = Some (next_sexp s)) by (rewrite Hp2; apply lookup_insert_eq).
  destruct (alloc_object_spec (StrData (replicate (Z.to_nat n) (Some ""))) [] s2 Hwf2)
    as (s3 & Hrun3 & Hwf3 & Hnm3 & Hkeep3 & Hp3 & Hc3 & _).
  assert (Hh3 : heap s3 !! next_sexp s = Some o).
  { rewrite Hkeep3; [|eapply live_set_precious, Hd2|lia].
    rewrite Hheap2, collect_keeps_extra; [done|set_solver]. }
  set (o3 := mk_sexprec (sx_data o) (sx_altrep o) (sx_altrep_fails o) (next_sexp s2)).
  set (s4 := set_heap (<[next_sexp s := o3]> (heap (collect [next_sexp s; next_sexp s2] s3)))
               (collect [next_sexp s; next_sexp s2] s3)).
  assert (Hk4 : forall k, k <> next_sexp s -> heap s4 !! k = heap (collect [next_sexp s; next_sexp s2] s3) !! k).
  { intros k Hk. unfold s4. simpl. by rewrite lookup_insert_ne. }
  exists s1, s4, (mk_vector (next_sexp s) R_NilValue false (Some (next_sexp s, 0%Z))
                   (Z.of_nat (length xs))), o3, xs.
  split_and!; try done.
  - unfold ctor_named. rewrite (run_bind_Ok _ _ _ _ _ (safe_Ok _ _ _ _ Hrun1)).
    rewrite (run_bind_Ok _ _ _ _ _ (vector_from_run _ _ _ _ Hwf1 Hh1 Hxs Hfo)).
    by rewrite Halt.
  - unfold named_body. autorewrite with cpp11_run. cbn [data_ wbase capacity_].
    rewrite (bind_rt_Ok _ _ _ _ _ _ Hrun2). autorewrite with cpp11_run. cbn [capacity_].
    assert (Ha3 : alloc_fails n s2 = false).
    { apply alloc_fails_false; [lia|done|]. destruct (cfg_eq _ _ Hc2) as [-> _].
      destruct (cfg_eq _ _ Hc1) as [-> _]. lia. }
    assert (Hr3 : Rf_allocVector STRSXP n s2 = Ok (next_sexp s2) s3).
    { unfold Rf_allocVector. rewrite Ha3. exact Hrun3. }
    rewrite (bind_rt_Ok _ _ _ _ _ _ Hr3).
    rewrite (bind_rt_Ok _ _ _ _ _ _ (Rf_setAttrib_names_run _ _ _ _ Hh3)).
    rewrite (bind_rt_Ok _ _ _ _ _ _ (Rf_getAttrib_names_run s4 _ o3 ltac:(unfold s4; simpl; apply lookup_insert_eq))).
    cbn [sx_names o3]. by rewrite Hnext2, Hn1.
  - simpl. lia.
  - apply wf_set_object with o; [by apply wf_collect|].
    rewrite collect_keeps_extra; [done|set_solver].
  - unfold s4. by rewrite cfg_set_heap, cfg_collect, Hc3, Hc2, Hc1.
  - by rewrite <- Hp1, <- Hn1.
  - unfold s4. simpl. by rewrite precious_collect, Hp3, Hp2, Hp1, Hn1.
  - unfold s4. simpl. apply lookup_insert_eq.
  - apply (Nat2Z.inj _ _). rewrite Hlen. unfold n. lia.
  - rewrite Hk4 by lia. rewrite collect_keeps_extra by set_solver.
    rewrite <- Hnext2, Hnm3. unfold n. by rewrite Nat2Z.id.
  - intros t k o' Ht Hk. pose proof (wf_heap_lt _ _ _ Hwf Hk).
    rewrite Hk4 by lia. rewrite (collect_keeps_protected _ _ t k) by (rewrite Hp3; by apply Ht2).
    rewrite Hkeep3; [|eapply live_set_precious, Ht2, Ht|lia].
    rewrite Hheap2, (collect_keeps_protected _ _ t k) by (rewrite Hp1; exact Ht).
    rewrite Hkeep1; [done|eapply live_set_precious, Ht|lia].
Qed.

End NamedFill.

(** ** The constructor on values of the kind *)

Section NamedSuccess.
Context `{ElemKind T}.

(** C7: when every value of the named list is a live, protected object of
    the kind with a first element, and the allocator has room for the
    list, the named-list constructor returns a vector satisfying the
    writable invariant: it holds the first elements of the values, in
    order, with length and capacity the list's size; its data is
    registered under one fresh token (the only change to the precious
    list); and its names attribute holds the arguments' names, in
    order. *)
Theorem ctor_named_spec s (il : list named_arg) (xs : list T) :
  rstate_wf s -> Forall2 (value_ok s) il xs ->
  (Z.of_nat (length il) <= max_alloc s)%Z -> (Z.of_nat (length il) <= R_XLEN_T_MAX)%Z ->
  exists s' w, ctor_named il s = Ok w s' /\ wv_ok s' w /\ contents s' w = Some xs /\
    length_ w = Z.of_nat (length il) /\ capacity_ w = Z.of_nat (length il) /\
    precious s !! protect_ w = None /\ precious s' = <[protect_ w := data_ w]> (precious s) /\
    exists od onm, heap s' !! data_ w = Some od /\ heap s' !! sx_names od = Some onm /\
      sx_data onm = StrData (map (fun a => Some (na_name a)) il).
Proof.
  intros Hwf Hargs Hmax Hlim. pose proof (Forall2_length _ _ _ Hargs) as Hlxs.
  destruct (ctor_named_prefix s il Hwf Hmax Hlim)
    as (s1 & s4 & v & od & ys & Hc & Hb & Hd & Hptr & Halt & Hl & Hwf4 & Hc4 & Hfr & Hp4 & Hod
        & Hys & Hlys & Hodalt & Hnm & Hns & Hkeep).
  destruct (fill_named_run (next_sexp s + 2)%N il xs 0%Z s4
              (w_set_protect (next_sexp s + 1)%N (mk_wvector v (Z.of_nat (length il)))) od ys
              (mk_sexprec (StrData (replicate (length il) (Some ""))) false false R_NilValue)
              (replicate (length il) (Some "")) Hwf4) as (s' & Hrun & Hwf' & Hp' & Hc' & Hd' & Ho' & _);
    cbn [data_ wbase w_set_protect protect_ data_p_]; rewrite ?Hd, ?Hptr;
    [|by rewrite Hp4, lookup_insert_eq|done|exact Hod|exact Hys|exact Hnm|lia|exact Hns|done|lia
     |simpl; lia|simpl; rewrite length_replicate; lia|].
  { eapply Forall2_impl; [exact Hargs|]. intros a x (t & oa & zs & Ht & Hoa & Hzs & Hf).
    pose proof (wf_heap_lt _ _ _ Hwf Hoa). split; [|lia].
    exists t, oa, zs. rewrite Hp4, lookup_insert_ne, (Hkeep _ _ _ Ht Hoa); [by split_and!|].
    intros <-. by rewrite Hfr in Ht. }
  cbn [data_ wbase w_set_protect] in Hd'. rewrite Hd in Hd'. change (Z.to_nat 0) with 0%nat in Hd', Ho'.
  rewrite splice_whole in Hd' by lia. rewrite splice_whole in Ho' by (rewrite length_replicate; lia).
  exists s', (w_set_protect (next_sexp s + 1)%N (mk_wvector v (Z.of_nat (length il)))).
  rewrite Hc. unfold construct, try_catch, unwind_protect, jump_to. rewrite Hb, Hrun.
  cbn [data_ wbase w_set_protect protect_ length_ capacity_ is_altrep_ data_p_]. rewrite Hd.
  split_and!; try done.
  - unfold wv_ok. cbn [data_ wbase w_set_protect protect_ length_ capacity_ is_altrep_ data_p_].
    rewrite Hl. split_and!; [done|lia|lia|lia|right].
    eexists _, xs. split; cbn [data_ wbase w_set_protect protect_ is_altrep_ data_p_ capacity_]; rewrite ?Hd.
    + exact Hd'.
    + apply ek_unpack_pack.
    + lia.
    + by rewrite Hp', Hp4, lookup_insert_eq.
    + right. simpl. by rewrite Ho'.
    + simpl. by rewrite Hodalt.
    + intros _. exact Hptr.
  - unfold contents. cbn [data_ wbase w_set_protect length_]. rewrite ?Hd, ?Hl.
    rewrite decide_False by (eapply wf_heap_not_nil; [exact Hwf'|exact Hd']).
    rewrite Hd'. simpl. rewrite ek_unpack_pack. simpl. by rewrite take_ge by lia.
  - by rewrite Hp', Hp4.
  - eexists _, _. split_and!; [exact Hd'|exact Ho'|done].
Qed.

End NamedSuccess.

(** ** A value of the wrong type

    The body catches only [unwind_exception].  [vector<T>(it->value())]
    throws [type_error] for a value of another type: the handler does not
    run, the constructor never completes (so no destructor runs), and the
    token [protect_sexp] registered stays in the precious list. *)

Section WrongType.
Context `{ElemKind T}.

(** C6: when the first value of a named list has another type than the
    vector's (the value itself protected, as [named_arg] keeps it), the
    named-list constructor throws [type_error] out of the [try] and
    leaves the fresh token of the new data registered: a leak. *)
Theorem ctor_named_type_error_leak s (a : named_arg) (il' : list named_arg) t0 o0 :
  rstate_wf s -> precious s !! t0 = Some (na_value a) ->
  heap s !! na_value a = Some o0 -> payload_type (sx_data o0) <> ek_sexptype ->
  (Z.of_nat (length (a :: il')) <= max_alloc s)%Z ->
  (Z.of_nat (length (a :: il')) <= R_XLEN_T_MAX)%Z ->
  exists s' tok, ctor_named (T := T) (a :: il') s =
      Throw (type_error ek_sexptype (payload_type (sx_data o0))) s' /\
    precious s !! tok = None /\ precious s' !! tok = Some (next_sexp s).
Proof.
  intros Hwf Ht0 Ho0 Hty Hmax Hlim.
  destruct (ctor_named_prefix s (a :: il') Hwf Hmax Hlim)
    as (s1 & s4 & v & od & ys & Hc & Hb & _ & _ & _ & _ & _ & _ & Hfr & Hp4 & _ & _ & _ & _ & _ & _ & Hkeep).
  exists s4, (next_sexp s + 1)%N. split_and!; [|done|by rewrite Hp4, lookup_insert_eq].
  assert (Hthrow : (v <- vector_from (T := T) (na_value a);; subscript v 0%Z) s4 =
                   Throw (type_error ek_sexptype (payload_type (sx_data o0))) s4).
  { apply run_bind_Throw, vector_from_type_error; [|done].
    exact (TYPEOF_live _ _ _ (wf_heap_not_nil _ _ _ Hwf Ho0) (Hkeep _ _ _ Ht0 Ho0)). }
  rewrite Hc. unfold construct, try_catch, unwind_protect, jump_to. rewrite Hb.
  cbn [fill_named]. by rewrite (run_bind_Throw _ _ _ _ _ (rt_Throw _ _ _ _ _ Hthrow)).
Qed.
End WrongType.
