(* ===== verification/Sequences.v ===== *)
(** * Sequences of operations on a writable vector

    What a caller sees over many calls: pushing the elements of a list one by one
    from the default-constructed vector leaves exactly that list, every
    element readable by [at] in order, with the capacity the doubling
    policy gives, and the vector holding exactly one protection token
    while the rest of the precious list is untouched; and after the
    destructor the precious list is exactly what it was before the
    vector was made. *)

From S2P Require Import Prelude Runtime RuntimeFacts Vector Access Writable.

Section Sequences.
Context `{ElemKind T}.

(** The client loop [for (auto x : xs) v.push_back(x);]. *)
Fixpoint push_all (xs : list T) : VM unit :=
  match xs with
  | [] => ret tt
  | x :: xs' => push_back x;; push_all xs'
  end.

(** The capacity the doubling policy leaves: none for an empty vector,
    otherwise less than twice the length. *)
Definition doubling_inv (w : wvector) : Prop :=
  (length_ w = 0 /\ capacity_ w = 0)%Z \/
  (0 < length_ w <= capacity_ w /\ capacity_ w < 2 * length_ w)%Z.

(** One step of the doubling policy. *)
Lemma doubling_inv_push (w w' : wvector) :
  doubling_inv w -> length_ w' = (length_ w + 1)%Z ->
  capacity_ w' = (if (length_ w <? capacity_ w)%Z then capacity_ w
                  else growth_cap (capacity_ w)) ->
  doubling_inv w'.
Proof.
  unfold doubling_inv, growth_cap. intros Hd Hl Hc. right.
  destruct (Z.ltb_spec (length_ w) (capacity_ w));
    [|destruct (decide (capacity_ w = 0%Z))]; lia.
Qed.

(** With room for the doubled capacity, the next push can grow. *)
Lemma doubling_can_grow s (w : wvector) k :
  doubling_inv w -> (0 < k)%Z ->
  (2 * (length_ w + k) <= max_alloc s)%Z -> (2 * (length_ w + k) <= R_XLEN_T_MAX)%Z ->
  can_grow s w.
Proof.
  unfold doubling_inv, can_grow, growth_cap. intros Hd Hk Hm Hx.
  destruct (Z.ltb_spec (length_ w) (capacity_ w)); [by left|right].
  destruct (decide (capacity_ w = 0%Z)); lia.
Qed.

(** Pushing a list onto a vector satisfying the invariant and the
    doubling policy, when the allocator has room for it. *)
Lemma push_all_correct xs s (w : wvector) :
  wv_ok s w -> healthy s w -> doubling_inv w ->
  (2 * (length_ w + Z.of_nat (length xs)) <= max_alloc s)%Z ->
  (2 * (length_ w + Z.of_nat (length xs)) <= R_XLEN_T_MAX)%Z ->
  exists s' w', push_all xs (s, w) = Ok tt (s', w') /\ wv_ok s' w' /\ healthy s' w' /\
    doubling_inv w' /\ length_ w' = (length_ w + Z.of_nat (length xs))%Z /\
    cfg s' = cfg s /\ contents s' w' = (fun l => l ++ xs) <$> contents s w /\
    delete (protect_ w') (precious s') = delete (protect_ w) (precious s).
Proof.
  revert s w. induction xs as [|x xs IH]; intros s w Hok Hh Hd Hm Hx.
  { exists s, w. simpl. rewrite Z.add_0_r. split_and!; try done.
    destruct (contents s w); simpl; by rewrite ?app_nil_r. }
  simpl length in Hm, Hx.
  destruct (push_back_correct s w x) as (s1 & w1 & Hrun & Hok1 & Hh1 & Hl1 & _ & Hcf1 & Hc1 & Hcap1 & Hfr1);
    [done|done|eapply doubling_can_grow; [done| |exact Hm|exact Hx]; lia|].
  destruct (IH s1 w1) as (s2 & w2 & Hrun2 & Hok2 & Hh2 & Hd2 & Hl2 & Hcf2 & Hc2 & Hfr2);
    [done|done|by eapply doubling_inv_push| | |].
  { rewrite Hl1. destruct (cfg_eq _ _ Hcf1) as [-> _]. lia. }
  { rewrite Hl1. lia. }
  exists s2, w2. simpl. rewrite (run_bind_Ok _ _ _ _ _ Hrun).
  split_and!; try done; try congruence.
  - rewrite Hl2, Hl1. lia.
  - rewrite Hc2, Hc1. destruct (contents s w); simpl; by rewrite <- ?app_assoc.
Qed.

(** A non-empty vector satisfying the invariant holds its token. *)
Lemma wv_ok_registered s (w : wvector) :
  wv_ok (T := T) s w -> (0 < length_ w)%Z -> precious s !! protect_ w = Some (data_ w).
Proof. intros (_ & Hb & _ & [(_ & Hc0 & _)|(o & xs & Hl)]) Hp; [lia|apply Hl]. Qed.

(** C8: pushing the elements of [xs] one by one onto the default-constructed
    vector, when the allocator has room for twice as many: every push
    returns; the vector holds exactly [xs], each element read back by
    [at] at its index, with the invariant and the doubling policy's
    capacity; the vector holds one token for its data (none when [xs] is
    empty) and the rest of the precious list is as it was. *)
Theorem push_all_from_empty what s (xs : list T) :
  rstate_wf s -> (2 * Z.of_nat (length xs) <= max_alloc s)%Z ->
  (2 * Z.of_nat (length xs) <= R_XLEN_T_MAX)%Z ->
  exists s' w', push_all xs (s, empty_wvector) = Ok tt (s', w') /\
    wv_ok s' w' /\ doubling_inv w' /\ contents s' w' = Some xs /\
    length_ w' = Z.of_nat (length xs) /\
    (forall i x, xs !! i = Some x ->
       at_ what w' (Z.of_nat i) s' = Ok x (after_read (is_altrep_ w') s')) /\
    delete (protect_ w') (precious s') = precious s /\
    (xs <> [] -> precious s' !! protect_ w' = Some (data_ w')).
Proof.
  intros Hwf Hm Hx.
  destruct (push_all_correct xs s empty_wvector) as (s' & w' & Hrun & Hok & Hh & Hd & Hl & _ & Hc & Hfr);
    [by apply empty_wvector_ok|by apply empty_wvector_healthy|left; by split|simpl; lia|simpl; lia|].
  rewrite (contents_nil s empty_wvector) in Hc by done. simpl in Hc, Hl.
  exists s', w'. split_and!; try done.
  - intros i x Hi. pose proof (lookup_lt_Some _ _ _ Hi).
    destruct (at_contents what s' w' xs (Z.of_nat i) Hok Hh Hc) as (y & Hy & Hat); [lia|].
    rewrite Nat2Z.id, Hi in Hy. by injection Hy as <-.
  - rewrite Hfr. apply delete_id, (wf_prec_nil _ Hwf).
  - intros Hne. apply wv_ok_registered; [done|].
    destruct xs; [done|simpl in Hl; lia].
Qed.

(** The destructor of a vector satisfying the invariant releases its
    token (if any) and nothing else. *)
Lemma destroy_restores s (w : wvector) :
  wv_ok (T := T) s w ->
  exists s', destroy (s, w) = Ok tt (s', w) /\ precious s' = delete (protect_ w) (precious s).
Proof.
  intros (Hwf & _ & _ & [(_ & _ & Hp0)|(o & ys & Hl)]); unfold destroy; autorewrite with cpp11_run.
  - rewrite Hp0, (rt_Ok _ _ _ _ _ (release_protect_nil _)). exists s. split; [done|].
    by rewrite (delete_id _ _ (wf_prec_nil _ Hwf)).
  - destruct (release_protect_spec _ _ _ Hwf (wl_prot _ _ _ _ Hl)) as [Hrel _].
    eexists. split; [exact (rt_Ok _ _ _ _ _ Hrel)|done].
Qed.

(** C9: the whole life of a vector: default construction, one [push_back]
    per element of [xs] (with room for twice as many) and the destructor
    all return, and the precious list ends as it started: every token a
    reallocation registered was released, the last one by the
    destructor. *)
Theorem push_all_destroy_no_leak s (xs : list T) :
  rstate_wf s -> (2 * Z.of_nat (length xs) <= max_alloc s)%Z ->
  (2 * Z.of_nat (length xs) <= R_XLEN_T_MAX)%Z ->
  exists s' w' s'', push_all xs (s, empty_wvector) = Ok tt (s', w') /\
    destroy (s', w') = Ok tt (s'', w') /\ precious s'' = precious s.
Proof.
  intros Hwf Hm Hx.
  destruct (push_all_correct xs s empty_wvector) as (s' & w' & Hrun & Hok & _ & _ & _ & _ & _ & Hfr);
    [by apply empty_wvector_ok|by apply empty_wvector_healthy|left; by split|simpl; lia|simpl; lia|].
  cbn [protect_ wbase empty_wvector] in Hfr. rewrite (delete_id _ _ (wf_prec_nil _ Hwf)) in Hfr.
  destruct (destroy_restores s' w' Hok) as (s'' & Hd & Hp).
  exists s', w', s''. split_and!; [done|done|by rewrite Hp].
Qed.

End Sequences.
