(* ===== verification/Lifecycle.v ===== *)
(** * The life of a writable vector among other R code

    Between its construction and its destruction a writable vector sees
    its member calls ([push_back], [reserve], stores through the proxy of
    [operator[]]) interleaved with allocations by other R code, each of
    which may run the collector.  [op] lists these events, [exec] runs one
    of them on the state (runtime and object), and [enabled] is the
    condition under which the caller expects it to succeed (the allocator
    has room, the index is in range).  [steps st0 os st]: from [st0] the
    events [os], each enabled and each returning, lead to [st];
    [runs s0] is [steps] from the default-constructed vector in runtime
    [s0].

    The theorems: every state [runs] reaches satisfies the writable
    invariant, with exactly one token of its own and the rest of the
    precious list as in [s0] (rule induction); its contents are those of
    the abstract list model [abs_run os] (a refinement); every enabled
    event can be taken (progress); and from every reachable state the
    destructor restores the precious list of [s0]. *)

From S2P Require Import Prelude Runtime RuntimeFacts Vector Access Writable Proxy Sequences.

(** ** The events of a vector's life *)

(** A member call on the vector, or an allocation by other R code. *)
Inductive op (T : Type) :=
| op_push (x : T)
| op_reserve (n : R_xlen_t)
| op_assign (pos : R_xlen_t) (x : T)
| op_alloc (t : SEXPTYPE) (n : R_xlen_t).
Arguments op_push {T} x.
Arguments op_reserve {T} n.
Arguments op_assign {T} pos x.
Arguments op_alloc {T} t n.

Section Life.
Context `{ElemKind T}.

(** One event: [v.push_back(x)], [v.reserve(n)], [v[pos] = x] (the store
    of the proxy [operator[]] returns), or [Rf_allocVector(t, n)] run by
    other code. *)
Definition exec (o : op T) : VM unit :=
  match o with
  | op_push x => push_back x
  | op_reserve n => reserve n
  | op_assign pos x => w <- this;; rt (proxy_assign (proxy_at w pos) x)
  | op_alloc t n => _ <- rt (Rf_allocVector t n);; ret tt
  end.

(** [can_grow], decided. *)
Definition can_growb (s : rstate) (w : wvector) : bool :=
  (length_ w <? capacity_ w)%Z ||
  ((growth_cap (capacity_ w) <=? max_alloc s) && (growth_cap (capacity_ w) <=? R_XLEN_T_MAX))%Z.

(** When the caller expects the event to return: the allocator has room
    for the growth or the allocation, the new capacity holds the
    elements, the index is in range, the type is a vector type. *)
Definition enabled (o : op T) (st : rstate * wvector) : bool :=
  match o with
  | op_push _ => can_growb st.1 st.2
  | op_reserve n =>
      (length_ st.2 <=? n)%Z && (n <=? R_XLEN_T_MAX)%Z && (n <=? max_alloc st.1)%Z
  | op_assign pos _ => (0 <=? pos)%Z && (pos <? length_ st.2)%Z
  | op_alloc t n => negb (alloc_fails n st.1) && bool_decide (t <> NILSXP)
  end.

(** The abstract model: the vector is the list of its elements. *)
Definition abs_op (o : op T) (l : list T) : list T :=
  match o with
  | op_push x => l ++ [x]
  | op_reserve _ => l
  | op_assign pos x => <[Z.to_nat pos := x]> l
  | op_alloc _ _ => l
  end.

(** The list after the events [os], from the list [l]. *)
Definition abs_from (l : list T) (os : list (op T)) : list T := foldl (fun l o => abs_op o l) l os.
Definition abs_run (os : list (op T)) : list T := abs_from [] os.

(** The states reached from [st0] by the events [os], each enabled and
    each returning. *)
Inductive steps (st0 : rstate * wvector) : list (op T) -> rstate * wvector -> Prop :=
| steps_nil : steps st0 [] st0
| steps_snoc os o st st' :
    steps st0 os st -> enabled o st = true -> exec o st = Ok tt st' -> steps st0 (os ++ [o]) st'.

(** The states reached from the default-constructed vector in [s0]. *)
Definition runs (s0 : rstate) : list (op T) -> rstate * wvector -> Prop :=
  steps (s0, empty_wvector).

(** The same, executed: [None] when an event is not enabled or does not
    return. *)
Fixpoint run_from (st : rstate * wvector) (os : list (op T)) : option (rstate * wvector) :=
  match os with
  | [] => Some st
  | o :: os' =>
      if enabled o st then
        match exec o st with Ok _ st' => run_from st' os' | _ => None end
      else None
  end.

(** What every reachable state satisfies. *)
Definition lc_inv (s0 : rstate) (st : rstate * wvector) : Prop :=
  wv_ok (T := T) st.1 st.2 /\ healthy st.1 st.2 /\ cfg st.1 = cfg s0 /\
  delete (protect_ st.2) (precious st.1) = precious s0.

End Life.

(** ** Allocations by other R code *)

Section Foreign.
Context `{ElemKind T}.

(** An allocation elsewhere in R, with the collection it may run, frees
    nothing the vector relies on: its data is protected and its names are
    those of a protected object. *)
Lemma wv_ok_alloc s (w : wvector) t n h s' :
  wv_ok (T := T) s w -> healthy s w -> Rf_allocVector t n s = Ok h s' ->
  wv_ok (T := T) s' w /\ healthy s' w /\ contents (T := T) s' w = contents s w /\
  precious s' = precious s /\ cfg s' = cfg s.
Proof.
  intros Hok Hh Hrun. pose proof Hok as (Hwf & Hb & Hcap & Hlv).
  unfold Rf_allocVector in Hrun. destruct (alloc_fails n s); [discriminate|].
  destruct (init_payload t (Z.to_nat n) s) as [p|]; [|discriminate].
  destruct (alloc_object_spec p [] s Hwf) as (s'' & Hr & Hwf' & _ & Hkeep & Hp & Hc & _).
  rewrite Hr in Hrun. injection Hrun as <- <-.
  assert (Hk : forall k o, heap s !! k = Some o -> k ∈ live_set [] s -> heap s'' !! k = Some o).
  { intros k o Ho Hl. pose proof (wf_heap_lt _ _ _ Hwf Ho). rewrite Hkeep; [done|done|lia]. }
  destruct Hlv as [Hnil|(o & xs & Hl)].
  - pose proof Hnil as (Hd & _ & _).
    assert (Hok' : wv_ok (T := T) s'' w) by (split; [done|]; split; [done|]; split; [done|by left]).
    split; [done|]. split; [|by rewrite !contents_nil].
    intros o Ho. by rewrite Hd, (wf_heap_nil _ Hwf') in Ho.
  - pose proof (wl_obj _ _ _ _ Hl) as Ho. pose proof (wl_prot _ _ _ _ Hl) as Hpr.
    pose proof (wf_heap_not_nil _ _ _ Hwf Ho) as Hnil.
    assert (Ho' : heap s'' !! data_ w = Some o) by (apply Hk; [done|eapply live_set_precious, Hpr]).
    assert (Hl' : wv_live s'' w o xs).
    { destruct Hl as [_ Hxs Hcp Hpr' Hn' Halt Hptr].
      split; [exact Ho'|exact Hxs|exact Hcp|by rewrite Hp|destruct Hn' as [Hn|[on Hn]]|exact Halt|exact Hptr];
        [by left|right].
      exists on. apply Hk; [done|]. eapply live_set_names; [apply (root_precious _ _ _ Hpr)|exact Ho]. }
    split_and!; try done.
    + exact (wv_ok_live _ _ _ _ Hwf' Hb Hcap Hl').
    + intros o1 Ho1. rewrite Ho' in Ho1. injection Ho1 as <-. by apply Hh.
    + rewrite (contents_live _ _ _ _ Ho' (wl_elts _ _ _ _ Hl) Hnil).
      by rewrite (contents_live _ _ _ _ Ho (wl_elts _ _ _ _ Hl) Hnil).
Qed.

End Foreign.

(** ** One event *)

Section Step.
Context `{ElemKind T}.

Lemma can_growb_spec s (w : wvector) : can_growb s w = true -> can_grow s w.
Proof.
  unfold can_growb, can_grow. intros [Hlt|[Hm Hx]%andb_true_iff]%orb_true_iff; [left; lia|right; lia].
Qed.

(** An allocation of a vector type the allocator accepts returns. *)
Lemma Rf_allocVector_ok t n s :
  alloc_fails n s = false -> t <> NILSXP -> exists h s', Rf_allocVector t n s = Ok h s'.
Proof. intros Hf Ht. unfold Rf_allocVector. rewrite Hf. destruct t; try done; eauto. Qed.

(** An enabled event returns, keeps the invariant and the allocator's
    settings, trades at most the vector's own token, and acts on the
    contents as the abstract model says. *)
Lemma exec_step s (w : wvector) (o : op T) :
  wv_ok (T := T) s w -> healthy s w -> enabled o (s, w) = true ->
  exists s' w', exec o (s, w) = Ok tt (s', w') /\ wv_ok (T := T) s' w' /\ healthy s' w' /\
    cfg s' = cfg s /\ delete (protect_ w') (precious s') = delete (protect_ w) (precious s) /\
    contents (T := T) s' w' = abs_op o <$> contents s w.
Proof.
  intros Hok Hh Hen. destruct o as [x|n|pos x|t n]; cbn [enabled fst snd] in Hen.
  - destruct (push_back_correct s w x Hok Hh (can_growb_spec _ _ Hen))
      as (s' & w' & Hrun & Hok' & Hh' & _ & _ & Hc & Hcont & _ & Hfr).
    exists s', w'. by split_and!.
  - apply andb_true_iff in Hen as [[Hn1 Hn2]%andb_true_iff Hn3].
    destruct (reserve_correct s w n Hok Hh ltac:(lia) ltac:(lia))
      as (s' & w' & Hrun & Hok' & Hh' & _ & _ & _ & Hcont & Hc & Hfresh & Hp).
    exists s', w'. split_and!; try done.
    + rewrite Hp. by apply delete_insert_fresh.
    + rewrite Hcont. by destruct (contents s w).
  - apply andb_true_iff in Hen as [Hp1 Hp2].
    destruct (proxy_assign_correct s w pos x Hok Hh ltac:(lia))
      as (s' & Hrun & Hok' & Hh' & Hcont & Hc & Hp & _).
    exists s', w. cbn [exec]. rewrite bind_this, (rt_Ok _ _ _ _ _ Hrun).
    split_and!; try done. by rewrite Hp.
  - apply andb_true_iff in Hen as [Hf Ht]. apply negb_true_iff in Hf.
    apply bool_decide_eq_true in Ht.
    destruct (Rf_allocVector_ok t n s Hf Ht) as (h & s' & Ha).
    destruct (wv_ok_alloc s w t n h s' Hok Hh Ha) as (Hok' & Hh' & Hcont & Hp & Hc).
    exists s', w. cbn [exec]. rewrite (bind_rt_Ok _ _ _ _ _ _ Ha).
    split_and!; try done; [by rewrite Hp|]. rewrite Hcont. by destruct (contents s w).
Qed.

End Step.

(** ** Reachable states *)

Section Reachable.
Context `{ElemKind T}.

Lemma abs_from_snoc l (os : list (op T)) o : abs_from l (os ++ [o]) = abs_op o (abs_from l os).
Proof. unfold abs_from. by rewrite foldl_app. Qed.

(** The simulation, from any state satisfying the invariant: the
    invariant, the settings, the registry outside the vector's own token
    and the abstract contents, by induction on the steps. *)
Lemma steps_sim st0 (os : list (op T)) st l :
  wv_ok (T := T) st0.1 st0.2 -> healthy st0.1 st0.2 -> contents (T := T) st0.1 st0.2 = Some l ->
  steps st0 os st ->
  wv_ok (T := T) st.1 st.2 /\ healthy st.1 st.2 /\ cfg st.1 = cfg st0.1 /\
  delete (protect_ st.2) (precious st.1) = delete (protect_ st0.2) (precious st0.1) /\
  contents (T := T) st.1 st.2 = Some (abs_from l os).
Proof.
  intros Hok0 Hh0 Hc0. induction 1 as [|os o [s w] st' Hr IH Hen Hex].
  { exact (conj Hok0 (conj Hh0 (conj eq_refl (conj eq_refl Hc0)))). }
  destruct IH as (Hok & Hh & Hc & Hfr & Hcont). cbn [fst snd] in *.
  destruct (exec_step s w o Hok Hh Hen) as (s' & w' & Hex' & Hok' & Hh' & Hc' & Hfr' & Hcont').
  rewrite Hex in Hex'. injection Hex' as ->. cbn [fst snd].
  refine (conj Hok' (conj Hh' (conj _ (conj _ _)))); [congruence|congruence|].
  by rewrite Hcont', Hcont, abs_from_snoc.
Qed.

(** From the default-constructed vector. *)
Lemma runs_sim s0 os st :
  rstate_wf s0 -> runs (T := T) s0 os st ->
  lc_inv s0 st /\ contents (T := T) st.1 st.2 = Some (abs_run os).
Proof.
  intros Hwf0 Hr.
  destruct (steps_sim (s0, empty_wvector) os st [] (empty_wvector_ok _ Hwf0)
              (empty_wvector_healthy _ Hwf0) (contents_nil s0 empty_wvector eq_refl) Hr) as (Hok & Hh & Hc & Hfr & Hcont).
  split; [|exact Hcont]. refine (conj Hok (conj Hh (conj Hc _))).
  rewrite Hfr. apply delete_id, (wf_prec_nil _ Hwf0).
Qed.

(** The executed run is a run. *)
Lemma run_from_steps st0 os st os' st' :
  steps (T := T) st0 os st -> run_from st os' = Some st' -> steps st0 (os ++ os') st'.
Proof.
  revert os st. induction os' as [|o os' IH]; intros os st Hr Hrun; cbn [run_from] in Hrun.
  - injection Hrun as <-. by rewrite app_nil_r.
  - destruct (enabled o st) eqn:Hen; [|done].
    destruct (exec o st) as [[] st1| | | |] eqn:Hex; try done.
    rewrite (cons_middle o os os'), app_assoc. apply (IH _ st1); [|done].
    by eapply steps_snoc.
Qed.

End Reachable.

(** ** What every reachable state satisfies *)

Section Claims.
Context `{ElemKind T}.

(** C10: invariant: after any sequence of enabled events that returned,
    interleaving member calls with allocations by other R code (each may
    collect), the vector satisfies the writable invariant, its ALTREP
    methods do not fail, the allocator's settings are those of [s0], and
    the precious list is that of [s0] plus at most the vector's own
    token. *)
Theorem runs_invariant s0 (os : list (op T)) s (w : wvector) :
  rstate_wf s0 -> runs s0 os (s, w) ->
  wv_ok (T := T) s w /\ healthy s w /\ cfg s = cfg s0 /\
  delete (protect_ w) (precious s) = precious s0.
Proof. intros Hwf0 Hr. exact (proj1 (runs_sim s0 os (s, w) Hwf0 Hr)). Qed.

(** C11: refinement: the vector reached by the events [os] holds exactly
    the list the abstract model computes from [os] ([push_back] appends,
    [reserve] and other allocations change nothing, a store through
    the proxy replaces one element): the contents, the length and every
    element [at] reads agree with [abs_run os]. *)
Theorem runs_refines what s0 (os : list (op T)) s (w : wvector) :
  rstate_wf s0 -> runs s0 os (s, w) ->
  contents (T := T) s w = Some (abs_run os) /\ length_ w = Z.of_nat (length (abs_run os)) /\
  forall i x, abs_run os !! i = Some x ->
    at_ what w (Z.of_nat i) s = Ok x (after_read (is_altrep_ w) s).
Proof.
  intros Hwf0 Hr. destruct (runs_sim s0 os (s, w) Hwf0 Hr) as ((Hok & Hh & _) & Hc).
  cbn [fst snd] in *. pose proof (contents_length s w _ Hok Hc) as Hl.
  pose proof Hok as (_ & Hb & _). split_and!; [done|lia|].
  intros i x Hi. pose proof (lookup_lt_Some _ _ _ Hi).
  destruct (at_contents what s w _ (Z.of_nat i) Hok Hh Hc) as (y & Hy & Hat); [lia|].
  rewrite Nat2Z.id, Hi in Hy. by injection Hy as <-.
Qed.

(** C12: progress: in every reachable state, every enabled event returns
    normally (no exception, no R error, no undefined behaviour), and the
    run goes on. *)
Theorem runs_progress s0 (os : list (op T)) st o :
  rstate_wf s0 -> runs s0 os st -> enabled o st = true ->
  exists st', exec o st = Ok tt st' /\ runs s0 (os ++ [o]) st'.
Proof.
  intros Hwf0 Hr Hen. destruct st as [s w].
  destruct (runs_sim s0 os (s, w) Hwf0 Hr) as ((Hok & Hh & _) & _).
  destruct (exec_step s w o Hok Hh Hen) as (s' & w' & Hex & _).
  exists (s', w'). split; [done|]. by eapply steps_snoc.
Qed.

(** C13: from every reachable state the destructor returns and the
    precious list is again exactly that of [s0]: whatever the events, the
    vector leaves no token behind. *)
Theorem runs_destroy_restores s0 (os : list (op T)) st :
  rstate_wf s0 -> runs s0 os st ->
  exists s', destroy st = Ok tt (s', st.2) /\ precious s' = precious s0.
Proof.
  intros Hwf0 Hr. destruct st as [s w].
  destruct (runs_sim s0 os (s, w) Hwf0 Hr) as ((Hok & _ & _ & Hfr) & _).
  destruct (destroy_restores s w Hok) as (s' & Hd & Hp).
  exists s'. split; [done|]. by rewrite Hp.
Qed.

End Claims.
