(* ===== verification/Iterator.v ===== *)
(** * The block iterator: [vector<T>::const_iterator]

    The iterator of [vector.hpp] (modelled from the specification,
    section 4.4) holds the vector, its position and a buffer of up to 64
    elements with the index the buffer starts at.  On an ALTREP vector a
    dereference outside the buffered block refills it with one region
    read, through the specialisation's [fill_buf] ([doubles.hpp],
    [logicals.hpp]); on a vector with a direct pointer it reads the
    slot.

    [BlockRead] is the interface between the template and the
    specialisations: what a [fill_buf] promises on a readable vector.
    The theorems are proved against it: a traversal yields what the loop
    of [operator[]] yields, with one region read per block of 64 instead
    of one element call per element; and for any history of
    [operator*] and [operator++] the buffered block stays within the
    vector and holds its elements ([window_ok]). *)

From S2P Require Import Prelude Runtime RuntimeFacts Vector Access.

(** The iterator's fields; [it_length_] is the iterator's [length_], the
    number of valid elements of [buf_]. *)
Record const_iterator (T : Type) := mk_iter {
  it_data_ : vector;
  pos_ : R_xlen_t;
  buf_ : list T;
  block_start_ : R_xlen_t;
  it_length_ : R_xlen_t
}.
Arguments mk_iter {T}.
Arguments it_data_ {T}.
Arguments pos_ {T}.
Arguments buf_ {T}.
Arguments block_start_ {T}.
Arguments it_length_ {T}.

(** The buffer's size, [std::array<T, 64>]. *)
Definition BUF_SIZE : R_xlen_t := 64%Z.

(** The iterator after a refill at [pos] of a vector with elements [xs]:
    [length_ = min(64, size - pos)], the block read, [block_start_ = pos]. *)
Definition fill_result `{ElemKind T} (it : const_iterator T) (pos : R_xlen_t) (xs : list T)
    : const_iterator T :=
  let n := Z.min BUF_SIZE (length_ (it_data_ it) - pos) in
  mk_iter (it_data_ it) (pos_ it) (take (Z.to_nat n) (drop (Z.to_nat pos) xs)) pos n.

(** What a specialisation's [fill_buf] promises: on a readable vector and
    an index in range, one region read that yields [fill_result]. *)
Class BlockRead (T : Type) `{ElemKind T} := {
  fill_buf : const_iterator T -> R_xlen_t -> RM (const_iterator T);
  fill_buf_ok s it o xs pos :
    readable s (it_data_ it) o xs -> (0 <= pos < length_ (it_data_ it))%Z ->
    fill_buf it pos s = Ok (fill_result it pos xs) (tick_region s)
}.

Section Iterator.
Context `{BlockRead T}.

(** [cbegin()]: position 0, nothing buffered. *)
Definition cbegin (v : vector) : const_iterator T := mk_iter v 0%Z [] 0%Z 0%Z.

(** [operator*]: on an ALTREP vector, read the buffer, refilling it first
    when the position is outside the buffered block; otherwise read the
    slot.  The iterator is returned since a refill changes it. *)
Definition deref (it : const_iterator T) : RM (T * const_iterator T) :=
  if is_altrep_ (it_data_ it) then
    it' <- (if (block_start_ it <=? pos_ it)%Z && (pos_ it <? block_start_ it + it_length_ it)%Z
            then ret it else fill_buf it (pos_ it));;
    match buf_ it' !! Z.to_nat (pos_ it' - block_start_ it') with
    | Some x => ret (x, it')
    | None => undef "read outside the iterator's buffer"
    end
  else x <- ptr_read (data_p_ (it_data_ it)) (pos_ it);; ret (x, it).

(** [operator++]. *)
Definition incr (it : const_iterator T) : const_iterator T :=
  mk_iter (it_data_ it) (pos_ it + 1)%Z (buf_ it) (block_start_ it) (it_length_ it).

(** [k] steps of [for (auto x : v)]: dereference, then advance. *)
Fixpoint traverse (k : nat) (it : const_iterator T) : RM (list T) :=
  match k with
  | O => ret []
  | S k' =>
      p <- deref it;;
      rest <- traverse k' (incr p.2);;
      ret (p.1 :: rest)
  end.

(** The range-for loop over the whole vector. *)
Definition for_each (v : vector) : RM (list T) := traverse (Z.to_nat (length_ v)) (cbegin v).

(** The reference: [for (i = 0; i < size; ++i) v[i]]. *)
Fixpoint subscript_from (v : vector) (i : R_xlen_t) (k : nat) : RM (list T) :=
  match k with
  | O => ret []
  | S k' =>
      x <- subscript v i;;
      rest <- subscript_from v (i + 1)%Z k';;
      ret (x :: rest)
  end.

(** The number of blocks of 64 covering [m] elements. *)
Definition blocks (m : R_xlen_t) : nat := Z.to_nat ((m + BUF_SIZE - 1) / BUF_SIZE).

(** The buffered block of an iterator over a vector with elements [xs]:
    it lies within the vector and holds its elements. *)
Definition window_ok (xs : list T) (it : const_iterator T) : Prop :=
  (0 <= block_start_ it)%Z /\ (0 <= it_length_ it)%Z /\
  (block_start_ it + it_length_ it <= length_ (it_data_ it))%Z /\
  buf_ it = take (Z.to_nat (it_length_ it)) (drop (Z.to_nat (block_start_ it)) xs).

Lemma readable_iter_region k s (v : vector) o (xs : list T) :
  readable s v o xs -> readable (Nat.iter k tick_region s) v o xs.
Proof. induction k as [|k IH]; [done|]. intros Hr. specialize (IH Hr). destruct IH. by split. Qed.

Lemma readable_iter_elt k s (v : vector) o (xs : list T) :
  readable s v o xs -> readable (Nat.iter k tick_elt s) v o xs.
Proof. induction k as [|k IH]; [done|]. intros Hr. specialize (IH Hr). destruct IH. by split. Qed.

Lemma blocks_step m : (0 < m)%Z -> S (blocks (m - Z.min BUF_SIZE m)%Z) = blocks m.
Proof.
  unfold blocks, BUF_SIZE. intros.
  destruct (Z.min_spec 64 m) as [[? ->]|[? ->]]; Z.to_euclidean_division_equations; lia.
Qed.

Lemma blocks_0 : blocks 0%Z = 0.
Proof. reflexivity. Qed.

Section Traversal.
Context (v : vector) (o : sexprec) (xs : list T).

(** On a vector with a direct pointer every step reads a slot. *)
Lemma traverse_direct k : forall s it,
  readable s v o xs -> is_altrep_ v = false -> it_data_ it = v ->
  (0 <= pos_ it)%Z -> (pos_ it + Z.of_nat k <= length_ v)%Z ->
  traverse k it s = Ok (take k (drop (Z.to_nat (pos_ it)) xs)) s.
Proof.
  induction k as [|k IH]; intros s it Hr Ha Hv Hp Hk; [done|].
  pose proof (rd_len _ _ _ _ Hr). pose proof (rd_obj _ _ _ _ Hr) as Ho.
  destruct (lookup_lt_is_Some_2 xs (Z.to_nat (pos_ it))) as [x Hx]; [lia|].
  cbn [traverse]. unfold deref. rewrite Hv, Ha, (rd_ptr _ _ _ _ Hr Ha).
  rewrite bind_assoc, (run_bind_Ok _ _ _ _ _ (ptr_read_run _ _ _ Ho xs 0%Z (pos_ it) x (rd_elts _ _ _ _ Hr) ltac:(lia) Hx)).
  cbn [bind ret fst snd].
  rewrite (run_bind_Ok _ _ _ _ _ (IH s (incr it) Hr Ha Hv ltac:(simpl; lia) ltac:(simpl; lia))).
  cbn [ret]. f_equal.
  rewrite (drop_S xs x (Z.to_nat (pos_ it)) Hx). simpl.
  by replace (Z.to_nat (pos_ it + 1)) with (S (Z.to_nat (pos_ it))) by lia.
Qed.

(** [operator*] on an ALTREP vector at an index in range, from an
    iterator whose block holds the vector's elements: inside the block
    the buffer is read, outside it one region read refills it. *)
Lemma deref_altrep s it x :
  readable s v o xs -> is_altrep_ v = true -> it_data_ it = v -> window_ok xs it ->
  (0 <= pos_ it < length_ v)%Z -> xs !! Z.to_nat (pos_ it) = Some x ->
  deref it s =
    if (block_start_ it <=? pos_ it)%Z && (pos_ it <? block_start_ it + it_length_ it)%Z
    then Ok (x, it) s else Ok (x, fill_result it (pos_ it) xs) (tick_region s).
Proof.
  intros Hr Ha Hv (Hb0 & Hl0 & Hbl & Hbuf) Hp Hx. unfold deref. rewrite Hv, Ha.
  destruct ((block_start_ it <=? pos_ it)%Z && (pos_ it <? block_start_ it + it_length_ it)%Z) eqn:Hin.
  - apply andb_true_iff in Hin as [Hin1%Z.leb_le Hin2%Z.ltb_lt].
    rewrite (run_bind_Ok _ _ _ _ _ (run_ret _ _)).
    rewrite Hbuf, lookup_take_lt, lookup_drop by lia.
    by replace (Z.to_nat (block_start_ it) + Z.to_nat (pos_ it - block_start_ it))
      with (Z.to_nat (pos_ it)) by lia; rewrite Hx.
  - rewrite <- Hv in Hr.
    rewrite (run_bind_Ok _ _ _ _ _ (fill_buf_ok _ _ _ _ (pos_ it) Hr ltac:(rewrite Hv; lia))).
    unfold fill_result. cbn [buf_ pos_ block_start_ it_data_].
    by rewrite Z.sub_diag, lookup_take_lt, lookup_drop, Nat.add_0_r, Hx by (rewrite Hv; unfold BUF_SIZE; lia).
Qed.

(** The block a refill leaves holds the vector's elements. *)
Lemma window_ok_fill it pos :
  it_data_ it = v -> (0 <= pos < length_ v)%Z -> window_ok xs (fill_result it pos xs).
Proof.
  intros Hv Hp. unfold window_ok, fill_result. cbn. rewrite Hv. unfold BUF_SIZE.
  split_and!; [lia|lia|lia|done].
Qed.

(** On an ALTREP vector, from a position inside or just past the
    buffered block [\[block_start_, block_start_ + length_)] whose
    contents are those of the vector: the remaining elements come out in
    order, with one region read per block of 64 past the buffered one. *)
Lemma traverse_buffered k : forall s it,
  readable s v o xs -> is_altrep_ v = true -> it_data_ it = v ->
  (0 <= block_start_ it <= pos_ it)%Z ->
  (pos_ it <= block_start_ it + it_length_ it <= length_ v)%Z ->
  buf_ it = take (Z.to_nat (it_length_ it)) (drop (Z.to_nat (block_start_ it)) xs) ->
  (pos_ it + Z.of_nat k = length_ v)%Z ->
  traverse k it s = Ok (take k (drop (Z.to_nat (pos_ it)) xs))
    (Nat.iter (blocks (length_ v - (block_start_ it + it_length_ it))%Z) tick_region s).
Proof.
  induction k as [|k IH]; intros s it Hr Ha Hv Hb He Hbuf Hk.
  { replace (length_ v - (block_start_ it + it_length_ it))%Z with 0%Z by lia. done. }
  pose proof (rd_len _ _ _ _ Hr).
  destruct (lookup_lt_is_Some_2 xs (Z.to_nat (pos_ it))) as [x Hx]; [lia|].
  pose proof (deref_altrep s it x Hr Ha Hv ltac:(unfold window_ok; rewrite Hv; split_and!; done || lia)
                ltac:(lia) Hx) as Hd.
  cbn [traverse].
  destruct (Z.ltb_spec (pos_ it) (block_start_ it + it_length_ it)) as [Hin|Hout].
  - rewrite (proj2 (Z.leb_le _ _)) in Hd by lia. cbn [andb] in Hd.
    rewrite (run_bind_Ok _ _ _ _ _ Hd). cbn [fst snd].
    rewrite (run_bind_Ok _ _ _ _ _ (IH s (incr it) Hr Ha Hv ltac:(simpl; lia) ltac:(simpl; lia) Hbuf ltac:(simpl; lia))).
    rewrite run_ret. simpl. rewrite (drop_S xs x (Z.to_nat (pos_ it)) Hx).
    by replace (Z.to_nat (pos_ it + 1)) with (S (Z.to_nat (pos_ it))) by lia.
  - rewrite andb_false_r in Hd. rewrite (run_bind_Ok _ _ _ _ _ Hd). cbn [fst snd].
    unfold fill_result. rewrite Hv.
    set (n' := Z.min BUF_SIZE (length_ v - pos_ it)).
    rewrite (run_bind_Ok _ _ _ _ _ (IH (tick_region s) (mk_iter v (pos_ it + 1)%Z (take (Z.to_nat n') (drop (Z.to_nat (pos_ it)) xs)) (pos_ it) n')
        ltac:(destruct Hr; by split) Ha eq_refl
        ltac:(simpl; lia) ltac:(simpl; subst n'; unfold BUF_SIZE; lia) eq_refl ltac:(simpl; lia))).
    rewrite run_ret. simpl. rewrite (drop_S xs x (Z.to_nat (pos_ it)) Hx).
    replace (Z.to_nat (pos_ it + 1)) with (S (Z.to_nat (pos_ it))) by lia.
    f_equal. rewrite <- Nat.iter_succ_r.
    replace (length_ v - (pos_ it + n'))%Z with ((length_ v - pos_ it) - Z.min BUF_SIZE (length_ v - pos_ it))%Z
      by (subst n'; lia).
    rewrite blocks_step by lia. do 2 f_equal. lia.
Qed.

(** [operator++] moves the position only. *)
Lemma window_ok_incr it : window_ok xs it -> window_ok xs (incr it).
Proof. by destruct it. Qed.

(** The reference loop: [k] calls of [operator[]] from [i]. *)
Lemma subscript_from_spec k : forall s i,
  readable s v o xs -> (0 <= i)%Z -> (i + Z.of_nat k <= length_ v)%Z ->
  subscript_from v i k s =
    Ok (take k (drop (Z.to_nat i) xs)) (if is_altrep_ v then Nat.iter k tick_elt s else s).
Proof.
  induction k as [|k IH]; intros s i Hr Hi Hk; [by destruct (is_altrep_ v)|].
  destruct (read_elt_spec s v o xs i Hr ltac:(lia)) as (x & Hx & Hrun).
  cbn [subscript_from]. unfold subscript. rewrite (run_bind_Ok _ _ _ _ _ Hrun).
  assert (Hr' : readable (after_read (is_altrep_ v) s) v o xs)
    by (unfold after_read; destruct (is_altrep_ v); [destruct Hr; by split|done]).
  rewrite (run_bind_Ok _ _ _ _ _ (IH _ (i + 1)%Z Hr' ltac:(lia) ltac:(lia))), run_ret.
  rewrite (drop_S xs x (Z.to_nat i) Hx).
  replace (Z.to_nat (i + 1)) with (S (Z.to_nat i)) by lia.
  unfold after_read. destruct (is_altrep_ v); [by rewrite <- Nat.iter_succ_r|done].
Qed.

(** The whole range-for loop, through either representation. *)
Lemma for_each_run s :
  readable s v o xs ->
  for_each v s = Ok (take (Z.to_nat (length_ v)) xs)
    (if is_altrep_ v then Nat.iter (blocks (length_ v)) tick_region s else s).
Proof.
  intros Hr. pose proof (rd_len _ _ _ _ Hr). unfold for_each.
  destruct (is_altrep_ v) eqn:Ha.
  - rewrite (traverse_buffered _ s (cbegin v) Hr Ha eq_refl); simpl; try done; try lia.
    by rewrite Z.sub_0_r.
  - rewrite (traverse_direct _ s (cbegin v) Hr Ha eq_refl); simpl; done || lia.
Qed.
End Traversal.

Lemma iter_tick_region_calls k s :
  region_calls (Nat.iter k tick_region s) = (region_calls s + k)%nat /\
  elt_calls (Nat.iter k tick_region s) = elt_calls s.
Proof. induction k as [|k IH]; simpl; lia. Qed.

(** C16: the range-for loop over a readable vector yields exactly what the
    loop of [operator[]] over the same indices yields: the vector's
    elements in order, through either representation; on a vector with
    a direct pointer neither loop calls the runtime. *)
Theorem for_each_refines_subscript s (v : vector) o (xs : list T) :
  readable s v o xs ->
  exists s1 s2, for_each v s = Ok (take (Z.to_nat (length_ v)) xs) s1 /\
    subscript_from v 0%Z (Z.to_nat (length_ v)) s = Ok (take (Z.to_nat (length_ v)) xs) s2 /\
    (is_altrep_ v = false -> s1 = s /\ s2 = s).
Proof.
  intros Hr. pose proof (rd_len _ _ _ _ Hr).
  eexists _, _. split; [apply (for_each_run _ _ _ _ Hr)|].
  split; [rewrite (subscript_from_spec _ _ _ _ s 0%Z Hr) by lia; reflexivity|].
  intros ->. done.
Qed.

(** C17: over an ALTREP vector of length [n], the range-for loop issues
    exactly [ceil(n / 64)] region reads and no element call, where the
    loop of [operator[]] issues [n] element calls. *)
Theorem for_each_region_calls s (v : vector) o (xs : list T) :
  readable s v o xs -> is_altrep_ v = true ->
  exists s1 s2, for_each v s = Ok (take (Z.to_nat (length_ v)) xs) s1 /\
    region_calls s1 = (region_calls s + Z.to_nat ((length_ v + 63) / 64))%nat /\
    elt_calls s1 = elt_calls s /\
    subscript_from v 0%Z (Z.to_nat (length_ v)) s = Ok (take (Z.to_nat (length_ v)) xs) s2 /\
    elt_calls s2 = (elt_calls s + Z.to_nat (length_ v))%nat.
Proof.
  intros Hr Ha. pose proof (rd_len _ _ _ _ Hr).
  rewrite (for_each_run _ _ _ _ Hr), (subscript_from_spec _ _ _ _ s 0%Z Hr) by lia. rewrite Ha.
  eexists _, _. split_and!; [reflexivity| | |reflexivity|].
  - rewrite (proj1 (iter_tick_region_calls _ _)). unfold blocks, BUF_SIZE. do 4 f_equal. lia.
  - apply iter_tick_region_calls.
  - clear. induction (Z.to_nat (length_ v)) as [|k IH]; simpl; lia.
Qed.
(** C15: the iterator's block invariant, for any history of [operator*]
    and [operator++]: from an iterator over a readable ALTREP vector
    whose buffered block holds the vector's elements, [operator*] at any
    index in range returns the element there and leaves an iterator,
    at the same index, whose block holds the vector's elements and
    contains the index, and so does [operator++] after it; the read
    issues one region call exactly when the index was outside the block,
    and no element call. *)
Theorem deref_window s (v : vector) o (xs : list T) it :
  readable s v o xs -> is_altrep_ v = true -> it_data_ it = v -> window_ok xs it ->
  (0 <= pos_ it < length_ v)%Z ->
  exists x it' s', deref it s = Ok (x, it') s' /\ xs !! Z.to_nat (pos_ it) = Some x /\
    window_ok xs it' /\ window_ok xs (incr it') /\ it_data_ it' = v /\ pos_ it' = pos_ it /\
    (block_start_ it' <= pos_ it < block_start_ it' + it_length_ it')%Z /\
    region_calls s' = (region_calls s +
      if decide (block_start_ it <= pos_ it < block_start_ it + it_length_ it)%Z then 0 else 1)%nat /\
    elt_calls s' = elt_calls s.
Proof.
  intros Hr Ha Hv Hw Hp. pose proof (rd_len _ _ _ _ Hr).
  destruct (lookup_lt_is_Some_2 xs (Z.to_nat (pos_ it))) as [x Hx]; [lia|].
  pose proof (deref_altrep _ _ _ s it x Hr Ha Hv Hw Hp Hx) as Hd.
  destruct (decide (block_start_ it <= pos_ it < block_start_ it + it_length_ it)%Z) as [Hin|Hout].
  - rewrite (proj2 (Z.leb_le _ _)), (proj2 (Z.ltb_lt _ _)) in Hd by lia.
    exists x, it, s. split_and!; try done; try lia.
  - replace ((block_start_ it <=? pos_ it)%Z && (pos_ it <? block_start_ it + it_length_ it)%Z)
      with false in Hd by (symmetry; apply not_true_iff_false; intros [?%Z.leb_le ?%Z.ltb_lt]%andb_true_iff; lia).
    pose proof (window_ok_fill v xs it (pos_ it) Hv Hp) as Hw'.
    exists x, (fill_result it (pos_ it) xs), (tick_region s).
    split_and!; try done; try (by apply window_ok_incr); cbn; rewrite ?Hv; unfold BUF_SIZE; lia.
Qed.

End Iterator.
