(* ===== verification/Logicals.v ===== *)
(** * [logicals.hpp]: the [Rboolean] specialisation

    The element kind LGLSXP / [Rboolean].  R's [Rboolean] is the C enum
    [{FALSE = 0, TRUE}]; the code reads the [int] cells of a logical
    vector as [Rboolean] ([reinterpret_cast<Rboolean*>(LOGICAL(data))]
    and [static_cast<Rboolean>(LOGICAL_ELT(...))]), so a cell holding
    [NA_LOGICAL] is read as an [Rboolean] whose value is [NA_LOGICAL].
    [Rboolean] is therefore the [int] the cell holds, and the cast keeps
    it (what the compilers do; for a value outside the enumeration's
    range the standard gives an unspecified value in C++11/14 and
    undefined behaviour since C++17, see the findings).

    Module [logicals] holds the members of [logicals.hpp]: those whose
    text differs from the double specialisation (the casts in
    [operator[]], [at] and [proxy::operator Rboolean], the literal-list
    constructor) are written out; the others are the template bodies at
    [T := Rboolean]. *)

From S2P Require Import Prelude Runtime RuntimeFacts Vector Access Writable Proxy Named Sequences Lifecycle Iterator.

(** [Rboolean], held as the [int] stored in the cell. *)
Definition Rboolean := Z.
Definition FALSE : Rboolean := 0%Z.
Definition TRUE : Rboolean := 1%Z.

Definition lgl_unpack (p : payload) : option (list Rboolean) :=
  match p with LglData xs => Some xs | _ => None end.

#[export] Instance lgl_kind : ElemKind Rboolean.
Proof.
  refine {| ek_sexptype := LGLSXP; ek_unpack := lgl_unpack;
            ek_pack xs := LglData xs; ek_NA := NA_LOGICAL |};
    intros; repeat match goal with p : payload |- _ => destruct p end;
    simplify_eq/=; eauto.
Defined.

(** [cpp11::logicals] and [cpp11::writable::logicals]. *)
Module logicals.

(** [static_cast<Rboolean>(int)]: the value is kept, as compilers do.
    For [NA_LOGICAL] (outside the range of [{FALSE, TRUE}]) this is a
    choice of the model, not a guarantee of the standard. *)
Definition static_cast_Rboolean (x : Z) : Rboolean := x.

(** [vector<Rboolean>::valid_type]. *)
Definition valid_type (data : SEXP) : RM SEXP := valid_type (T := Rboolean) data.

(** [vector<Rboolean>::operator[]]. *)
Definition subscript (v : vector) (pos : R_xlen_t) : RM Rboolean :=
  if is_altrep_ v then x <- ELT (T := Rboolean) (data_ v) pos;; ret (static_cast_Rboolean x)
  else ptr_read (data_p_ v) pos.

(** [vector<Rboolean>::at]. *)
Definition at_ (v : vector) (pos : R_xlen_t) : RM Rboolean :=
  if (pos <? 0)%Z || (length_ v <=? pos)%Z then throw (out_of_range "logicals")
  else if is_altrep_ v then x <- ELT (T := Rboolean) (data_ v) pos;; ret (static_cast_Rboolean x)
  else ptr_read (data_p_ v) pos.

(** [vector<Rboolean>::get_p]: [reinterpret_cast<Rboolean*>(LOGICAL(data))]. *)
Definition get_p (is_altrep : bool) (data : SEXP) : RM ptr :=
  get_p (T := Rboolean) is_altrep data.

(** [writable::vector<Rboolean>::proxy::operator=]. *)
Definition proxy_assign (p : proxy) (rhs : Rboolean) : RM unit := proxy_assign p rhs.

(** [writable::vector<Rboolean>::proxy::operator Rboolean]. *)
Definition proxy_get (p : proxy) : RM Rboolean :=
  match px_p_ p with
  | None => x <- ELT (T := Rboolean) (px_data_ p) (px_index_ p);; ret (static_cast_Rboolean x)
  | Some _ => ptr_read (px_p_ p) 0%Z
  end.

(** [for (i = 0; i < capacity_; ++i, ++it) SET_LOGICAL_ELT(data_, i, *it);] *)
Fixpoint set_from (data : SEXP) (i : R_xlen_t) (il : list Rboolean) : RM unit :=
  match il with
  | [] => ret tt
  | x :: il' => SET_ELT data i x;; set_from data (i + 1)%Z il'
  end.

(** [writable::vector<Rboolean>(std::initializer_list<Rboolean> il)]:
    the data is allocated by a bare [Rf_allocVector] (not under [safe]),
    the base constructor classifies it, then the body protects it and
    fills it through [SET_LOGICAL_ELT]. *)
Definition ctor_il (il : list Rboolean) : RM wvector :=
  d <- Rf_allocVector LGLSXP (Z.of_nat (length il));;
  v <- vector_from d;;
  construct (mk_wvector v (Z.of_nat (length il)))
    (w <- this;;
     tok <- rt (protect_sexp (data_ w));;
     set_this (w_set_protect tok w);;
     w' <- this;;
     rt (set_from (data_ w') 0%Z il)).

(** [writable::vector<Rboolean>(std::initializer_list<named_arg>)]. *)
Definition ctor_named (il : list named_arg) : RM wvector := ctor_named (T := Rboolean) il.

(** [writable::vector<Rboolean>::reserve]. *)
Definition reserve (new_capacity : R_xlen_t) : VM unit := reserve (T := Rboolean) new_capacity.

(** [writable::vector<Rboolean>::push_back]. *)
Definition push_back (value : Rboolean) : VM unit := push_back (T := Rboolean) value.

(** [vector<Rboolean>::const_iterator::fill_buf]: as for doubles, but
    [LOGICAL_GET_REGION] is called directly, not under [unwind_protect]. *)
Definition fill_buf (it : const_iterator Rboolean) (pos : R_xlen_t) : RM (const_iterator Rboolean) :=
  let len := Z.min BUF_SIZE (length_ (it_data_ it) - pos) in
  buf <- GET_REGION (T := Rboolean) (data_ (it_data_ it)) pos len;;
  ret (mk_iter (it_data_ it) (pos_ it) buf pos len).

End logicals.

(** ** The literal-list constructor *)

Section LiteralList.
Import logicals.

Lemma set_from_fill h i il : set_from h i il = fill_from (SET_ELT h) i il.
Proof. revert i. induction il as [|x il IH]; intros i; simpl; [done|by rewrite IH]. Qed.

Lemma set_from_spec il i ys s h o :
  heap s !! h = Some o -> ek_unpack (sx_data o) = Some ys -> altrep_fails o = false ->
  (0 <= i)%Z -> Z.to_nat i + length il <= length ys ->
  exists s', set_from h i il s = Ok tt s' /\
    heap s' !! h = Some (mk_sexprec
      (LglData (take (Z.to_nat i) ys ++ il ++ drop (Z.to_nat i + length il) ys))
      (sx_altrep o) (sx_altrep_fails o) (sx_names o)) /\
    (forall k, k <> h -> heap s' !! k = heap s !! k) /\
    precious s' = precious s /\ next_sexp s' = next_sexp s /\ cfg s' = cfg s.
Proof.
  intros Hh Hys Hf Hi Hl. rewrite set_from_fill.
  refine (fill_from_spec _ h _ il i ys s o Hh Hys Hf Hi Hl).
  intros s' o' ys' j v Hh' Hys' Hf' Hj. by apply SET_ELT_run.
Qed.

(** The literal-list constructor (shared by the protection theorems). *)
Lemma logicals_ctor_il_correct s il :
  rstate_wf s -> (Z.of_nat (length il) <= max_alloc s)%Z ->
  (Z.of_nat (length il) <= R_XLEN_T_MAX)%Z ->
  exists s' w, ctor_il il s = Ok w s' /\ wv_ok s' w /\ healthy s' w /\
    contents s' w = Some il /\ length_ w = Z.of_nat (length il) /\
    capacity_ w = length_ w /\ is_altrep_ w = false /\
    precious s !! protect_ w = None /\
    precious s' = <[protect_ w := data_ w]> (precious s) /\ cfg s' = cfg s.
Proof.
  intros Hwf Hmax Hlim.
  destruct (Rf_allocVector_spec (T := Rboolean) _ s Hwf (alloc_fails_false (Z.of_nat (length il)) s ltac:(lia) Hlim Hmax))
    as (s1 & o & xs & Hrun1 & Hwf1 & Hh1 & Hxs & Hlen & Halt & Hnm & _ & Hp1 & Hc1 & Hn1).
  assert (Hfo : altrep_fails o = false) by (unfold altrep_fails; by rewrite Halt).
  pose proof (wf_heap_not_nil _ _ _ Hwf1 Hh1) as Hnil.
  destruct (protect_sexp_spec _ s1 Hwf1 Hnil)
    as (s2 & Hrun2 & Hwf2 & Hp2 & Hheap2 & Hc2 & Hfresh & _).
  assert (Hh2 : heap s2 !! next_sexp s = Some o).
  { rewrite Hheap2, collect_keeps_extra; [done|set_solver]. }
  destruct (set_from_spec il 0%Z xs s2 (next_sexp s) o)
    as (s3 & Hrun3 & Hh3 & Hk3 & Hp3 & Hn3 & Hc3); try done; [lia|].
  rewrite Nat.add_0_l, take_0, drop_ge, app_nil_r, Halt, Hnm in Hh3 by lia.
  assert (Hwf3 : rstate_wf s3) by (eapply wf_heap_frame; [exact Hwf2|exact Hh2|done..]).
  eexists s3, _. unfold ctor_il.
  rewrite (run_bind_Ok _ _ _ _ _ Hrun1), (run_bind_Ok _ _ _ _ _ (vector_from_run _ _ _ _ Hwf1 Hh1 Hxs Hfo)).
  split.
  { apply construct_Ok. autorewrite with cpp11_run.
    rewrite (bind_rt_Ok _ _ _ _ _ _ Hrun2). autorewrite with cpp11_run.
    apply rt_Ok. exact Hrun3. }
  simpl. rewrite Hlen, Z2Nat.id by lia.
  split_and!; try done.
  - eapply wv_ok_live; [exact Hwf3|simpl; lia|simpl; lia|].
    split; simpl; try done; try (by rewrite Hp3, Hp2, lookup_insert_eq); try (by left); by rewrite Halt.
  - intros o' Ho'. simpl in Ho'. rewrite Hh3 in Ho'. injection Ho' as <-. done.
  - erewrite contents_live; [|exact Hh3|reflexivity|done]. simpl.
    by rewrite Nat2Z.id, firstn_all.
  - by rewrite Hp1 in Hfresh.
  - by rewrite Hp3, Hp2, Hp1.
  - by rewrite Hc3, Hc2, Hc1.
Qed.

(** C24: [writable::logicals{...}] from a literal list the allocator can
    satisfy: the vector satisfies the writable invariant (its data is
    registered in the precious list under a fresh token, the only change
    to the list), shows exactly the list, and its length and capacity
    are the list's length. *)
Theorem logicals_ctor_il_spec s il :
  rstate_wf s -> (Z.of_nat (length il) <= max_alloc s)%Z ->
  (Z.of_nat (length il) <= R_XLEN_T_MAX)%Z ->
  exists s' w, ctor_il il s = Ok w s' /\ wv_ok s' w /\ healthy s' w /\
    contents s' w = Some il /\ length_ w = Z.of_nat (length il) /\
    capacity_ w = length_ w /\ is_altrep_ w = false /\
    precious s !! protect_ w = None /\
    precious s' = <[protect_ w := data_ w]> (precious s) /\ cfg s' = cfg s.
Proof. intros; eapply logicals_ctor_il_correct; eassumption. Qed.
End LiteralList.

(** ** The block reads of the iterator *)

Lemma logicals_fill_buf_ok s it o (xs : list Rboolean) pos :
  readable s (it_data_ it) o xs -> (0 <= pos < length_ (it_data_ it))%Z ->
  logicals.fill_buf it pos s = Ok (fill_result it pos xs) (tick_region s).
Proof.
  intros Hr _. unfold logicals.fill_buf.
  rewrite (run_bind_Ok _ _ _ _ _
    (GET_REGION_run _ _ _ (rd_obj _ _ _ _ Hr) xs _ _ (rd_elts _ _ _ _ Hr) (rd_ok _ _ _ _ Hr))).
  reflexivity.
Qed.

#[export] Instance lgl_block : BlockRead Rboolean :=
  {| fill_buf := logicals.fill_buf; fill_buf_ok := logicals_fill_buf_ok |}.

(** C25: when the ALTREP region method of the vector signals an R error,
    [fill_buf] lets it longjmp through the C++ frames: [LOGICAL_GET_REGION]
    is not wrapped in [unwind_protect], so no C++ unwinding happens. *)
Theorem logicals_fill_buf_region_error s (it : const_iterator Rboolean) o pos :
  heap s !! data_ (it_data_ it) = Some o -> altrep_fails o = true ->
  logicals.fill_buf it pos s = Jump s.
Proof.
  intros Ho Hf. unfold logicals.fill_buf. apply run_bind_Jump.
  exact (GET_REGION_error _ _ _ Ho _ _ Hf).
Qed.

(** ** Reading through the casts

    With [static_cast<Rboolean>] read as the identity, the logical
    members that spell the cast out compute what the template bodies at
    [T := Rboolean] do, so the theorems of [Access] and [Proxy] apply to
    them for the cells [TRUE] and [FALSE]; for [NA_LOGICAL] they rest on
    that reading of the cast. *)

Section Casts.

Lemma subscript_generic v pos s : logicals.subscript v pos s = subscript (T := Rboolean) v pos s.
Proof. unfold logicals.subscript, subscript. destruct (is_altrep_ v); [apply bind_ret_r|done]. Qed.

Lemma at_generic v pos s : logicals.at_ v pos s = at_ (T := Rboolean) "logicals" v pos s.
Proof.
  unfold logicals.at_, at_.
  destruct ((pos <? 0)%Z || (length_ v <=? pos)%Z), (is_altrep_ v); try done. apply bind_ret_r.
Qed.

Lemma proxy_get_generic p s : logicals.proxy_get p s = proxy_get (T := Rboolean) p s.
Proof. unfold logicals.proxy_get, proxy_get. destruct (px_p_ p); [done|apply bind_ret_r]. Qed.

End Casts.

(** ** The theorems at [Rboolean], on concrete inputs *)

(** C26: when the allocator refuses the literal's size, the constructor of
    [writable::logicals] from a literal list lets the R error longjmp
    through its C++ frames: [Rf_allocVector] is called without [safe],
    so no C++ exception is raised and nothing is registered. *)
Theorem logicals_ctor_il_alloc_error s (il : list Rboolean) :
  alloc_fails (Z.of_nat (length il)) s = true -> logicals.ctor_il il s = Jump s.
Proof. intros Hf. apply run_bind_Jump, Rf_allocVector_fails, Hf. Qed.

(** C14: composition of the literal constructor with the life of the
    vector: [writable::logicals{...}] returns a vector from which every
    sequence of enabled events (member calls interleaved with allocations
    by other code, which may collect) keeps the invariant and the
    contents the abstract model computes from the literal, and after
    which the destructor leaves exactly the precious list the runtime had
    before the constructor ran. *)
Theorem logicals_literal_life s (il : list Rboolean) :
  rstate_wf s -> (Z.of_nat (length il) <= max_alloc s)%Z ->
  (Z.of_nat (length il) <= R_XLEN_T_MAX)%Z ->
  exists s1 w, logicals.ctor_il il s = Ok w s1 /\
    forall os st, steps (s1, w) os st ->
      wv_ok (T := Rboolean) st.1 st.2 /\ contents (T := Rboolean) st.1 st.2 = Some (abs_from il os) /\
      exists s', destroy st = Ok tt (s', st.2) /\ precious s' = precious s.
Proof.
  intros Hwf Hm Hx.
  destruct (logicals_ctor_il_correct s il Hwf Hm Hx)
    as (s1 & w & Hrun & Hok & Hh & Hc & _ & _ & _ & Hfresh & Hp & _).
  exists s1, w. split; [done|]. intros os [s2 w2] Hst.
  destruct (steps_sim (s1, w) os (s2, w2) il Hok Hh Hc Hst) as (Hok' & _ & _ & Hfr & Hcont).
  destruct (destroy_restores s2 w2 Hok') as (s' & Hd & Hp').
  split_and!; [done|done|]. exists s'. split; [done|].
  cbn [fst snd] in Hfr. rewrite Hp', Hfr, Hp. by apply delete_insert_id.
Qed.

Section Witnesses.

Definition s16l : rstate := initial_rstate 16 true.

Lemma logicals_ctor_il_spec_witness :
  exists s' w, logicals.ctor_il [TRUE; FALSE; NA_LOGICAL] s16l = Ok w s' /\ wv_ok s' w /\
    contents s' w = Some [TRUE; FALSE; NA_LOGICAL] /\
    precious s' = <[protect_ w := data_ w]> (precious s16l).
Proof.
  destruct (logicals_ctor_il_spec s16l [TRUE; FALSE; NA_LOGICAL])
    as (s' & w & Hrun & Hok & _ & Hc & _ & _ & _ & _ & Hp & _).
  - apply initial_rstate_wf.
  - simpl. lia.
  - unfold R_XLEN_T_MAX. simpl. lia.
  - exists s', w. by split_and!.
Defined.

(** An ALTREP LGLSXP whose region method fails. *)
Definition failing_lgl_rstate : rstate :=
  mk_rstate {[1%N := mk_sexprec (LglData [TRUE]) true true R_NilValue]} ∅
    2%N 16%Z false PrimFloat.zero 0%Z 0 0.

Lemma logicals_fill_buf_region_error_witness :
  logicals.fill_buf (mk_iter (mk_vector 1%N R_NilValue true None 1%Z) 0%Z [] 0%Z 0%Z) 0%Z failing_lgl_rstate =
    Jump failing_lgl_rstate.
Proof. eapply logicals_fill_buf_region_error; reflexivity. Defined.
(** A runtime that refuses every allocation of more than one element. *)
Lemma logicals_ctor_il_alloc_error_witness :
  alloc_fails 3%Z (initial_rstate 1 true) = true /\
  logicals.ctor_il [TRUE; FALSE; NA_LOGICAL] (initial_rstate 1 true) = Jump (initial_rstate 1 true).
Proof. split; [reflexivity|]. apply logicals_ctor_il_alloc_error. reflexivity. Defined.

(** The literal [{TRUE, FALSE, NA}], then an allocation elsewhere (under
    gctorture), a [push_back(FALSE)] and a store [v[1] = TRUE]. *)
Definition life_ops : list (op Rboolean) :=
  [op_alloc LGLSXP 5%Z; op_push FALSE; op_assign 1%Z TRUE].

Lemma logicals_literal_life_witness :
  exists s1 w st, logicals.ctor_il [TRUE; FALSE; NA_LOGICAL] s16l = Ok w s1 /\
    steps (s1, w) life_ops st /\
    contents (T := Rboolean) st.1 st.2 = Some [TRUE; TRUE; NA_LOGICAL; FALSE] /\
    exists s', destroy st = Ok tt (s', st.2) /\ precious s' = precious s16l.
Proof.
  destruct (logicals_literal_life s16l [TRUE; FALSE; NA_LOGICAL] (initial_rstate_wf _ _)
              ltac:(simpl; lia) ltac:(unfold R_XLEN_T_MAX; simpl; lia)) as (s1 & w & Hrun & Hall).
  pose proof Hrun as Hrun'. vm_compute in Hrun'. injection Hrun' as Hw Hs1.
  set (st := match run_from (T := Rboolean) (s1, w) life_ops with Some st => st | None => (s1, w) end).
  assert (Hst : steps (s1, w) life_ops st).
  { change life_ops with ([] ++ life_ops).
    apply (run_from_steps (s1, w) [] (s1, w)); [constructor|].
    subst st. rewrite <- Hw, <- Hs1. vm_compute. reflexivity. }
  destruct (Hall life_ops st Hst) as (_ & Hc & Hd).
  exists s1, w, st. split_and!; [exact Hrun|exact Hst| |exact Hd].
  rewrite Hc. vm_compute. reflexivity.
Defined.

End Witnesses.
