(* ===== verification/Doubles.v ===== *)
(** * [doubles.hpp]: the [double] specialisation

    The element kind REALSXP / [double] (primitive floats), the
    constructor from a literal list (through [as_sexp] of [as.hpp]) and
    the theorems specific to this specialisation.  The other members of
    [doubles.hpp] are the template bodies of [Vector] at [T := float]. *)

From S2P Require Import Prelude Runtime RuntimeFacts Vector Access Writable Proxy Named Sequences Lifecycle Iterator.
From Stdlib Require Import PrimFloat.

Definition real_unpack (p : payload) : option (list float) :=
  match p with RealData xs => Some xs | _ => None end.

#[export] Instance real_kind : ElemKind float.
Proof.
  refine {| ek_sexptype := REALSXP; ek_unpack := real_unpack;
            ek_pack xs := RealData xs; ek_NA := NA_REAL |};
    intros; repeat match goal with p : payload |- _ => destruct p end;
    simplify_eq/=; eauto.
Defined.

(** [cpp11::writable::doubles]. *)
Module doubles.

(** [for (i = 0; i < size; ++i) data_p[i] = *it++;] *)
Fixpoint write_from (p : ptr) (i : R_xlen_t) (xs : list float) : RM unit :=
  match xs with
  | [] => ret tt
  | x :: xs' => ptr_write p i x;; write_from p (i + 1)%Z xs'
  end.

(** [as_sexp(std::initializer_list<double>)] ([as.hpp]). *)
Definition as_sexp (il : list float) : RM SEXP :=
  data <- safe (Rf_allocVector REALSXP (Z.of_nat (length il)));;
  p <- DATAPTR data;;
  write_from p 0%Z il;;
  ret data.

(** [writable::vector<double>(std::initializer_list<double> il)
      : cpp11::vector<double>(as_sexp(il)), capacity_(il.size()) {}] *)
Definition ctor_il (il : list float) : RM wvector :=
  d <- as_sexp il;;
  v <- vector_from d;;
  ret (mk_wvector v (Z.of_nat (length il))).

(** [vector<double>::const_iterator::fill_buf]: [length_ = min(64,
    size - pos)], then [REAL_GET_REGION] under [unwind_protect] into the
    buffer, then [block_start_ = pos].  The buffer holds the elements
    read; the iterator's other slots are never read. *)
Definition fill_buf (it : const_iterator float) (pos : R_xlen_t) : RM (const_iterator float) :=
  let len := Z.min BUF_SIZE (length_ (it_data_ it) - pos) in
  buf <- unwind_protect (GET_REGION (data_ (it_data_ it)) pos len);;
  ret (mk_iter (it_data_ it) (pos_ it) buf pos len).

End doubles.

(** ** The literal-list constructor *)

Section LiteralList.
Import doubles.

Lemma write_from_fill p i (xs : list float) : write_from p i xs = fill_from (ptr_write p) i xs.
Proof. revert i. induction xs as [|x xs IH]; intros i; simpl; [done|by rewrite IH]. Qed.

Lemma write_from_spec (xs : list float) i ys s h o :
  heap s !! h = Some o -> ek_unpack (sx_data o) = Some ys -> altrep_fails o = false ->
  (0 <= i)%Z -> Z.to_nat i + length xs <= length ys ->
  exists s', write_from (Some (h, 0%Z)) i xs s = Ok tt s' /\
    heap s' !! h = Some (mk_sexprec
      (RealData (take (Z.to_nat i) ys ++ xs ++ drop (Z.to_nat i + length xs) ys))
      (sx_altrep o) (sx_altrep_fails o) (sx_names o)) /\
    (forall k, k <> h -> heap s' !! k = heap s !! k) /\
    precious s' = precious s /\ next_sexp s' = next_sexp s /\ cfg s' = cfg s.
Proof.
  intros Hh Hys Hf Hi Hl. rewrite write_from_fill.
  refine (fill_from_spec _ h _ xs i ys s o Hh Hys Hf Hi Hl).
  intros s' o' ys' j v Hh' Hys' _ Hj. by apply ptr_write_run.
Qed.

(** The literal-list constructor, with the object it leaves (shared by
    the protection theorems). *)
Lemma ctor_il_correct s il :
  rstate_wf s -> (Z.of_nat (length il) <= max_alloc s)%Z ->
  (Z.of_nat (length il) <= R_XLEN_T_MAX)%Z ->
  exists s' w, ctor_il il s = Ok w s' /\ rstate_wf s' /\ contents s' w = Some il /\
    length_ w = Z.of_nat (length il) /\ capacity_ w = length_ w /\
    is_altrep_ w = false /\ protect_ w = R_NilValue /\ precious s' = precious s /\
    cfg s' = cfg s /\ data_p_ w = Some (data_ w, 0%Z) /\
    (exists o, heap s' !! data_ w = Some o /\ ek_unpack (sx_data o) = Some il).
Proof.
  intros Hwf Hmax Hlim.
  destruct (Rf_allocVector_spec (T := float) _ s Hwf (alloc_fails_false (Z.of_nat (length il)) s ltac:(lia) Hlim Hmax))
    as (s1 & o & xs & Hrun1 & Hwf1 & Hh1 & Hxs & Hlen & Halt & Hnm & _ & Hp1 & Hc1 & Hn1).
  assert (Hfo : altrep_fails o = false) by (unfold altrep_fails; by rewrite Halt).
  destruct (write_from_spec il 0%Z xs s1 (next_sexp s) o)
    as (s2 & Hrun2 & Hh2 & Hk2 & Hp2 & Hn2 & Hc2); try done; [lia|].
  rewrite Nat.add_0_l, take_0, drop_ge in Hh2 by lia. rewrite app_nil_r in Hh2.
  rewrite Halt, Hnm in Hh2.
  assert (Hwf2 : rstate_wf s2) by (eapply wf_heap_frame; [exact Hwf1|exact Hh1|done..]).
  set (o2 := mk_sexprec (RealData il) false (sx_altrep_fails o) R_NilValue) in Hh2.
  eexists s2, _. unfold ctor_il, as_sexp.
  rewrite !bind_assoc, (run_bind_Ok _ _ _ _ _ (safe_Ok _ _ _ _ Hrun1)).
  rewrite !bind_assoc, (run_bind_Ok _ _ _ _ _ (DATAPTR_run (T := float) _ _ _ Hh1 xs Hxs Hfo)).
  rewrite !bind_assoc, (run_bind_Ok _ _ _ _ _ Hrun2). cbn [bind ret].
  rewrite (run_bind_Ok _ _ _ _ _ (vector_from_run (T := float) s2 (next_sexp s) o2 il Hwf2 Hh2 ltac:(by subst o2) ltac:(by subst o2))).
  split; [reflexivity|]. simpl. split_and!; try done.
  - erewrite contents_live; [|exact Hh2|reflexivity|eauto with cpp11]. simpl.
    by rewrite Nat2Z.id, firstn_all.
  - by rewrite Hp2, Hp1.
  - by rewrite Hc2, Hc1.
  - by exists o2.
Qed.

(** C31: [writable::doubles{...}] from a literal list the allocator can
    satisfy: the vector shows exactly the list, its length and capacity
    are the list's length, it is not ALTREP, and no token is registered:
    [protect_] is [R_NilValue] and the precious list is unchanged. *)
Theorem ctor_il_spec s il :
  rstate_wf s -> (Z.of_nat (length il) <= max_alloc s)%Z ->
  (Z.of_nat (length il) <= R_XLEN_T_MAX)%Z ->
  exists s' w, ctor_il il s = Ok w s' /\ rstate_wf s' /\ contents s' w = Some il /\
    length_ w = Z.of_nat (length il) /\ capacity_ w = length_ w /\
    is_altrep_ w = false /\ protect_ w = R_NilValue /\ precious s' = precious s /\
    cfg s' = cfg s.
Proof.
  intros Hwf Hmax Hlim.
  destruct (ctor_il_correct s il Hwf Hmax Hlim) as (s' & w & H1 & H2 & H3 & H4 & H5 & H6 & H7 & H8 & H9 & _).
  by exists s', w.
Qed.
End LiteralList.

(** ** The block reads of the iterator *)

Lemma doubles_fill_buf_ok s it o (xs : list float) pos :
  readable s (it_data_ it) o xs -> (0 <= pos < length_ (it_data_ it))%Z ->
  doubles.fill_buf it pos s = Ok (fill_result it pos xs) (tick_region s).
Proof.
  intros Hr _. unfold doubles.fill_buf.
  rewrite (run_bind_Ok _ _ _ _ _ (unwind_protect_Ok _ _ _ _
    (GET_REGION_run _ _ _ (rd_obj _ _ _ _ Hr) xs _ _ (rd_elts _ _ _ _ Hr) (rd_ok _ _ _ _ Hr)))).
  reflexivity.
Qed.

#[export] Instance real_block : BlockRead float :=
  {| fill_buf := doubles.fill_buf; fill_buf_ok := doubles_fill_buf_ok |}.

(** C28: when the ALTREP region method of the vector signals an R error,
    [fill_buf] runs it under [unwind_protect], so the error reaches the
    C++ code as [unwind_exception] and the iterator's frames unwind. *)
Theorem doubles_fill_buf_region_error s (it : const_iterator float) o pos :
  heap s !! data_ (it_data_ it) = Some o -> altrep_fails o = true ->
  doubles.fill_buf it pos s = Throw unwind_exception s.
Proof.
  intros Ho Hf. unfold doubles.fill_buf. apply run_bind_Throw.
  unfold unwind_protect, jump_to. by rewrite (GET_REGION_error _ _ _ Ho).
Qed.

(** ** Protection of the literal-list constructor

    The data [as_sexp] builds is never registered in the precious list. *)

(** C4: in a session where nothing else is protected and the collector
    runs at every allocation ([gctorture]), the vector a
    [writable::doubles] literal builds is not protected: after one more
    allocation, reading its first element with [at] accesses a freed
    object. *)
Theorem doubles_literal_use_after_free s (il : list float) :
  rstate_wf s -> gctorture s = true -> precious s = ∅ -> il <> [] ->
  (Z.of_nat (length il) <= max_alloc s)%Z -> (Z.of_nat (length il) <= R_XLEN_T_MAX)%Z ->
  exists w s', doubles.ctor_il il s = Ok w s' /\
    (_ <- Rf_allocVector REALSXP 1%Z;; at_ "doubles" w 0%Z) s' =
      Undef "access to a collected or invalid SEXP".
Proof.
  intros Hwf Ht Hp0 Hne Hmax Hlim.
  destruct (ctor_il_correct s il Hwf Hmax Hlim)
    as (s' & w & Hrun & Hwf' & _ & Hl & _ & Ha & _ & Hp & Hcf & Hptr & o & Ho & _).
  exists w, s'. split; [done|].
  destruct (cfg_eq _ _ Hcf) as [Hm' Ht'].
  assert (Hlen : (0 < Z.of_nat (length il))%Z) by (destruct il; [done|simpl; lia]).
  rewrite (run_bind_Ok _ _ _ _ _ (Rf_allocVector_run REALSXP 1%Z s' _
             (alloc_fails_false 1%Z s' ltac:(lia) ltac:(unfold R_XLEN_T_MAX; lia) ltac:(lia)) eq_refl)).
  unfold at_. rewrite (proj2 (Z.ltb_ge _ _)), (proj2 (Z.leb_gt _ _)) by lia. cbn [orb].
  rewrite Ha, Hptr. unfold ptr_read. apply run_bind_Undef, deref_freed. simpl.
  rewrite lookup_insert_ne by (pose proof (wf_heap_lt _ _ _ Hwf' Ho); lia).
  apply collect_frees; [by rewrite Ht', Ht|].
  rewrite live_set_unrooted by (by rewrite Hp). set_solver.
Qed.

(** ** The template's theorems at [double], on concrete inputs *)

(** C27: when the allocator refuses the literal's size, the constructor of
    [writable::doubles] from a literal list throws [unwind_exception]:
    [as_sexp] calls [Rf_allocVector] under [safe], which turns the R
    error into a C++ exception, and the state is unchanged. *)
Theorem doubles_ctor_il_alloc_error s (il : list float) :
  alloc_fails (Z.of_nat (length il)) s = true -> doubles.ctor_il il s = Throw unwind_exception s.
Proof.
  intros Hf. apply run_bind_Throw. unfold doubles.as_sexp. apply run_bind_Throw, safe_Jump.
  apply Rf_allocVector_fails, Hf.
Qed.

Section Witnesses.
Local Open Scope float_scope.

Definition s16 : rstate := initial_rstate 16 true.

(** A runtime holding one REALSXP [c(1, 2)] at handle 1, and a read-only
    vector on it. *)
Definition demo_rstate : rstate :=
  mk_rstate {[1%N := mk_sexprec (RealData [1.0; 2.0]) false false R_NilValue]} ∅
    2%N 16%Z true PrimFloat.zero 0%Z 0 0.
Definition demo_vector : vector := mk_vector 1%N R_NilValue false (Some (1%N, 0%Z)) 2%Z.

Lemma demo_rstate_wf : rstate_wf demo_rstate.
Proof.
  split; simpl; try done; try lia.
  intros k Hk. rewrite lookup_singleton_ne; [done|lia].
Qed.

Lemma push_back_spec_witness :
  exists s' w', push_back 1.0 (s16, empty_wvector) = Ok tt (s', w') /\
    contents s' w' = Some [1.0] /\ capacity_ w' = 1%Z /\ wv_ok (T := float) s' w'.
Proof.
  destruct (push_back_spec s16 empty_wvector 1.0)
    as (s' & w' & Hrun & Hok & _ & _ & _ & _ & Hc & Hcap & _).
  - apply empty_wvector_ok, initial_rstate_wf.
  - apply empty_wvector_healthy, initial_rstate_wf.
  - right. vm_compute. split; discriminate.
  - exists s', w'. rewrite Hc, Hcap. by split_and!.
Defined.

Lemma push_back_then_at_witness :
  exists s' w', push_back 2.0 (s16, empty_wvector) = Ok tt (s', w') /\
    at_ "doubles" w' 0%Z s' = Ok 2.0 (after_read (is_altrep_ w') s').
Proof.
  destruct (push_back_then_at "doubles" s16 empty_wvector 2.0) as (s' & w' & Hrun & Hl & Hat).
  - apply empty_wvector_ok, initial_rstate_wf.
  - apply empty_wvector_healthy, initial_rstate_wf.
  - right. vm_compute. split; discriminate.
  - exists s', w'. rewrite Hl in Hat. by split.
Defined.

(** The literal of the specification's example, pushed one by one. *)
Lemma push_all_from_empty_witness :
  exists s' w', push_all [1.0; 2.0; 3.0] (s16, empty_wvector) = Ok tt (s', w') /\
    contents s' w' = Some [1.0; 2.0; 3.0] /\
    at_ "doubles" w' 2%Z s' = Ok 3.0 (after_read (is_altrep_ w') s').
Proof.
  destruct (push_all_from_empty "doubles" s16 [1.0; 2.0; 3.0])
    as (s' & w' & Hrun & Hok & Hd & Hc & Hl & Hat & _).
  - apply initial_rstate_wf.
  - simpl. lia.
  - unfold R_XLEN_T_MAX. simpl. lia.
  - exists s', w'. split; [done|]. split; [done|]. exact (Hat 2%nat 3.0 eq_refl).
Defined.

Lemma reserve_spec_witness :
  exists s' w', reserve (T := float) 4%Z (s16, empty_wvector) = Ok tt (s', w') /\
    wv_ok (T := float) s' w' /\ healthy s' w' /\ capacity_ w' = 4%Z /\
    length_ w' = length_ empty_wvector /\ is_altrep_ w' = is_altrep_ empty_wvector /\
    contents (T := float) s' w' = contents s16 empty_wvector /\ cfg s' = cfg s16 /\
    precious s16 !! protect_ w' = None /\
    precious s' = <[protect_ w' := data_ w']> (delete (protect_ empty_wvector) (precious s16)).
Proof.
  apply reserve_spec.
  - apply empty_wvector_ok, initial_rstate_wf.
  - apply empty_wvector_healthy, initial_rstate_wf.
  - vm_compute. split; discriminate.
  - vm_compute. discriminate.
Defined.

Lemma grow_spec_witness :
  exists s' w', grow (T := float) 2 (s16, empty_wvector) = Ok tt (s', w') /\
    capacity_ w' = 1%Z /\ length_ w' = 0%Z /\ wv_ok (T := float) s' w'.
Proof.
  destruct (grow_spec (T := float) 2 s16 empty_wvector)
    as (s' & w' & Hrun & Hok & _ & _ & Hl & _ & _ & _ & Hcap & _).
  - lia.
  - apply empty_wvector_ok, initial_rstate_wf.
  - apply empty_wvector_healthy, initial_rstate_wf.
  - right. vm_compute. split; discriminate.
  - exists s', w'. rewrite Hcap, Hl. by split_and!.
Defined.

Lemma demo_readable :
  readable demo_rstate demo_vector
    (mk_sexprec (RealData [1.0; 2.0]) false false R_NilValue) [1.0; 2.0].
Proof. split; simpl; try done. Qed.

Lemma at_spec_witness :
  exists x, [1.0; 2.0] !! Z.to_nat 1 = Some x /\
    at_ "doubles" demo_vector 1%Z demo_rstate =
      Ok x (after_read (is_altrep_ demo_vector) demo_rstate).
Proof. apply (at_spec _ _ _ _ _ _ demo_readable). simpl. lia. Defined.

Lemma at_out_of_range_witness :
  at_ (T := float) "doubles" demo_vector 2%Z demo_rstate =
    Throw (out_of_range "doubles") demo_rstate.
Proof. apply at_out_of_range. right. simpl. lia. Defined.

Lemma at_subscript_agree_witness :
  at_ "doubles" demo_vector 0%Z = subscript (T := float) demo_vector 0%Z.
Proof. apply at_subscript_agree. simpl. lia. Defined.

Lemma vector_from_spec_witness :
  vector_from (T := float) 1%N demo_rstate =
    Ok (mk_vector 1%N R_NilValue false (Some (1%N, 0%Z)) (Z.of_nat (length [1.0; 2.0])))
      demo_rstate.
Proof.
  exact (vector_from_spec (T := float) demo_rstate 1%N
           (mk_sexprec (RealData [1.0; 2.0]) false false R_NilValue) [1.0; 2.0]
           demo_rstate_wf eq_refl eq_refl eq_refl).
Defined.

Lemma ctor_il_spec_witness :
  exists s' w, doubles.ctor_il [1.0; 2.0; 3.0] s16 = Ok w s' /\ rstate_wf s' /\
    contents s' w = Some [1.0; 2.0; 3.0] /\ length_ w = Z.of_nat (length [1.0; 2.0; 3.0]) /\
    capacity_ w = length_ w /\ is_altrep_ w = false /\ protect_ w = R_NilValue /\
    precious s' = precious s16 /\ cfg s' = cfg s16.
Proof.
  apply ctor_il_spec.
  - apply initial_rstate_wf.
  - simpl. lia.
  - unfold R_XLEN_T_MAX. simpl. lia.
Defined.

(** A writable vector over the REALSXP [xs] at handle 1, registered
    under token 2, with [len] elements in use, in a runtime whose
    allocator refuses more than [max] elements; [alt] makes it ALTREP. *)
Definition demo_wstate (alt : bool) (xs : list float) (max : Z) : rstate :=
  mk_rstate {[1%N := mk_sexprec (RealData xs) alt false R_NilValue]}
    {[2%N := 1%N]} 3%N max true PrimFloat.zero 0%Z 0 0.
Definition demo_wvector (alt : bool) (len cap : Z) : wvector :=
  mk_wvector (mk_vector 1%N 2%N alt (if alt then None else Some (1%N, 0%Z)) len) cap.

Lemma demo_wv_ok alt xs max len :
  (0 <= len <= Z.of_nat (length xs))%Z -> (Z.of_nat (length xs) <= R_XLEN_T_MAX)%Z ->
  wv_ok (T := float) (demo_wstate alt xs max) (demo_wvector alt len (Z.of_nat (length xs))).
Proof.
  intros Hl Hx.
  split; [split; simpl; try done; try lia; intros k Hk; by rewrite lookup_singleton_ne by lia|].
  split; [simpl; lia|]. split; [simpl; lia|].
  right. exists (mk_sexprec (RealData xs) alt false R_NilValue), xs.
  split; simpl; try done; try (by left); by destruct alt.
Qed.

Lemma demo_healthy alt xs max len cap : healthy (demo_wstate alt xs max) (demo_wvector alt len cap).
Proof. intros o Ho. simpl in Ho. rewrite lookup_singleton_eq in Ho. injection Ho as <-. by destruct alt. Qed.

(** Assigning through the proxy of an ALTREP vector and reading back. *)
Definition c120 : list float := [1.0; 2.0; 0.0].

Lemma proxy_roundtrip_witness :
  exists s', proxy_assign (proxy_at (demo_wvector true 2%Z 3%Z) 1%Z) 5.0 (demo_wstate true c120 16%Z) = Ok tt s' /\
    contents s' (demo_wvector true 2%Z 3%Z) = Some [1.0; 5.0] /\
    proxy_get (proxy_at (demo_wvector true 2%Z 3%Z) 1%Z) s' = Ok 5.0 (after_read true s').
Proof.
  destruct (proxy_roundtrip (demo_wstate true c120 16%Z) (demo_wvector true 2%Z 3%Z) 1%Z 5.0)
    as (s' & Hrun & _ & _ & Hc & Hget);
    [apply (demo_wv_ok true c120 16%Z 2%Z); simpl; unfold R_XLEN_T_MAX; lia|apply demo_healthy|simpl; lia|].
  exists s'. split_and!; [done| |done]. rewrite Hc. reflexivity.
Defined.

(** An ALTREP REALSXP of length 200 whose region method works, and a
    read-only vector on it (the specification's iterator example). *)
Definition alt_rstate : rstate :=
  mk_rstate {[1%N := mk_sexprec (RealData (repeat 0.5 200)) true false R_NilValue]} ∅
    2%N 16%Z true PrimFloat.zero 0%Z 0 0.
Definition alt_vector : vector := mk_vector 1%N R_NilValue true None 200%Z.

Lemma alt_readable :
  readable alt_rstate alt_vector
    (mk_sexprec (RealData (repeat 0.5 200)) true false R_NilValue) (repeat 0.5 200).
Proof. split; simpl; try done. Qed.

Lemma for_each_region_calls_witness :
  exists s1 s2, for_each alt_vector alt_rstate = Ok (take 200 (repeat 0.5 200)) s1 /\
    region_calls s1 = 4%nat /\ elt_calls s1 = 0%nat /\
    subscript_from alt_vector 0%Z 200 alt_rstate = Ok (take 200 (repeat 0.5 200)) s2 /\
    elt_calls s2 = 200%nat.
Proof.
  destruct (for_each_region_calls alt_rstate alt_vector _ _ alt_readable eq_refl)
    as (s1 & s2 & H1 & Hr & He & H2 & He2).
  exists s1, s2. split_and!; [exact H1|rewrite Hr; reflexivity|rewrite He; reflexivity|
                               exact H2|rewrite He2; reflexivity].
Defined.

Lemma for_each_refines_subscript_witness :
  exists s1 s2, for_each demo_vector demo_rstate = Ok [1.0; 2.0] s1 /\
    subscript_from demo_vector 0%Z 2 demo_rstate = Ok [1.0; 2.0] s2 /\ s1 = demo_rstate.
Proof.
  destruct (for_each_refines_subscript demo_rstate demo_vector _ _ demo_readable)
    as (s1 & s2 & H1 & H2 & Hd).
  exists s1, s2. split_and!; [exact H1|exact H2|apply Hd; reflexivity].
Defined.
(** A full vector of three elements whose doubling the allocator (at
    most four elements) refuses. *)
Lemma push_back_failed_growth_witness :
  push_back 4.0 (demo_wstate false c120 4, demo_wvector false 3 3) =
    Throw unwind_exception (demo_wstate false c120 4, w_set_capacity 6%Z (demo_wvector false 3%Z 3%Z)) /\
  exists why, push_back 5.0 (demo_wstate false c120 4, w_set_capacity 6%Z (demo_wvector false 3%Z 3%Z)) = Undef why.
Proof.
  destruct (push_back_failed_growth (demo_wstate false c120 4%Z) (demo_wvector false 3%Z 3%Z) 4.0 5.0)
    as (Hthrow & _ & Hundef);
    [apply (demo_wv_ok false c120 4%Z 3%Z); simpl; unfold R_XLEN_T_MAX; lia|apply demo_healthy|
     simpl; lia..|].
  split; [exact Hthrow|exact Hundef].
Defined.

Lemma doubles_literal_use_after_free_witness :
  exists w s', doubles.ctor_il [1.0; 2.0] s16 = Ok w s' /\
    (_ <- Rf_allocVector REALSXP 1%Z;; at_ "doubles" w 0%Z) s' =
      Undef "access to a collected or invalid SEXP".
Proof.
  apply doubles_literal_use_after_free.
  - apply initial_rstate_wf.
  - reflexivity.
  - reflexivity.
  - discriminate.
  - simpl. lia.
  - unfold R_XLEN_T_MAX. simpl. lia.
Defined.

(** An ALTREP REALSXP whose region method fails. *)
Definition failing_rstate : rstate :=
  mk_rstate {[1%N := mk_sexprec (RealData [0.5]) true true R_NilValue]} ∅
    2%N 16%Z false PrimFloat.zero 0%Z 0 0.

Lemma doubles_fill_buf_region_error_witness :
  doubles.fill_buf (mk_iter (mk_vector 1%N R_NilValue true None 1%Z) 0%Z [] 0%Z 0%Z) 0%Z failing_rstate =
    Throw unwind_exception failing_rstate.
Proof. eapply doubles_fill_buf_region_error; reflexivity. Defined.
(** A runtime holding a protected logical vector at handle 1 (token 2),
    passed as the value of a named argument to [writable::doubles]. *)
Definition named_rstate : rstate :=
  mk_rstate {[1%N := mk_sexprec (LglData [1%Z]) false false R_NilValue]} {[2%N := 1%N]}
    3%N 16%Z true PrimFloat.zero 0%Z 0 0.

Lemma named_rstate_wf : rstate_wf named_rstate.
Proof.
  split; simpl; try done; try lia;
    intros k Hk; rewrite lookup_singleton_ne; [done|lia|done|lia].
Qed.

Lemma ctor_named_type_error_leak_witness :
  exists s' tok, ctor_named (T := float) [mk_named_arg "x"%string 1%N] named_rstate =
    Throw (type_error REALSXP LGLSXP) s' /\
    precious named_rstate !! tok = None /\ precious s' !! tok = Some 3%N.
Proof.
  destruct (ctor_named_type_error_leak (T := float) named_rstate (mk_named_arg "x"%string 1%N) [] 2%N
           (mk_sexprec (LglData [1%Z]) false false R_NilValue)) as (s' & tok & H1 & H2 & H3);
    [apply named_rstate_wf|done|done|discriminate|vm_compute; discriminate..|].
  exists s', tok. split_and!; [exact H1|exact H2|exact H3].
Defined.

(** A runtime holding a protected double vector [c(2.5)] at handle 1
    (token 2), under gctorture. *)
Definition named_ok_rstate : rstate :=
  mk_rstate {[1%N := mk_sexprec (RealData [2.5]) false false R_NilValue]} {[2%N := 1%N]}
    3%N 16%Z true PrimFloat.zero 0%Z 0 0.

Lemma named_ok_rstate_wf : rstate_wf named_ok_rstate.
Proof.
  split; simpl; try done; try lia;
    intros k Hk; rewrite lookup_singleton_ne; [done|lia|done|lia].
Qed.

Lemma ctor_named_spec_witness :
  exists s' w, ctor_named (T := float) [mk_named_arg "x"%string 1%N] named_ok_rstate = Ok w s' /\
    contents s' w = Some [2.5] /\ wv_ok s' w /\
    exists od onm, heap s' !! data_ w = Some od /\ heap s' !! sx_names od = Some onm /\
      sx_data onm = StrData [Some "x"%string].
Proof.
  destruct (ctor_named_spec named_ok_rstate [mk_named_arg "x"%string 1%N] [2.5])
    as (s' & w & Hrun & Hok & Hc & _ & _ & _ & _ & Hn).
  - apply named_ok_rstate_wf.
  - repeat constructor. exists 2%N, (mk_sexprec (RealData [2.5]) false false R_NilValue), [].
    by split_and!.
  - simpl. lia.
  - unfold R_XLEN_T_MAX. simpl. lia.
  - exists s', w. by split_and!.
Defined.

Lemma doubles_ctor_il_alloc_error_witness :
  alloc_fails 3%Z (initial_rstate 1 true) = true /\
  doubles.ctor_il [1.0; 2.0; 3.0] (initial_rstate 1 true) = Throw unwind_exception (initial_rstate 1 true).
Proof. split; [reflexivity|]. apply doubles_ctor_il_alloc_error. reflexivity. Defined.

Lemma vector_from_type_check_witness :
  vector_from (T := float) R_NilValue named_rstate = Throw (type_error REALSXP NILSXP) named_rstate /\
  vector_from (T := float) 1%N named_rstate = Throw (type_error REALSXP LGLSXP) named_rstate.
Proof.
  destruct (vector_from_type_check (T := float) named_rstate 1%N named_rstate_wf) as [_ H1].
  destruct (vector_from_type_check (T := float) named_rstate R_NilValue named_rstate_wf) as [H0 _].
  split; [exact (H0 eq_refl)|].
  exact (H1 (mk_sexprec (LglData [1%Z]) false false R_NilValue) eq_refl ltac:(discriminate)).
Defined.

Lemma push_all_destroy_no_leak_witness :
  exists s' w' s'', push_all [1.0; 2.0; 3.0] (s16, empty_wvector) = Ok tt (s', w') /\
    destroy (s', w') = Ok tt (s'', w') /\ precious s'' = precious s16.
Proof.
  apply push_all_destroy_no_leak; [apply initial_rstate_wf|simpl; lia|unfold R_XLEN_T_MAX; simpl; lia].
Defined.

(** A life under gctorture: pushes, a store through the proxy, a
    [reserve], and allocations by other code in between. *)
Definition demo_ops : list (op float) :=
  [op_push 1.0; op_alloc REALSXP 3%Z; op_push 2.0; op_assign 0%Z 5.0; op_reserve 8%Z;
   op_alloc LGLSXP 2%Z; op_push 3.0].

Definition demo_final : rstate * wvector :=
  match run_from (s16, empty_wvector) demo_ops with Some st => st | None => (s16, empty_wvector) end.

Lemma demo_runs : runs s16 demo_ops (demo_final.1, demo_final.2).
Proof.
  rewrite <- surjective_pairing. change demo_ops with ([] ++ demo_ops).
  apply (run_from_steps (s16, empty_wvector) [] (s16, empty_wvector)); [constructor|vm_compute; reflexivity].
Qed.

Lemma runs_invariant_witness :
  wv_ok (T := float) demo_final.1 demo_final.2 /\
  delete (protect_ demo_final.2) (precious demo_final.1) = precious s16.
Proof.
  destruct (runs_invariant s16 demo_ops demo_final.1 demo_final.2 (initial_rstate_wf _ _) demo_runs)
    as (Hok & _ & _ & Hfr).
  by split.
Defined.

Lemma runs_refines_witness :
  contents (T := float) demo_final.1 demo_final.2 = Some (abs_run demo_ops) /\
  abs_run demo_ops = [5.0; 2.0; 3.0] /\
  at_ "doubles" demo_final.2 1%Z demo_final.1 = Ok 2.0 (after_read (is_altrep_ demo_final.2) demo_final.1).
Proof.
  destruct (runs_refines "doubles" s16 demo_ops demo_final.1 demo_final.2 (initial_rstate_wf _ _) demo_runs)
    as (Hc & _ & Hat).
  split_and!; [exact Hc|vm_compute; reflexivity|]. apply (Hat 1%nat). vm_compute. reflexivity.
Defined.

Lemma runs_progress_witness :
  enabled (op_push 4.0) (demo_final.1, demo_final.2) = true /\
  exists st', exec (op_push 4.0) (demo_final.1, demo_final.2) = Ok tt st' /\
    runs s16 (demo_ops ++ [op_push 4.0]) st'.
Proof.
  assert (Hen : enabled (op_push 4.0) (demo_final.1, demo_final.2) = true) by (vm_compute; reflexivity).
  split; [exact Hen|]. exact (runs_progress s16 demo_ops _ _ (initial_rstate_wf _ _) demo_runs Hen).
Defined.

Lemma runs_destroy_restores_witness :
  exists s', destroy (demo_final.1, demo_final.2) = Ok tt (s', (demo_final.1, demo_final.2).2) /\
    precious s' = precious s16.
Proof. exact (runs_destroy_restores s16 demo_ops _ (initial_rstate_wf _ _) demo_runs). Defined.

(** [c(1, 2, 3)] with a direct pointer, reserved down to one element. *)
Lemma reserve_below_length_witness :
  exists s' w', reserve (T := float) 1%Z (demo_wstate false [1.0; 2.0; 3.0] 16%Z, demo_wvector false 3%Z 3%Z) =
      Ok tt (s', w') /\ capacity_ w' = 1%Z /\ length_ w' = 3%Z /\ ~ wv_ok (T := float) s' w' /\
    at_ (T := float) "doubles" w' 1%Z s' = Undef "read out of bounds".
Proof.
  apply (reserve_below_length "doubles" (demo_wstate false [1.0; 2.0; 3.0] 16%Z) (demo_wvector false 3%Z 3%Z) 1%Z).
  - apply (demo_wv_ok false [1.0; 2.0; 3.0] 16%Z 3%Z); simpl; unfold R_XLEN_T_MAX; lia.
  - apply demo_healthy.
  - reflexivity.
  - simpl; lia.
  - simpl; lia.
Defined.

(** An iterator on the ALTREP vector at index 70 whose block holds
    elements 0 to 63: the read refills the block once. *)
Definition alt_iter : const_iterator float :=
  mk_iter alt_vector 70%Z (take 64 (repeat 0.5 200)) 0%Z 64%Z.

Lemma deref_window_witness :
  window_ok (repeat 0.5 200) alt_iter /\
  exists it' s', deref alt_iter alt_rstate = Ok (0.5, it') s' /\
    window_ok (repeat 0.5 200) (incr it') /\ region_calls s' = 1%nat.
Proof.
  assert (Hw : window_ok (repeat 0.5 200) alt_iter) by (split_and!; simpl; lia || reflexivity).
  split; [exact Hw|].
  destruct (deref_window alt_rstate alt_vector _ _ alt_iter alt_readable eq_refl eq_refl Hw
              ltac:(simpl; lia)) as (x & it' & s' & Hd & Hx & _ & Hw' & _ & _ & _ & Hrc & _).
  vm_compute in Hx. injection Hx as <-.
  exists it', s'. split_and!; [exact Hd|exact Hw'|rewrite Hrc; reflexivity].
Defined.

End Witnesses.
